(** * Receipt API: the points rules and the receipt validator of [main.go]

    A shallow embedding of [main.go] (package [main] of the receipt
    service) and of the parts of the Go standard library its functions
    call: [unicode/utf8], [unicode], [strings.TrimSpace], [strconv.Atoi],
    [strconv.ParseFloat], [math.Round], [math.Ceil], [regexp] on the three
    patterns of the file, and [time.Parse] on its two layouts.

    Conventions.
    - A Go [string] is a sequence of bytes: Rocq's [string], read through
      [bytes] as a [list Z] of values in [0, 255].
    - [int] and [int64] are 64 bits wide: arithmetic on them is written
      with [wrap64].
    - [float64] is IEEE 754 binary64: [spec_float] with [prec = 53] and
      [emax = 1024].
    - A run-time panic (a slice out of range) is the result [Panic]. *)

From Stdlib Require Import ZArith List String Ascii Bool Lia.
From Stdlib Require Import Floats.SpecFloat.
From Stdlib Require Import Sorting.Permutation.
Import ListNotations.

Local Open Scope string_scope.
Local Open Scope list_scope.
Local Open Scope Z_scope.


(* ===================================================================== *)
(** * Go values *)
(* ===================================================================== *)

Module Go.

(** The bytes of a Go string. *)
Definition code (c : ascii) : Z := Z.of_N (N_of_ascii c).

Definition bytes (s : string) : list Z := map code (list_ascii_of_string s).

(** [len(s)] *)
Definition len (s : string) : Z := Z.of_nat (String.length s).

(** Two's complement wrap-around of a 64-bit signed integer. *)
Definition wrap64 (z : Z) : Z := (z + 2 ^ 63) mod 2 ^ 64 - 2 ^ 63.

Definition min_int64 : Z := - 2 ^ 63.
Definition max_int64 : Z := 2 ^ 63 - 1.

Definition in_int64 (z : Z) : bool := (min_int64 <=? z) && (z <=? max_int64).

(** The outcome of a call that may panic. *)
Inductive outcome (A : Type) : Type :=
| Returns (a : A)
| Panic.

Arguments Returns {A} a.
Arguments Panic {A}.

Definition bind {A B : Type} (x : outcome A) (f : A -> outcome B) : outcome B :=
  match x with
  | Returns a => f a
  | Panic => Panic
  end.

(** The slice expression [s[lo:hi]] on strings: it panics unless
    [0 <= lo <= hi <= len(s)]. *)
Definition slice (s : string) (lo hi : Z) : outcome string :=
  if (0 <=? lo) && (lo <=? hi) && (hi <=? len s)
  then Returns (substring (Z.to_nat lo) (Z.to_nat (hi - lo)) s)
  else Panic.

(** What is outside [main.go] and outside the language definition.
    - [letterTable] and [digitTable]: the range tables [unicode.Letter] and
      [unicode.Digit] on the runes above U+00FF (below, [unicode] decides
      by its Latin-1 property table, written out in [Unicode]).
    - [floatToIntOOR]: the result of converting a [float64] that no [int]
      represents (NaN, an infinity, a value out of range). The language
      definition leaves it to the implementation: amd64 gives [-2^63],
      arm64 saturates and gives [0] for NaN. *)
Record Platform : Type := {
  letterTable : Z -> bool;
  digitTable : Z -> bool;
  floatToIntOOR : spec_float -> Z
}.

(** amd64 ([CVTTSD2SQ] returns the integer indefinite value), with range
    tables that hold no rune above U+00FF. *)
Definition amd64_latin1 : Platform :=
  {| letterTable := fun _ => false;
     digitTable := fun _ => false;
     floatToIntOOR := fun _ => min_int64 |}.

(** arm64 ([FCVTZS] saturates), same tables. *)
Definition arm64_latin1 : Platform :=
  {| letterTable := fun _ => false;
     digitTable := fun _ => false;
     floatToIntOOR := fun f =>
       match f with
       | S754_infinity false | S754_finite false _ _ => max_int64
       | S754_infinity true | S754_finite true _ _ => min_int64
       | _ => 0
       end |}.

End Go.

Notation "x <- c1 ;; c2" := (Go.bind c1 (fun x => c2))
  (at level 61, c1 at next level, right associativity).

(* ===================================================================== *)
(** * unicode/utf8 *)
(* ===================================================================== *)

Module Utf8.

Definition RuneError : Z := 65533.   (* U+FFFD *)
Definition RuneSelf : Z := 128.
Definition UTFMax : nat := 4.

Definition is_cont (b : Z) : bool := (128 <=? b) && (b <=? 191).

(** [DecodeRuneInString]: the first rune of [s] and its width in bytes.
    A byte that starts no well-formed encoding decodes as [RuneError] of
    width 1; the empty string as [RuneError] of width 0. The accepted
    ranges of the second byte are those of the table [acceptRanges]. *)
Definition DecodeRune (s : list Z) : Z * nat :=
  match s with
  | [] => (RuneError, 0%nat)
  | b0 :: t =>
    if b0 <? 128 then (b0, 1%nat)
    else if (194 <=? b0) && (b0 <=? 223) then
      match t with
      | b1 :: _ =>
        if is_cont b1 then ((b0 - 192) * 64 + (b1 - 128), 2%nat)
        else (RuneError, 1%nat)
      | _ => (RuneError, 1%nat)
      end
    else if (224 <=? b0) && (b0 <=? 239) then
      match t with
      | b1 :: b2 :: _ =>
        let lo := if b0 =? 224 then 160 else 128 in
        let hi := if b0 =? 237 then 159 else 191 in
        if (lo <=? b1) && (b1 <=? hi) && is_cont b2
        then ((b0 - 224) * 4096 + (b1 - 128) * 64 + (b2 - 128), 3%nat)
        else (RuneError, 1%nat)
      | _ => (RuneError, 1%nat)
      end
    else if (240 <=? b0) && (b0 <=? 244) then
      match t with
      | b1 :: b2 :: b3 :: _ =>
        let lo := if b0 =? 240 then 144 else 128 in
        let hi := if b0 =? 244 then 143 else 191 in
        if (lo <=? b1) && (b1 <=? hi) && is_cont b2 && is_cont b3
        then ((b0 - 240) * 262144 + (b1 - 128) * 4096
              + (b2 - 128) * 64 + (b3 - 128), 4%nat)
        else (RuneError, 1%nat)
      | _ => (RuneError, 1%nat)
      end
    else (RuneError, 1%nat)
  end.

(** The runes a [for _, r := range s] loop visits, in order. [fuel] bounds
    the number of iterations; [length s] is enough, since every iteration
    consumes at least one byte. *)
Fixpoint runes_fuel (fuel : nat) (s : list Z) : list Z :=
  match fuel with
  | O => []
  | S fuel' =>
    match s with
    | [] => []
    | _ :: _ =>
      let '(r, w) := DecodeRune s in
      r :: runes_fuel fuel' (skipn w s)
    end
  end.

Definition runes (s : list Z) : list Z := runes_fuel (List.length s) s.

(** [RuneStart]: the byte is not a continuation byte. *)
Definition RuneStart (b : Z) : bool := negb (Z.land b 192 =? 128).

(** The loop of [DecodeLastRuneInString] that walks back from
    [start = end - 2] to the first rune start, at most [UTFMax - 1] steps:
    [rev_before] is [s[:end-1]] reversed, and the result is how many bytes
    before the last one the candidate rune starts. *)
Fixpoint back_to_start (steps : nat) (rev_before : list Z) : nat :=
  match steps, rev_before with
  | _, [] => 0%nat                (* [start < 0] is reset to 0 *)
  | O, _ :: _ => 1%nat            (* the loop stops at [lim - 1] *)
  | S k, b :: t => if RuneStart b then 1%nat else S (back_to_start k t)
  end.

(** [DecodeLastRuneInString]: the last rune of [s] and its width. *)
Definition DecodeLastRune (s : list Z) : Z * nat :=
  match rev s with
  | [] => (RuneError, 0%nat)
  | last :: before =>
    if last <? RuneSelf then (last, 1%nat)
    else
      let lim := Nat.min (UTFMax - 1) (List.length before) in
      let back := back_to_start lim before in
      let tail := skipn (List.length before - back) s in
      let '(r, size) := DecodeRune tail in
      if Nat.eqb size (S back) then (r, size) else (RuneError, 1%nat)
  end.

End Utf8.

(* ===================================================================== *)
(** * unicode *)
(* ===================================================================== *)

Module Unicode.

Import Go.

Definition MaxLatin1 : Z := 255.

(** The letters of Latin-1, as the property table of [unicode] marks them
    (a bit of [pLmask]): A-Z, a-z, U+00AA, U+00B5, U+00BA, U+00C0-U+00D6,
    U+00D8-U+00F6, U+00F8-U+00FF. *)
Definition latin1_letter (r : Z) : bool :=
  ((65 <=? r) && (r <=? 90)) || ((97 <=? r) && (r <=? 122))
  || (r =? 170) || (r =? 181) || (r =? 186)
  || ((192 <=? r) && (r <=? 214)) || ((216 <=? r) && (r <=? 246))
  || ((248 <=? r) && (r <=? 255)).

(** [unicode.IsLetter] *)
Definition IsLetter (P : Platform) (r : Z) : bool :=
  if (0 <=? r) && (r <=? MaxLatin1) then latin1_letter r
  else letterTable P r.

(** [unicode.IsDigit] *)
Definition IsDigit (P : Platform) (r : Z) : bool :=
  if r <=? MaxLatin1 then (48 <=? r) && (r <=? 57)
  else digitTable P r.

(** [unicode.IsSpace]: the Latin-1 cases of the function, and above them
    the range table [White_Space]. *)
Definition IsSpace (r : Z) : bool :=
  if (0 <=? r) && (r <=? MaxLatin1) then
    (r =? 9) || (r =? 10) || (r =? 11) || (r =? 12) || (r =? 13)
    || (r =? 32) || (r =? 133) || (r =? 160)
  else
    (r =? 5760) || ((8192 <=? r) && (r <=? 8202))
    || (r =? 8232) || (r =? 8233) || (r =? 8239) || (r =? 8287)
    || (r =? 12288).

End Unicode.

(* ===================================================================== *)
(** * strings *)
(* ===================================================================== *)

Module Strings.

Import Go.

Definition byte_to_ascii (b : Z) : ascii := ascii_of_N (Z.to_N b).

Definition of_bytes (l : list Z) : string :=
  string_of_list_ascii (map byte_to_ascii l).

(** The table [asciiSpace]. *)
Definition asciiSpace (c : Z) : bool :=
  (c =? 9) || (c =? 10) || (c =? 11) || (c =? 12) || (c =? 13) || (c =? 32).

(** [TrimLeftFunc(s, unicode.IsSpace)]: [s] from its first rune that is
    no space on, or the empty string. *)
Fixpoint TrimLeftSpace_fuel (fuel : nat) (s : list Z) : list Z :=
  match fuel with
  | O => []
  | S k =>
    match s with
    | [] => []
    | _ :: _ =>
      let '(r, w) := Utf8.DecodeRune s in
      if Unicode.IsSpace r then TrimLeftSpace_fuel k (skipn w s) else s
    end
  end.

Definition TrimLeftSpace (s : list Z) : list Z :=
  TrimLeftSpace_fuel (List.length s) s.

(** [lastIndexFunc(s, unicode.IsSpace, false)], started at [i]: the index
    of the last rune of [s[:i]] that is no space; [None] is -1. *)
Fixpoint lastIndexNotSpace (fuel : nat) (s : list Z) (i : nat) : option nat :=
  match fuel with
  | O => None
  | S k =>
    match i with
    | O => None
    | S _ =>
      let '(r, size) := Utf8.DecodeLastRune (firstn i s) in
      let i' := (i - size)%nat in
      if Unicode.IsSpace r then lastIndexNotSpace k s i' else Some i'
    end
  end.

(** [TrimRightFunc(s, unicode.IsSpace)] *)
Definition TrimRightSpace (s : list Z) : list Z :=
  match lastIndexNotSpace (List.length s) s (List.length s) with
  | Some i =>
    if Utf8.RuneSelf <=? nth i s 0 then
      let '(_, wid) := Utf8.DecodeRune (skipn i s) in
      firstn (i + wid) s
    else firstn (S i) s
  | None => []
  end.

(** The first loop of [TrimSpace]: it drops ASCII spaces from the front
    and reports whether it stopped at a byte that is not ASCII. *)
Fixpoint trim_start (s : list Z) : list Z * bool :=
  match s with
  | [] => ([], false)
  | c :: t =>
    if Utf8.RuneSelf <=? c then (s, true)
    else if asciiSpace c then trim_start t
    else (s, false)
  end.

(** [strings.TrimSpace] on the bytes of a string. The second loop is
    [trim_start] on the reversed string. *)
Definition TrimSpace_bytes (s : list Z) : list Z :=
  let '(s1, slow) := trim_start s in
  if slow then TrimRightSpace (TrimLeftSpace s1)
  else
    let '(r2, slow2) := trim_start (rev s1) in
    if slow2 then TrimRightSpace (rev r2) else rev r2.

Definition TrimSpace (s : string) : string := of_bytes (TrimSpace_bytes (bytes s)).

End Strings.

(* ===================================================================== *)
(** * float64 *)
(* ===================================================================== *)

Module Float64.

Import Go.

Definition prec : Z := 53.
Definition emax : Z := 1024.

Definition float64 : Type := spec_float.

Definition mul : float64 -> float64 -> float64 := SFmul prec emax.

(** The [float64] nearest to the integer [z] (ties to even). *)
Definition of_Z (z : Z) : float64 := binary_normalize prec emax z 0 false.

(** The [float64] nearest to [(-1)^neg * num / den] (ties to even), by the
    long division of [SFdiv]: a quotient with enough bits and the position
    of the exact value between it and its successor. *)
Definition of_ratio (neg : bool) (num den : positive) : float64 :=
  let '(mz, ez, lz) := SFdiv_core_binary prec emax (Zpos num) 0 (Zpos den) 0 in
  binary_round_aux prec emax neg mz ez lz.

(** The [float64] nearest to [(-1)^neg * m * 2^e]. *)
Definition of_scaled (neg : bool) (m : positive) (e : Z) : float64 :=
  binary_round prec emax neg m e.

(** The integer part and the remainder of a finite value below [2^53] in
    magnitude: [m * 2^e = q + r / 2^(-e)] for [e < 0]. *)
Definition split_fraction (m : positive) (e : Z) : Z * Z :=
  (Z.shiftr (Zpos m) (- e), Z.land (Zpos m) (Z.ones (- e))).

(** [math.Round]: the nearest integer, halves away from zero. *)
Definition Round (x : float64) : float64 :=
  match x with
  | S754_finite s m e =>
    if 0 <=? e then x
    else
      let '(q, r) := split_fraction m e in
      let n := if 2 ^ (- e - 1) <=? r then q + 1 else q in
      binary_normalize prec emax (if s then - n else n) 0 s
  | _ => x
  end.

(** [math.Ceil]: the least integer not below [x]; [Ceil(-0.5)] is [-0]. *)
Definition Ceil (x : float64) : float64 :=
  match x with
  | S754_finite s m e =>
    if 0 <=? e then x
    else
      let '(q, r) := split_fraction m e in
      if s then binary_normalize prec emax (- q) 0 true
      else binary_normalize prec emax (if r =? 0 then q else q + 1) 0 false
  | _ => x
  end.

(** The value of a finite [float64] with its fraction discarded. *)
Definition truncate (x : float64) : option Z :=
  match x with
  | S754_zero _ => Some 0
  | S754_finite s m e =>
    let a := if 0 <=? e then Zpos m * 2 ^ e else Z.shiftr (Zpos m) (- e) in
    Some (if s then - a else a)
  | _ => None
  end.

(** The conversion [int(x)]: the fraction is discarded; a value that [int]
    does not hold is converted as the platform does. *)
Definition to_int (P : Platform) (x : float64) : Z :=
  match truncate x with
  | Some z => if in_int64 z then z else wrap64 (floatToIntOOR P x)
  | None => wrap64 (floatToIntOOR P x)
  end.

End Float64.

(* ===================================================================== *)
(** * strconv *)
(* ===================================================================== *)

Module Strconv.

Import Go.

(** [*NumError], by its [Err] field. *)
Inductive NumError : Type := ErrSyntax | ErrRange.

Inductive result (A : Type) : Type :=
| Ok (a : A)
| Err (e : NumError).

Arguments Ok {A} a.
Arguments Err {A} e.

Definition ch (c : ascii) : Z := code c.

Definition is_digit (c : Z) : bool := (ch "0" <=? c) && (c <=? ch "9").

(** [lower(c)]: [c | ('x' ^ 'X')]. *)
Definition lower (c : Z) : Z := Z.lor c 32.

Definition is_hex_letter (c : Z) : bool := (ch "a" <=? lower c) && (lower c <=? ch "f").

(** The value of a run of decimal digits, most significant first. *)
Fixpoint digits_value (acc : Z) (ds : list Z) : Z :=
  match ds with
  | [] => acc
  | d :: t => digits_value (acc * 10 + (d - ch "0")) t
  end.

(** [strconv.Atoi]: an optional sign and one or more decimal digits, in
    the range of [int]. The fast path (fewer than 19 bytes) and
    [ParseInt(s, 10, 0)] read the same strings; base 10 takes no
    underscore. *)
Definition Atoi (s : string) : result Z :=
  let b := bytes s in
  let '(neg, ds) :=
    match b with
    | c :: t => if c =? ch "-" then (true, t)
                else if c =? ch "+" then (false, t) else (false, b)
    | [] => (false, b)
    end in
  match ds with
  | [] => Err ErrSyntax
  | _ :: _ =>
    if forallb is_digit ds then
      let n := digits_value 0 ds in
      let v := if neg then - n else n in
      if in_int64 v then Ok v else Err ErrRange
    else Err ErrSyntax
  end.

(** ** ParseFloat *)

(** [commonPrefixLenIgnoreCase(s, prefix)], [prefix] in lower case. *)
Fixpoint commonPrefixLenIgnoreCase (s prefix : list Z) : nat :=
  match s, prefix with
  | c :: s', p :: prefix' =>
    let c := if (ch "A" <=? c) && (c <=? ch "Z") then c + 32 else c in
    if c =? p then S (commonPrefixLenIgnoreCase s' prefix') else O
  | _, _ => O
  end.

(** [special]: the value and the number of bytes read when [s] starts
    with an infinity or a NaN. *)
Definition special (s : list Z) : option (Float64.float64 * nat) :=
  let inf (neg : bool) (nsign : nat) (s : list Z) :=
    let n := commonPrefixLenIgnoreCase s (bytes "infinity") in
    let n := if (3 <? n)%nat && (n <? 8)%nat then 3%nat else n in
    if (n =? 3)%nat || (n =? 8)%nat
    then Some (S754_infinity neg, (nsign + n)%nat) else None in
  match s with
  | [] => None
  | c :: t =>
    if c =? ch "+" then inf false 1%nat t
    else if c =? ch "-" then inf true 1%nat t
    else if (c =? ch "i") || (c =? ch "I") then inf false 0%nat s
    else if (c =? ch "n") || (c =? ch "N") then
      if (commonPrefixLenIgnoreCase s (bytes "nan") =? 3)%nat
      then Some (S754_nan, 3%nat) else None
    else None
  end.

(** The state of the digit loop of [readFloat]. [mantissa] keeps every
    digit read: the source keeps the first 19 (16 in base 16) in a
    [uint64] and goes back to the text for the others, to return the
    nearest [float64] of the whole numeral either way. [nd] counts the
    digits after the leading zeros, [dp] is the position of the point. *)
Record digits_state : Type := {
  sawdot : bool;
  sawdigits : bool;
  nd : Z;
  dp : Z;
  mantissa : Z;
  underscores : bool
}.

Definition digits_init : digits_state :=
  {| sawdot := false; sawdigits := false; nd := 0; dp := 0;
     mantissa := 0; underscores := false |}.

(** The loop [loop:] of [readFloat]; it returns the state and the bytes
    not read. *)
Fixpoint read_digits (hex : bool) (st : digits_state) (s : list Z)
  : digits_state * list Z :=
  match s with
  | [] => (st, [])
  | c :: t =>
    if c =? ch "_" then
      read_digits hex
        {| sawdot := sawdot st; sawdigits := sawdigits st; nd := nd st;
           dp := dp st; mantissa := mantissa st; underscores := true |} t
    else if c =? ch "." then
      if sawdot st then (st, s)
      else
        read_digits hex
          {| sawdot := true; sawdigits := sawdigits st; nd := nd st;
             dp := nd st; mantissa := mantissa st;
             underscores := underscores st |} t
    else if is_digit c then
      if (c =? ch "0") && (nd st =? 0) then
        read_digits hex
          {| sawdot := sawdot st; sawdigits := true; nd := nd st;
             dp := dp st - 1; mantissa := mantissa st;
             underscores := underscores st |} t
      else
        read_digits hex
          {| sawdot := sawdot st; sawdigits := true; nd := nd st + 1;
             dp := dp st;
             mantissa := mantissa st * (if hex then 16 else 10) + (c - ch "0");
             underscores := underscores st |} t
    else if hex && is_hex_letter c then
      read_digits hex
        {| sawdot := sawdot st; sawdigits := true; nd := nd st + 1;
           dp := dp st;
           mantissa := mantissa st * 16 + (lower c - ch "a" + 10);
           underscores := underscores st |} t
    else (st, s)
  end.

(** The digits of the exponent, underscores skipped: the exponent stops
    growing at 10000. It returns the exponent, whether an underscore was
    seen, and the bytes not read. *)
Fixpoint read_exponent (e : Z) (us : bool) (s : list Z) : Z * bool * list Z :=
  match s with
  | c :: t =>
    if c =? ch "_" then read_exponent e true t
    else if is_digit c then
      read_exponent (if e <? 10000 then e * 10 + (c - ch "0") else e) us t
    else (e, us, s)
  | [] => (e, us, [])
  end.

(** The loop of [underscoreOK] over the number proper. [saw] is the class
    of the last byte: [0] a digit or the base prefix, [1] an underscore,
    [2] anything else, [3] the beginning. *)
Fixpoint underscore_loop (hex : bool) (saw : Z) (s : list Z) : bool :=
  match s with
  | [] => negb (saw =? 1)
  | c :: t =>
    if is_digit c || (hex && is_hex_letter c) then underscore_loop hex 0 t
    else if c =? ch "_" then
      if saw =? 0 then underscore_loop hex 1 t else false
    else if saw =? 1 then false
    else underscore_loop hex 2 t
  end.

(** [underscoreOK]: underscores stand only between digits, or between a
    base prefix and a digit. *)
Definition underscoreOK (s : list Z) : bool :=
  let s :=
    match s with
    | c :: t => if (c =? ch "-") || (c =? ch "+") then t else s
    | [] => s
    end in
  match s with
  | c0 :: c1 :: t =>
    if (c0 =? ch "0")
       && ((lower c1 =? ch "b") || (lower c1 =? ch "o") || (lower c1 =? ch "x"))
    then underscore_loop (lower c1 =? ch "x") 0 t
    else underscore_loop false 3 s
  | _ => underscore_loop false 3 s
  end.

(** What [readFloat] returns when it succeeds: the numeral is
    [(-1)^neg * mant * 10^exp], or [(-1)^neg * mant * 2^exp] when [hex];
    [unread] is the text after it. *)
Record numeral : Type := {
  num_mant : Z;
  num_exp : Z;
  num_neg : bool;
  num_hex : bool;
  num_unread : list Z
}.

(** The optional sign of [readFloat]: whether it is a minus, and the
    text after it. *)
Definition read_sign (s : list Z) : bool * list Z :=
  match s with
  | c :: t =>
    if c =? ch "+" then (false, t)
    else if c =? ch "-" then (true, t) else (false, s)
  | [] => (false, s)
  end.

(** The base prefix of [readFloat]: "0x" or "0X" with at least one byte
    after it ([i+2 < len(s)]). *)
Definition read_prefix (s : list Z) : bool * list Z :=
  match s with
  | c0 :: c1 :: (_ :: _) as t =>
    if (c0 =? ch "0") && (lower c1 =? ch "x") then (true, t) else (false, s)
  | _ => (false, s)
  end.

(** [readFloat] after the digit loop, which left the state [st] and the
    text [s3] of the whole text [s]: the exponent, and the check of the
    underscores in what was read. *)
Definition read_tail (s : list Z) (neg hex : bool) (st : digits_state)
    (s3 : list Z) : option numeral :=
  if negb (sawdigits st) then None
  else
    let dp0 := if sawdot st then dp st else nd st in
    let dp1 := if hex then dp0 * 4 else dp0 in
    let ndMant := if hex then nd st * 4 else nd st in
    let expChar := if hex then ch "p" else ch "e" in
    let finish (dp2 : Z) (us : bool) (rest : list Z) :=
      let consumed := firstn (List.length s - List.length rest) s in
      if us && negb (underscoreOK consumed) then None
      else Some {| num_mant := mantissa st;
                   num_exp := if mantissa st =? 0 then 0 else dp2 - ndMant;
                   num_neg := neg; num_hex := hex; num_unread := rest |} in
    match s3 with
    | c3 :: t3 =>
      if lower c3 =? expChar then
        match t3 with
        | [] => None
        | c4 :: t4 =>
          let '(esign, s4) :=
            if c4 =? ch "+" then (1, t4)
            else if c4 =? ch "-" then (-1, t4) else (1, t3) in
          match s4 with
          | d :: _ =>
            if is_digit d then
              let '(e, us, rest) := read_exponent 0 (underscores st) s4 in
              finish (dp1 + e * esign) us rest
            else None
          | [] => None
          end
        end
      else if hex then None
      else finish dp1 (underscores st) s3
    | [] => if hex then None else finish dp1 (underscores st) s3
    end.

(** [readFloat] *)
Definition readFloat (s : list Z) : option numeral :=
  match s with
  | [] => None
  | _ :: _ =>
    let '(neg, s1) := read_sign s in
    let '(hex, s2) := read_prefix s1 in
    let '(st, s3) := read_digits hex digits_init s2 in
    read_tail s neg hex st s3
  end.

(** The nearest [float64] of a numeral, ties to even. *)
Definition numeral_value (n : numeral) : Float64.float64 :=
  match num_mant n with
  | Zpos m =>
    if num_hex n then Float64.of_scaled (num_neg n) m (num_exp n)
    else if 0 <=? num_exp n
    then Float64.of_scaled (num_neg n) (m * Z.to_pos (10 ^ num_exp n)) 0
    else Float64.of_ratio (num_neg n) m (Z.to_pos (10 ^ (- num_exp n)))
  | _ => S754_zero (num_neg n)
  end.

(** [strconv.ParseFloat(s, 64)]: the whole of [s] is an infinity, a NaN,
    or a decimal or hexadecimal numeral; a numeral that rounds to an
    infinity is out of range. *)
Definition ParseFloat (s : string) : result Float64.float64 :=
  let b := bytes s in
  match special b with
  | Some (f, n) => if (n =? List.length b)%nat then Ok f else Err ErrSyntax
  | None =>
    match readFloat b with
    | None => Err ErrSyntax
    | Some n =>
      match num_unread n with
      | [] =>
        match numeral_value n with
        | S754_infinity _ => Err ErrRange
        | f => Ok f
        end
      | _ :: _ => Err ErrSyntax
      end
    end
  end.

End Strconv.

(* ===================================================================== *)
(** * regexp *)
(* ===================================================================== *)

Module Regexp.

Import Go.

(** Regular expressions over bytes. The classes of the three patterns of
    [main.go] hold ASCII characters only, and an ASCII byte of a Go string
    is always a rune of its own, so matching bytes and matching runes
    agree on them. *)
Inductive re : Type :=
| Void
| Eps
| Class (p : Z -> bool)
| Cat (a b : re)
| Alt (a b : re)
| Star (a : re).

Fixpoint nullable (r : re) : bool :=
  match r with
  | Void => false
  | Eps => true
  | Class _ => false
  | Cat a b => nullable a && nullable b
  | Alt a b => nullable a || nullable b
  | Star _ => true
  end.

(** The derivative of [r] by the byte [c]. *)
Fixpoint deriv (c : Z) (r : re) : re :=
  match r with
  | Void => Void
  | Eps => Void
  | Class p => if p c then Eps else Void
  | Cat a b =>
    if nullable a then Alt (Cat (deriv c a) b) (deriv c b)
    else Cat (deriv c a) b
  | Alt a b => Alt (deriv c a) (deriv c b)
  | Star a => Cat (deriv c a) (Star a)
  end.

(** [r] matches the whole of [s]. *)
Fixpoint matches (r : re) (s : list Z) : bool :=
  match s with
  | [] => nullable r
  | c :: t => matches (deriv c r) t
  end.

(** The words of [r], as a relation. *)
Inductive lang : re -> list Z -> Prop :=
| lang_eps : lang Eps []
| lang_class : forall (p : Z -> bool) c, p c = true -> lang (Class p) [c]
| lang_cat : forall a b u v, lang a u -> lang b v -> lang (Cat a b) (u ++ v)
| lang_alt_l : forall a b u, lang a u -> lang (Alt a b) u
| lang_alt_r : forall a b u, lang b u -> lang (Alt a b) u
| lang_star_nil : forall a, lang (Star a) []
| lang_star_cons : forall a u v,
    lang a u -> lang (Star a) v -> lang (Star a) (u ++ v).

(** [x+] and [x{2}] *)
Definition Plus (r : re) : re := Cat r (Star r).
Definition Twice (r : re) : re := Cat r r.

Definition any (c : Z) : bool := true.

(** The Perl classes, which are ASCII-only in Go: [\d] is [0-9], [\w] is
    [0-9A-Za-z_], [\s] is [\t\n\f\r ]. *)
Definition digit (c : Z) : bool := (48 <=? c) && (c <=? 57).

Definition word (c : Z) : bool :=
  digit c || ((65 <=? c) && (c <=? 90)) || ((97 <=? c) && (c <=? 122))
  || (c =? 95).

Definition space (c : Z) : bool :=
  (c =? 9) || (c =? 10) || (c =? 12) || (c =? 13) || (c =? 32).

Definition lit (a : ascii) (c : Z) : bool := c =? code a.

(** A pattern: a body, and whether [^] opens it and [$] closes it. Without
    the flag [m], [^] and [$] stand for the two ends of the text. *)
Record pattern : Type := {
  anchored_start : bool;
  body : re;
  anchored_end : bool
}.

(** [regexp.MatchString] and the method [MatchString] of a compiled
    pattern: some part of [s]
    matches the pattern. *)
Definition MatchString (p : pattern) (s : string) : bool :=
  matches
    (Cat (if anchored_start p then Eps else Star (Class any))
       (Cat (body p) (if anchored_end p then Eps else Star (Class any))))
    (bytes s).

End Regexp.

(* ===================================================================== *)
(** * time *)
(* ===================================================================== *)

Module GoTime.

Import Go.

Definition isDigit (s : list Z) (i : nat) : bool :=
  match nth_error s i with
  | Some c => (48 <=? c) && (c <=? 57)
  | None => false
  end.

(** [getnum]: one or two digits from the front of [s], exactly two when
    [fixed]; the number and the rest of [s]. *)
Definition getnum (s : list Z) (fixed : bool) : option (Z * list Z) :=
  if negb (isDigit s 0) then None
  else if negb (isDigit s 1) then
    if fixed then None
    else match s with
         | c :: t => Some (c - 48, t)
         | [] => None
         end
  else match s with
       | c0 :: c1 :: t => Some ((c0 - 48) * 10 + (c1 - 48), t)
       | _ => None
       end.

(** [skip(value, prefix)] for a prefix of one byte that is no space. *)
Definition skip (value : list Z) (prefix : Z) : option (list Z) :=
  match value with
  | c :: t => if c =? prefix then Some t else None
  | [] => None
  end.

Definition isLeap (year : Z) : bool :=
  (Z.rem year 4 =? 0) && (negb (Z.rem year 100 =? 0) || (Z.rem year 400 =? 0)).

Definition daysIn (month year : Z) : Z :=
  if month =? 2 then (if isLeap year then 29 else 28)
  else if (month =? 4) || (month =? 6) || (month =? 9) || (month =? 11) then 30
  else 31.

(** [stdLongYear]: four bytes, the first a digit, read by [atoi], which
    takes digits only once the first byte is no sign. *)
Definition getyear (s : list Z) : option (Z * list Z) :=
  match s with
  | c0 :: c1 :: c2 :: c3 :: t =>
    if forallb (fun c => (48 <=? c) && (c <=? 57)) [c0; c1; c2; c3]
    then Some ((c0 - 48) * 1000 + (c1 - 48) * 100 + (c2 - 48) * 10 + (c3 - 48), t)
    else None
  | _ => None
  end.

(** [time.Parse("2006-01-02", value)]: the chunks [stdLongYear], ["-"],
    [stdZeroMonth], ["-"], [stdZeroDay], then no more text; the month is in
    [1, 12] and the day exists in that month. It returns the year, the
    month and the day. *)
Definition ParseDate (value : string) : option (Z * Z * Z) :=
  match getyear (bytes value) with
  | None => None
  | Some (year, v1) =>
    match skip v1 45 with
    | None => None
    | Some v2 =>
      match getnum v2 true with
      | None => None
      | Some (month, v3) =>
        if (month <=? 0) || (12 <? month) then None
        else
          match skip v3 45 with
          | None => None
          | Some v4 =>
            match getnum v4 true with
            | None => None
            | Some (day, v5) =>
              match v5 with
              | _ :: _ => None
              | [] =>
                if (day <? 1) || (daysIn month year <? day) then None
                else Some (year, month, day)
              end
            end
          end
      end
    end
  end.

(** [time.Parse("15:04", value)]: the chunks [stdHour] (one or two
    digits), [":"], [stdZeroMinute] (two digits), then no more text; the
    hour is below 24 and the minute below 60. *)
Definition ParseClock (value : string) : option (Z * Z) :=
  match getnum (bytes value) false with
  | None => None
  | Some (hour, v1) =>
    if (hour <? 0) || (24 <=? hour) then None
    else
      match skip v1 58 with
      | None => None
      | Some v2 =>
        match getnum v2 true with
        | None => None
        | Some (min, v3) =>
          if (min <? 0) || (60 <=? min) then None
          else match v3 with
               | [] => Some (hour, min)
               | _ :: _ => None
               end
        end
      end
  end.

End GoTime.

(* ===================================================================== *)
(** * main.go *)
(* ===================================================================== *)

Module Main.

Import Go.
Export Go.

(** Item structure to be contained in receipts *)
Record Item : Type := {
  ShortDescription : string;
  Price : string
}.

(** Receipt structure *)
Record Receipt : Type := {
  ID : string;
  Retailer : string;
  PurchaseDate : string;
  PurchaseTime : string;
  Items : list Item;
  Total : string
}.

(** ** Helper functions to calculate receipt points *)

Section Points.

Variable P : Platform.

(** Returns number of alphanumeric characters *)
Definition GetAlphanumeric (str : string) : Z :=
  fold_left
    (fun total r =>
       if Unicode.IsLetter P r || Unicode.IsDigit P r
       then wrap64 (total + 1) else total)
    (Utf8.runes (bytes str)) 0.

(** The constants [100] and [.2] as [float64] values. *)
Definition f100 : Float64.float64 := Float64.of_Z 100.
Definition f0_2 : Float64.float64 := Float64.of_ratio false 2 10.

(** [int(math.Round(costFloat * 100))] *)
Definition cents (costFloat : Float64.float64) : Z :=
  Float64.to_int P (Float64.Round (Float64.mul costFloat f100)).

(** Returns points given for total cost *)
Definition GetTotalCostPoints (costStr : string) : Z :=
  let points := 0 in
  match Strconv.ParseFloat costStr with
  | Strconv.Ok costFloat =>
    let costInt := cents costFloat in
    (* 50 points if total is round dollar amount *)
    let points := if Z.rem costInt 100 =? 0 then wrap64 (points + 50) else points in
    (* 25 points if total is multiple of .25 *)
    let points := if Z.rem costInt 25 =? 0 then wrap64 (points + 25) else points in
    points
  | Strconv.Err _ => points
  end.

(** [int(math.Ceil(itemPriceFloat * .2))] *)
Definition price_share (itemPriceFloat : Float64.float64) : Z :=
  Float64.to_int P (Float64.Ceil (Float64.mul itemPriceFloat f0_2)).

(** The body of the loop of [GetItemPoints], on the pair
    [(numItems, points)]. *)
Definition item_step (st : Z * Z) (item : Item) : Z * Z :=
  let '(numItems, points) := st in
  (* Five points for every two items *)
  let numItems := wrap64 (numItems + 1) in
  let points := if Z.rem numItems 2 =? 0 then wrap64 (points + 5) else points in
  (* Trim item description and add points if multiple of 3 *)
  let desc := ShortDescription item in
  let trimmed := Strings.TrimSpace desc in
  let length := len trimmed in
  let points :=
    if Z.rem length 3 =? 0 then
      match Strconv.ParseFloat (Price item) with
      | Strconv.Ok itemPriceFloat => wrap64 (points + price_share itemPriceFloat)
      | Strconv.Err _ => points
      end
    else points in
  (numItems, points).

(** Returns points for the items *)
Definition GetItemPoints (receipt : Receipt) : Z :=
  snd (fold_left item_step (Items receipt) (0, 0)).

(** 6 points if bought on an odd day *)
Definition GetDatePoints (dateString : string) : outcome Z :=
  tail <- slice dateString (len dateString - 2) (len dateString) ;;
  match Strconv.Atoi tail with
  | Strconv.Ok day => Returns (if Z.rem day 2 =? 1 then 6 else 0)
  | Strconv.Err _ => Returns 0
  end.

(** 10 points if after 2 and before 4 *)
Definition GetTimePoints (timeString : string) : outcome Z :=
  head <- slice timeString 0 2 ;;
  match Strconv.Atoi head with
  | Strconv.Ok time => Returns (if (14 <=? time) && (time <? 16) then 10 else 0)
  | Strconv.Err _ => Returns 0
  end.

(** Calculates receipts points with given instructions *)
Definition GetReceiptPoints (receipt : Receipt) : outcome Z :=
  (* One point for every alphanumeric character in retailer name *)
  let points := GetAlphanumeric (Retailer receipt) in
  (* Points for total cost *)
  let points := wrap64 (points + GetTotalCostPoints (Total receipt)) in
  (* 5 points for every two items *)
  let points := wrap64 (points + GetItemPoints receipt) in
  (* 6 points if day in purchase date is odd *)
  d <- GetDatePoints (PurchaseDate receipt) ;;
  let points := wrap64 (points + d) in
  (* 10 points if purchase between 2-4pm *)
  t <- GetTimePoints (PurchaseTime receipt) ;;
  Returns (wrap64 (points + t)).

End Points.

(** ** Helper functions for creating and validating a receipt *)

(** ["^[\\w\\s\\-&]+$"] *)
Definition retailerPattern : Regexp.pattern :=
  {| Regexp.anchored_start := true;
     Regexp.body :=
       Regexp.Plus (Regexp.Class (fun c =>
         Regexp.word c || Regexp.space c || Regexp.lit "-" c || Regexp.lit "&" c));
     Regexp.anchored_end := true |}.

(** ["\\d+\\.\\d{2}$"] *)
Definition pricePattern : Regexp.pattern :=
  {| Regexp.anchored_start := false;
     Regexp.body :=
       Regexp.Cat (Regexp.Plus (Regexp.Class Regexp.digit))
         (Regexp.Cat (Regexp.Class (Regexp.lit "."))
            (Regexp.Twice (Regexp.Class Regexp.digit)));
     Regexp.anchored_end := true |}.

(** ["^[\\w\\s\\-]+$"] *)
Definition descPattern : Regexp.pattern :=
  {| Regexp.anchored_start := true;
     Regexp.body :=
       Regexp.Plus (Regexp.Class (fun c =>
         Regexp.word c || Regexp.space c || Regexp.lit "-" c));
     Regexp.anchored_end := true |}.

(** Checks validity of description *)
Definition CheckValidDescription (str : string) : bool :=
  Regexp.MatchString retailerPattern str.

(** Checks validity of price *)
Definition CheckPriceValidity (str : string) : bool :=
  Regexp.MatchString pricePattern str.

(** Checks validity of date and time formatting *)
Definition CheckValidTime (dateString timeString : string) : bool :=
  match GoTime.ParseDate dateString with
  | None => false
  | Some _ =>
    match GoTime.ParseClock timeString with
    | None => false
    | Some _ => true
    end
  end.

(** The loop of [CheckItemsValidity]: price, then description, of each
    item in turn. *)
Fixpoint check_items (items : list Item) : bool :=
  match items with
  | [] => true
  | item :: rest =>
    if negb (Regexp.MatchString pricePattern (Price item)) then false
    else if negb (Regexp.MatchString descPattern (ShortDescription item)) then false
    else check_items rest
  end.

(** Checks validity of items *)
Definition CheckItemsValidity (receipt : Receipt) : bool :=
  (* Must be at least one item *)
  if Z.of_nat (List.length (Items receipt)) <? 1 then false
  else check_items (Items receipt).

(** The four checks of [CreateReceipt], in its order. *)
Definition Validate (receipt : Receipt) : bool :=
  CheckValidDescription (Retailer receipt)
  && CheckValidTime (PurchaseDate receipt) (PurchaseTime receipt)
  && CheckItemsValidity receipt
  && CheckPriceValidity (Total receipt).

(** ** The handler [CreateReceipt] *)

(** The zero value of [Receipt]. *)
Definition zeroReceipt : Receipt :=
  {| ID := ""; Retailer := ""; PurchaseDate := ""; PurchaseTime := "";
     Items := []; Total := "" |}.

(** A request body, by what [json.Decoder.Decode] makes of it.
    - [Malformed]: no JSON value (a syntax error, or no text at all);
      [Decode] returns the error before it stores anything.
    - [Mistyped r]: a JSON value with a member whose type does not fit its
      field; [Decode] skips that member, stores the others, which gives
      [r], and returns an [UnmarshalTypeError].
    - [Decoded r]: [Decode] stores [r] and returns [nil]. *)
Inductive Body : Type :=
| Malformed
| Mistyped (r : Receipt)
| Decoded (r : Receipt).

(** [json.NewDecoder(r.Body).Decode(&receipt)], on the zero [receipt]:
    the receipt afterwards, and whether the error is not [nil]. *)
Definition Decode (b : Body) : Receipt * bool :=
  match b with
  | Malformed => (zeroReceipt, true)
  | Mistyped r => (r, true)
  | Decoded r => (r, false)
  end.

(** The state of the process: the slice [receipts], and the identifiers
    [uuid.New] has drawn and is still to draw. *)
Record World : Type := {
  receipts : list Receipt;
  uuids : nat -> string;
  drawn : nat
}.

(** Returns unique ID *)
Definition GenerateID (w : World) : string * World :=
  (uuids w (drawn w),
   {| receipts := receipts w; uuids := uuids w; drawn := S (drawn w) |}).

(** What the handler writes: the status and the body. *)
Inductive Response : Type :=
| StatusOK (id : string)               (* 200, [IDResponse{ID: id}] *)
| StatusBadRequest (message : string). (* 400, [http.Error] *)

Definition invalid : Response := StatusBadRequest "The receipt is invalid.".

(** Method to create a receipt with receipt json in the request; ensures
    valid receipt *)
Definition CreateReceipt (w : World) (b : Body) : Response * World :=
  let '(receipt, _) := Decode b in
  (* Description *)
  if negb (CheckValidDescription (Retailer receipt)) then (invalid, w)
  (* PurchaseDate and PurchaseTime *)
  else if negb (CheckValidTime (PurchaseDate receipt) (PurchaseTime receipt))
  then (invalid, w)
  (* Checks valid regex for both price and description *)
  else if negb (CheckItemsValidity receipt) then (invalid, w)
  (* Total cost *)
  else if negb (CheckPriceValidity (Total receipt)) then (invalid, w)
  else
    (* Generate a unique ID for each receipt *)
    let '(id, w1) := GenerateID w in
    let stored :=
      {| ID := id; Retailer := Retailer receipt;
         PurchaseDate := PurchaseDate receipt;
         PurchaseTime := PurchaseTime receipt;
         Items := Items receipt; Total := Total receipt |} in
    (StatusOK id,
     {| receipts := receipts w1 ++ [stored]; uuids := uuids w1; drawn := drawn w1 |}).

(** What [GetReceiptByID] writes. *)
Inductive PointsReply : Type :=
| PointsOK (points : Z)              (* 200, [PointsResponse{Points: points}] *)
| StatusNotFound (message : string). (* 404, [http.Error] *)

(** Method to find a receipt given an ID in request *)
Definition GetReceiptByID (P : Platform) (w : World) (id : string)
  : outcome PointsReply :=
  match find (fun receipt => String.eqb (ID receipt) id) (receipts w) with
  | Some receipt =>
    (* If found, calculate points and return JSON points object *)
    points <- GetReceiptPoints P receipt ;;
    Returns (PointsOK points)
  | None =>
    (* If receipt not found, return 404 error *)
    Returns (StatusNotFound "No receipt found for that ID.")
  end.

End Main.

(* ===================================================================== *)
(** * Notions used to state the properties *)
(* ===================================================================== *)

Module Notions.

Import Main Strconv.

(** ** The two rules of the loop of [GetItemPoints] *)

(** What the pair rule adds at the running count [n]. *)
Definition pair_points (n : Z) : Z := if Z.even n then 5 else 0.

Section DescriptionRule.

Variable P : Platform.

(** What the description rule adds for one item. *)
Definition desc_points (item : Item) : Z :=
  if Z.rem (len (Strings.TrimSpace (ShortDescription item))) 3 =? 0 then
    match Strconv.ParseFloat (Price item) with
    | Strconv.Ok f => price_share P f
    | Strconv.Err _ => 0
    end
  else 0.

Definition desc_total (items : list Item) : Z :=
  fold_right (fun item acc => desc_points item + acc) 0 items.

End DescriptionRule.

(** The sum of the pair rule over [k] further items. *)
Fixpoint pair_total (n : Z) (k : nat) : Z :=
  match k with
  | O => 0
  | S k' => pair_points (n + 1) + pair_total (n + 1) k'
  end.

(** ** Prices *)

(** The words of [\d+\.\d{2}]. *)
Definition price_word (w : list Z) : Prop :=
  exists ds d1 d2,
    w = ds ++ [Go.code "."; d1; d2] /\ ds <> []
    /\ forallb Regexp.digit ds = true
    /\ Regexp.digit d1 = true /\ Regexp.digit d2 = true.

(** The strings [d...d.dd] with one to thirteen digits before the point:
    the price format with nothing before the digits, for amounts below
    ten trillion. *)
Definition plain_price (s : string) : bool :=
  match rev (bytes s) with
  | d2 :: d1 :: dot :: ds =>
    is_digit d2 && is_digit d1 && (dot =? ch ".") && forallb is_digit ds
    && (1 <=? List.length ds)%nat && (List.length ds <=? 13)%nat
  | _ => false
  end.

(** What the loop does to its state on a decimal digit. *)
Definition digit_step (st : digits_state) (c : Z) : digits_state :=
  if (c =? ch "0") && (nd st =? 0) then
    {| sawdot := sawdot st; sawdigits := true; nd := nd st;
       dp := dp st - 1; mantissa := mantissa st;
       underscores := underscores st |}
  else
    {| sawdot := sawdot st; sawdigits := true; nd := nd st + 1;
       dp := dp st;
       mantissa := mantissa st * 10 + (c - ch "0");
       underscores := underscores st |}.

(** The digits read so far are the mantissa, and it is zero as long as
    no digit but zeros was read. *)
Definition wf_state (st : digits_state) : Prop :=
  0 <= mantissa st /\ 0 <= nd st /\ (nd st = 0 -> mantissa st = 0).

(** ** Dates, times and floats *)

(** A decimal digit. *)
Definition dig (c : Z) : bool := (48 <=? c) && (c <=? 57).

(** [x] is a zero or a finite number of sign [s], below [2^k] in
    magnitude. *)
Definition within (s : bool) (k : Z) (x : Float64.float64) : Prop :=
  match x with
  | S754_zero s' => s' = s
  | S754_finite s' m e => s' = s /\ Z.pos (digits2_pos m) + e <= k
  | _ => False
  end.

(** ** Receipts and states of the examples *)

Definition item (description price : string) : Item :=
  {| ShortDescription := description; Price := price |}.

(** A receipt with the given items and nothing else. *)
Definition with_items (items : list Item) : Receipt :=
  {| ID := ""; Retailer := ""; PurchaseDate := ""; PurchaseTime := "";
     Items := items; Total := "" |}.

(** The receipt of the end-to-end scenario. *)
Definition target_receipt : Receipt :=
  {| ID := "";
     Retailer := "Target";
     PurchaseDate := "2022-01-01";
     PurchaseTime := "13:01";
     Items := [ item "Mountain Dew 12PK" "6.49";
                item "Emils Cheese Pizza" "12.25";
                item "Knorr Creamy Chicken" "1.26";
                item "Doritos Nacho Cheese" "3.35";
                item "   Klarbrunn 12-PK 12 FL OZ  " "12.00" ];
     Total := "35.35" |}.

(** A state with no receipt, whose identifier source gives one fixed
    identifier. *)
Definition empty_world : World :=
  {| receipts := [];
     uuids := fun _ => "7fb1377b-b223-49d9-a31a-5a02701dd310"%string;
     drawn := 0 |}.

(** A receipt that passes the four checks with a price below zero: the
    price check lets the sign through. *)
Definition refund_receipt : Receipt :=
  {| ID := "";
     Retailer := "-";
     PurchaseDate := "2022-01-02";
     PurchaseTime := "13:01";
     Items := [ item "abc" "-500.00" ];
     Total := "1.01" |}.

(** A receipt of two items at thirty quintillion each: its prices are
    digits, a point and two digits and nothing else, it passes the four
    checks, and the sum of the two shares leaves the range of [int64]. *)
Definition bulk_receipt : Receipt :=
  {| ID := "";
     Retailer := "-";
     PurchaseDate := "2022-01-02";
     PurchaseTime := "13:01";
     Items := [ item "abc" "30000000000000000000.00";
                item "abc" "30000000000000000000.00" ];
     Total := "1.01" |}.

End Notions.

(* ===================================================================== *)
(** * Notions used to state the properties of the handlers and the rules *)
(* ===================================================================== *)

Module Requests.

Import Main Strconv.

(** The process as it starts: no receipt stored, no identifier drawn. *)
Definition start (ids : nat -> string) : World :=
  {| receipts := []; uuids := ids; drawn := 0 |}.

(** The bodies posted to [/receipts/process], one after the other: what
    [CreateReceipt] answers to each, and the state after the last. *)
Fixpoint serve (w : World) (bodies : list Body) : list Response * World :=
  match bodies with
  | [] => ([], w)
  | b :: rest =>
    let '(answer, w1) := CreateReceipt w b in
    let '(answers, w2) := serve w1 rest in
    (answer :: answers, w2)
  end.

(** What the store of a running process satisfies: every receipt in it
    passes the four checks, and the identifiers of its receipts are the
    identifiers drawn so far, in order. *)
Definition store_ok (w : World) : Prop :=
  Forall (fun r => Validate r = true) (receipts w)
  /\ map ID (receipts w) = map (uuids w) (seq 0 (drawn w)).

(** A receipt as [CreateReceipt] stores it: the decoded fields under the
    generated identifier. *)
Definition stamp (id : string) (r : Receipt) : Receipt :=
  {| ID := id; Retailer := Retailer r; PurchaseDate := PurchaseDate r;
     PurchaseTime := PurchaseTime r; Items := Items r; Total := Total r |}.

(** The receipts of the bodies that pass the four checks, in the order of
    the requests. *)
Definition accepted (bodies : list Body) : list Receipt :=
  filter Validate (map (fun b => fst (Decode b)) bodies).

(** Receipts under the identifiers drawn from the [n]-th on. *)
Fixpoint stamped (ids : nat -> string) (n : nat) (rs : list Receipt)
  : list Receipt :=
  match rs with
  | [] => []
  | r :: rest => stamp (ids n) r :: stamped ids (S n) rest
  end.

(** The identifiers in the answers with status 200. *)
Definition answered_ids (answers : list Response) : list string :=
  flat_map (fun a => match a with StatusOK id => [id] | _ => [] end) answers.

(** The bytes 0-9, A-Z and a-z. *)
Definition ascii_alnum (c : Z) : bool :=
  ((48 <=? c) && (c <=? 57)) || ((65 <=? c) && (c <=? 90))
  || ((97 <=? c) && (c <=? 122)).

(** The class of the retailer pattern, and the class of the description
    pattern. *)
Definition retailer_byte (c : Z) : bool :=
  Regexp.word c || Regexp.space c || Regexp.lit "-" c || Regexp.lit "&" c.

Definition description_byte (c : Z) : bool :=
  Regexp.word c || Regexp.space c || Regexp.lit "-" c.

(** The white space of [strings.TrimSpace] dropped from the front. *)
Fixpoint drop_spaces (l : list Z) : list Z :=
  match l with
  | [] => []
  | c :: t => if Strings.asciiSpace c then drop_spaces t else l
  end.

(** ** Dates and times as text *)

(** A date of the calendar of [time]: a year of four digits, a month, and
    a day that the month has in that year. *)
Definition calendar_date (y m d : Z) : Prop :=
  0 <= y <= 9999 /\ 1 <= m <= 12 /\ 1 <= d <= GoTime.daysIn m y.

Definition clock_time (h mi : Z) : Prop := 0 <= h <= 23 /\ 0 <= mi <= 59.

(** The decimal digits of a number below 100, and of one below 10000. *)
Definition two_digits (n : Z) : list Z := [48 + n / 10; 48 + n mod 10].

Definition four_digits (n : Z) : list Z :=
  [48 + n / 1000; 48 + (n / 100) mod 10; 48 + (n / 10) mod 10; 48 + n mod 10].

(** A date in the layout "2006-01-02"; a time in the layout "15:04" as
    [Format] writes it, and with the hour in one digit, which [Parse]
    takes as well. *)
Definition format_date (y m d : Z) : string :=
  Strings.of_bytes (four_digits y ++ [45] ++ two_digits m ++ [45] ++ two_digits d).

Definition format_clock (h mi : Z) : string :=
  Strings.of_bytes (two_digits h ++ [58] ++ two_digits mi).

Definition format_clock_short (h mi : Z) : string :=
  Strings.of_bytes ([48 + h; 58] ++ two_digits mi).

(** The bytes of a string that ends with one or more digits, a point and
    two digits. *)
Definition price_suffix (s : string) : Prop :=
  exists pre w, bytes s = pre ++ w /\ Notions.price_word w.

End Requests.

(* ===================================================================== *)
(** * Notions used to state the exactness of the float arithmetic *)
(* ===================================================================== *)

Module Money.

Import Main Strconv.

(** The ratio [A / B] lies between [m] and [m + 1] at the place the
    location [l] tells: on [m], below the middle, on it, or above it. *)
Definition located (m : Z) (l : location) (A B : Z) : Prop :=
  match l with
  | loc_Exact => A = m * B
  | loc_Inexact Lt => 2 * (m * B) < 2 * A < (2 * m + 1) * B
  | loc_Inexact Eq => 2 * A = (2 * m + 1) * B
  | loc_Inexact Gt => (2 * m + 1) * B < 2 * A < 2 * ((m + 1) * B)
  end.

(** The [float64] nearest to [n] hundredths, with a minus sign before it
    when [neg], as [ParseFloat] computes it from a numeral with two
    digits after the point. *)
Definition signed_hundredths (neg : bool) (n : Z) : Float64.float64 :=
  match n with
  | Zpos m => Float64.of_ratio neg m 100
  | _ => S754_zero neg
  end.

Definition hundredths (n : Z) : Float64.float64 := signed_hundredths false n.

(** A plain price with a sign before it, and whether the sign is a
    minus. *)
Definition signed_price (s : string) : bool :=
  match s with
  | String c t => ((code c =? 43) || (code c =? 45)) && Notions.plain_price t
  | EmptyString => false
  end.

Definition minus_sign (s : string) : bool :=
  match s with
  | String c _ => code c =? 45
  | EmptyString => false
  end.

(** The amount of a price in cents: its digits read as one number, the
    point left out. *)
Definition decimal_cents (s : string) : Z :=
  digits_value 0 (filter is_digit (bytes s)).

(** The two bonuses of the total rule on an amount in cents. *)
Definition total_bonus (c : Z) : Z :=
  (if c mod 100 =? 0 then 50 else 0) + (if c mod 25 =? 0 then 25 else 0).

(** A fifth of an amount in cents, in whole units, rounded up. *)
Definition fifth_up (c : Z) : Z := (c + 499) / 500.


(** What the description rule gives for an item with a plain price: a
    fifth of the price rounded up, when the trimmed description has a
    length that is a multiple of 3. *)
Definition share_of (it : Item) : Z :=
  if Z.rem (len (Strings.TrimSpace (ShortDescription it))) 3 =? 0
  then fifth_up (decimal_cents (Price it)) else 0.

(** The score of a receipt in whole numbers: the five rules on the text
    of the receipt, with the day of the month and the hour that
    [time.Parse] read. *)
Definition plain_score (r : Receipt) (day hour : Z) : Z :=
  Z.of_nat (List.length (filter Requests.ascii_alnum (bytes (Retailer r))))
  + total_bonus (decimal_cents (Total r))
  + 5 * (Z.of_nat (List.length (Items r)) / 2)
  + fold_right (fun it acc => share_of it + acc) 0 (Items r)
  + (if Z.odd day then 6 else 0)
  + (if (14 <=? hour) && (hour <? 16) then 10 else 0).

End Money.

(* ===================================================================== *)
(** * Properties *)
(* ===================================================================== *)

Module Facts.

Import Main.

(** ** 64-bit arithmetic *)

Lemma wrap64_small (z : Z) :
  min_int64 <= z <= max_int64 -> wrap64 z = z.
Proof.
  unfold min_int64, max_int64, wrap64. intros H.
  rewrite Z.mod_small; lia.
Qed.

Lemma wrap64_range (z : Z) : min_int64 <= wrap64 z <= max_int64.
Proof.
  unfold min_int64, max_int64, wrap64.
  pose proof (Z.mod_pos_bound (z + 2 ^ 63) (2 ^ 64)). lia.
Qed.

Lemma wrap64_idem (z : Z) : wrap64 (wrap64 z) = wrap64 z.
Proof. apply wrap64_small, wrap64_range. Qed.

Lemma wrap64_add_l (a b : Z) : wrap64 (wrap64 a + b) = wrap64 (a + b).
Proof.
  unfold wrap64. f_equal.
  replace ((a + 2 ^ 63) mod 2 ^ 64 - 2 ^ 63 + b + 2 ^ 63)
    with ((a + 2 ^ 63) mod 2 ^ 64 + b) by ring.
  rewrite Z.add_mod_idemp_l by lia. f_equal. ring.
Qed.

Lemma wrap64_add_r (a b : Z) : wrap64 (a + wrap64 b) = wrap64 (a + b).
Proof. rewrite Z.add_comm, wrap64_add_l. f_equal. ring. Qed.

Lemma wrap64_even (z : Z) : Z.even (wrap64 z) = Z.even z.
Proof.
  unfold wrap64. rewrite Z.mod_eq by lia.
  replace (z + 2 ^ 63 - 2 ^ 64 * ((z + 2 ^ 63) / 2 ^ 64) - 2 ^ 63)
    with (z - 2 * (2 ^ 63 * ((z + 2 ^ 63) / 2 ^ 64))) by ring.
  rewrite Z.even_sub, Z.even_mul. simpl.
  destruct (Z.even z); reflexivity.
Qed.

Lemma rem2_even (z : Z) : (Z.rem z 2 =? 0) = Z.even z.
Proof.
  destruct (Z.even z) eqn:E.
  - apply Z.eqb_eq. apply Z.even_spec in E. destruct E as [k ->].
    rewrite Z.mul_comm. apply Z.rem_mul. lia.
  - apply Z.eqb_neq. intros H.
    apply Z.rem_divide in H; [|lia]. destruct H as [k Hk].
    rewrite Hk, Z.even_mul in E. simpl in E.
    rewrite orb_true_r in E. discriminate.
Qed.

(** ** Strings and bytes *)

Lemma bytes_app (a b : string) :
  bytes (a ++ b)%string = bytes a ++ bytes b.
Proof.
  unfold bytes. induction a as [|c a IH]; simpl.
  - reflexivity.
  - f_equal. exact IH.
Qed.

Lemma bytes_length (s : string) : List.length (bytes s) = String.length s.
Proof.
  unfold bytes. rewrite length_map.
  induction s as [|c s IH]; simpl; congruence.
Qed.

End Facts.

(** ** The matcher against the words of an expression *)

Module RegexpFacts.

Import Go Regexp.

Lemma nullable_lang (r : re) : nullable r = true <-> lang r [].
Proof.
  induction r as [| |p|a IHa b IHb|a IHa b IHb|a IHa]; simpl.
  - split; [discriminate | intros H; inversion H].
  - split; [intros _; constructor | reflexivity].
  - split; [discriminate | intros H; inversion H].
  - rewrite andb_true_iff, IHa, IHb. split.
    + intros [Ha Hb]. change (@nil Z) with (@nil Z ++ []). now constructor.
    + intros H. inversion H as [| |a' b' u v Hu Hv Huv| | | |]; subst.
      destruct u; [|discriminate]. destruct v; [|discriminate]. now split.
  - rewrite orb_true_iff, IHa, IHb. split.
    + intros [H|H]; [now apply lang_alt_l | now apply lang_alt_r].
    + intros H. inversion H; subst; [now left | now right].
  - split; [intros _; constructor | reflexivity].
Qed.

(** A word of [r] that starts with [c] leaves a word of the derivative. *)
Lemma lang_deriv (r : re) (w : list Z) :
  lang r w -> forall c s, w = c :: s -> lang (deriv c r) s.
Proof.
  induction 1 as [|p c0 Hp|a b u v Hu IHu Hv IHv|a b u Hu IHu|a b u Hu IHu
                  |a|a u v Hu IHu Hv IHv]; intros c s E; simpl.
  - discriminate.
  - injection E as -> <-. rewrite Hp. constructor.
  - destruct u as [|c' u'].
    + simpl in E. subst v.
      apply nullable_lang in Hu. rewrite Hu.
      apply lang_alt_r. now apply IHv.
    + simpl in E. injection E as -> <-.
      destruct (nullable a).
      * apply lang_alt_l. constructor; [now apply IHu | exact Hv].
      * constructor; [now apply IHu | exact Hv].
  - apply lang_alt_l. now apply IHu.
  - apply lang_alt_r. now apply IHu.
  - discriminate.
  - destruct u as [|c' u'].
    + simpl in E. now apply IHv.
    + simpl in E. injection E as -> <-.
      constructor; [now apply IHu | exact Hv].
Qed.

(** A word of the derivative, with [c] in front, is a word of [r]. *)
Lemma deriv_lang (r : re) : forall c s, lang (deriv c r) s -> lang r (c :: s).
Proof.
  induction r as [| |p|a IHa b IHb|a IHa b IHb|a IHa]; simpl; intros c s H.
  - inversion H.
  - inversion H.
  - destruct (p c) eqn:Hp; inversion H; subst. now constructor.
  - assert (Hcat : forall t, lang (Cat (deriv c a) b) t -> lang (Cat a b) (c :: t)).
    { intros t Ht. inversion Ht as [| |a' b' u v Hu Hv Huv| | | |]; subst.
      change (c :: u ++ v) with ((c :: u) ++ v). constructor; auto. }
    destruct (nullable a) eqn:Na.
    + inversion H; subst.
      * now apply Hcat.
      * change (c :: s) with ([] ++ c :: s). constructor.
        -- now apply nullable_lang.
        -- now apply IHb.
    + now apply Hcat.
  - inversion H; subst; [apply lang_alt_l | apply lang_alt_r]; auto.
  - inversion H as [| |a' b' u v Hu Hv Huv| | | |]; subst.
    change (c :: u ++ v) with ((c :: u) ++ v). constructor; auto.
Qed.

(** The matcher decides membership. *)
Lemma matches_lang (s : list Z) : forall r, matches r s = true <-> lang r s.
Proof.
  induction s as [|c s IH]; intros r; simpl.
  - apply nullable_lang.
  - rewrite IH. split.
    + apply deriv_lang.
    + intros H. now apply (lang_deriv _ _ H).
Qed.

Lemma lang_star_any (s : list Z) : lang (Star (Class any)) s.
Proof.
  induction s as [|c s IH].
  - constructor.
  - change (c :: s) with ([c] ++ s). constructor; [now constructor | exact IH].
Qed.

Lemma lang_plus_class (p : Z -> bool) (s : list Z) :
  s <> [] -> forallb p s = true -> lang (Plus (Class p)) s.
Proof.
  intros Hne Hall. destruct s as [|c s]; [congruence|].
  simpl in Hall. apply andb_true_iff in Hall as [Hc Hs].
  change (c :: s) with ([c] ++ s). constructor; [now constructor|].
  clear Hne Hc. induction s as [|d s IH].
  - constructor.
  - simpl in Hs. apply andb_true_iff in Hs as [Hd Hs].
    change (d :: s) with ([d] ++ s). constructor; [now constructor | auto].
Qed.

Lemma lang_star_class_inv (p : Z -> bool) (w : list Z) :
  lang (Star (Class p)) w -> forallb p w = true.
Proof.
  remember (Star (Class p)) as r eqn:E. intros H.
  induction H as [| | | | | a | a u v Hu _ Hv IHv]; try discriminate.
  - reflexivity.
  - injection E as ->. inversion Hu as [|q c Hc| | | | |]; subst. simpl.
    rewrite IHv by reflexivity. now rewrite Hc.
Qed.

Lemma lang_plus_class_inv (p : Z -> bool) (w : list Z) :
  lang (Plus (Class p)) w -> w <> [] /\ forallb p w = true.
Proof.
  intros H. inversion H as [| |a b u v Hu Hv Huv| | | |]; subst.
  inversion Hu as [|q c Hc| | | | |]; subst.
  apply lang_star_class_inv in Hv. simpl.
  split; [discriminate|]. now rewrite Hc, Hv.
Qed.

End RegexpFacts.

(** ** The three patterns of [main.go] *)

Module PatternFacts.

Import Main Notions Regexp RegexpFacts.

(** A pattern [^[...]+$] accepts the non-empty strings of its class. *)
Lemma anchored_plus_class (p : Z -> bool) (s : string) :
  MatchString {| anchored_start := true; body := Plus (Class p);
                 anchored_end := true |} s = true
  <-> bytes s <> [] /\ forallb p (bytes s) = true.
Proof.
  unfold MatchString. simpl anchored_start. simpl anchored_end. simpl body.
  rewrite matches_lang. split.
  - intros H.
    inversion H as [| |a b u v Hu Hv Huv| | | |]; subst.
    inversion Hu; subst.
    inversion Hv as [| |a b u' v' Hu' Hv' Huv'| | | |]; subst.
    inversion Hv'; subst. simpl. rewrite app_nil_r.
    now apply lang_plus_class_inv.
  - intros [Hne Hall].
    change (bytes s) with ([] ++ bytes s). constructor; [constructor|].
    rewrite <- (app_nil_r (bytes s)). constructor; [|constructor].
    now apply lang_plus_class.
Qed.

Lemma price_body_lang (w : list Z) :
  lang (body pricePattern) w <-> price_word w.
Proof.
  unfold pricePattern, price_word. simpl body. split.
  - intros H.
    inversion H as [| |a b u v Hu Hv Huv| | | |]; subst.
    apply lang_plus_class_inv in Hu as [Hne Hds].
    inversion Hv as [| |a b u1 v1 Hu1 Hv1 Huv1| | | |]; subst.
    inversion Hu1 as [|q c Hc| | | | |]; subst.
    inversion Hv1 as [| |a b u2 v2 Hu2 Hv2 Huv2| | | |]; subst.
    inversion Hu2 as [|q1 c1 Hc1| | | | |]; subst.
    inversion Hv2 as [|q2 c2 Hc2| | | | |]; subst.
    unfold lit in Hc. apply Z.eqb_eq in Hc. subst c.
    exists u, c1, c2. simpl. auto.
  - intros (ds & d1 & d2 & -> & Hne & Hds & H1 & H2).
    constructor; [now apply lang_plus_class|].
    change [Go.code "."; d1; d2] with ([Go.code "."] ++ [d1] ++ [d2]).
    constructor.
    + constructor. unfold lit. apply Z.eqb_refl.
    + constructor; now constructor.
Qed.

(** The price pattern has [$] and no [^]: it accepts the strings that end
    with a word of [\d+\.\d{2}], whatever stands before. *)
Lemma price_pattern_accepts (s : string) :
  MatchString pricePattern s = true
  <-> exists pre w, bytes s = pre ++ w /\ price_word w.
Proof.
  unfold MatchString.
  change (anchored_start pricePattern) with false.
  change (anchored_end pricePattern) with true.
  cbv iota. rewrite matches_lang. split.
  - intros H.
    inversion H as [| |a b u v Hu Hv Huv| | | |]; subst.
    inversion Hv as [| |a b u1 v1 Hu1 Hv1 Huv1| | | |]; subst.
    inversion Hv1; subst. rewrite app_nil_r in *.
    exists u, u1. split; [auto|]. now apply price_body_lang.
  - intros (pre & w & -> & Hw).
    constructor; [apply lang_star_any|].
    rewrite <- (app_nil_r w). constructor; [|constructor].
    now apply price_body_lang.
Qed.

End PatternFacts.

(** ** The loop of [GetItemPoints], rule by rule *)

Module ItemFacts.

Import Main Notions Facts.

Section Items.

Variable P : Platform.

(** One turn of the loop adds the two rules to [points]. *)
Lemma item_step_points (numItems points : Z) (item : Item) :
  wrap64 points = points ->
  item_step P (numItems, points) item
  = (wrap64 (numItems + 1),
     wrap64 (points + pair_points (numItems + 1) + desc_points P item)).
Proof.
  intros Hp. unfold item_step, pair_points, desc_points.
  rewrite rem2_even, wrap64_even. f_equal.
  destruct (Z.even (numItems + 1));
    destruct (Z.rem (len (Strings.TrimSpace (ShortDescription item))) 3 =? 0);
    try destruct (Strconv.ParseFloat (Price item));
    rewrite ?wrap64_add_l, ?Z.add_0_r; auto;
    try (f_equal; ring).
Qed.

Lemma pair_total_parity (k : nat) :
  forall n m, Z.even n = Z.even m -> pair_total n k = pair_total m k.
Proof.
  induction k as [|k IH]; intros n m E; simpl.
  - reflexivity.
  - assert (E1 : Z.even (n + 1) = Z.even (m + 1)).
    { rewrite !Z.even_add, E. reflexivity. }
    unfold pair_points. rewrite E1. f_equal. now apply IH.
Qed.

Lemma fold_item_step (items : list Item) :
  forall numItems points,
    wrap64 points = points ->
    snd (fold_left (item_step P) items (numItems, points))
    = wrap64 (points + pair_total numItems (List.length items)
              + desc_total P items).
Proof.
  induction items as [|item rest IH]; intros n pts Hp; cbn [fold_left].
  - simpl. rewrite !Z.add_0_r. symmetry. exact Hp.
  - rewrite item_step_points by exact Hp.
    rewrite IH by apply wrap64_idem.
    rewrite <- Z.add_assoc, wrap64_add_l.
    cbn [List.length pair_total desc_total fold_right].
    rewrite (pair_total_parity (List.length rest) (wrap64 (n + 1)) (n + 1))
      by apply wrap64_even.
    f_equal. fold (desc_total P rest). ring.
Qed.

(** Every second item earns 5 points. *)
Lemma pair_total_count (k : nat) :
  forall n, 0 <= n ->
    pair_total n k = 5 * ((n + Z.of_nat k) / 2 - n / 2).
Proof.
  induction k as [|k IH]; intros n Hn.
  - cbn [pair_total Z.of_nat]. rewrite Z.add_0_r. lia.
  - cbn [pair_total]. rewrite IH by lia.
    replace (n + 1 + Z.of_nat k) with (n + Z.of_nat (S k)) by lia.
    unfold pair_points.
    destruct (Z.even (n + 1)) eqn:E.
    + apply Z.even_spec in E. destruct E as [j Hj].
      Z.to_euclidean_division_equations. lia.
    + assert (O : Z.odd (n + 1) = true).
      { rewrite <- Z.negb_even, E. reflexivity. }
      apply Z.odd_spec in O. destruct O as [j Hj].
      Z.to_euclidean_division_equations. lia.
Qed.

(** [GetItemPoints] is the sum of its two rules. *)
Lemma GetItemPoints_sum (receipt : Receipt) :
  GetItemPoints P receipt
  = wrap64 (5 * (Z.of_nat (List.length (Items receipt)) / 2)
            + desc_total P (Items receipt)).
Proof.
  unfold GetItemPoints. rewrite fold_item_step by reflexivity.
  rewrite pair_total_count by lia.
  rewrite !Z.add_0_l. change (0 / 2) with 0. rewrite Z.sub_0_r. reflexivity.
Qed.

End Items.

End ItemFacts.

(** ** Dates and times that [time.Parse] accepts *)

Module TimeFacts.

Import Main Notions Facts GoTime.

(** A date that parses is ten bytes, [dddd-dd-dd]. *)
Lemma ParseDate_shape (s : string) (y m d : Z) :
  ParseDate s = Some (y, m, d) ->
  exists c0 c1 c2 c3 m1 m2 d1 d2,
    bytes s = [c0; c1; c2; c3; 45; m1; m2; 45; d1; d2]
    /\ dig d1 = true /\ dig d2 = true
    /\ d = (d1 - 48) * 10 + (d2 - 48).
Proof.
  unfold ParseDate, getyear, skip, getnum, isDigit.
  destruct (bytes s) as [|c0 [|c1 [|c2 [|c3 v1]]]]; try discriminate.
  destruct (forallb _ _); [|discriminate].
  destruct v1 as [|c4 v2]; [discriminate|].
  destruct (c4 =? 45) eqn:E4; [|discriminate]. apply Z.eqb_eq in E4. subst c4.
  destruct v2 as [|m1 [|m2 v3]]; cbn [nth_error];
    try discriminate;
    try (destruct (negb _); discriminate).
  destruct ((48 <=? m1) && (m1 <=? 57)); [|discriminate].
  destruct ((48 <=? m2) && (m2 <=? 57)); [|discriminate].
  cbn [negb].
  destruct (((m1 - 48) * 10 + (m2 - 48) <=? 0) || (12 <? (m1 - 48) * 10 + (m2 - 48)));
    [discriminate|].
  destruct v3 as [|c7 v4]; [discriminate|].
  destruct (c7 =? 45) eqn:E7; [|discriminate]. apply Z.eqb_eq in E7. subst c7.
  destruct v4 as [|d1 [|d2 v5]]; cbn [nth_error];
    try discriminate;
    try (destruct (negb _); discriminate).
  destruct ((48 <=? d1) && (d1 <=? 57)) eqn:D1; [|discriminate].
  destruct ((48 <=? d2) && (d2 <=? 57)) eqn:D2; [|discriminate].
  cbn [negb].
  destruct v5; [|discriminate].
  destruct (_ || _); [discriminate|].
  intros H. injection H as <- <- <-.
  exists c0, c1, c2, c3, m1, m2, d1, d2. unfold dig. auto.
Qed.

(** A time that parses is [d:dd] or [dd:dd]. *)
Lemma ParseClock_shape (s : string) (h mi : Z) :
  ParseClock s = Some (h, mi) ->
  exists h1 m1 m2,
    dig h1 = true /\
    ((bytes s = [h1; 58; m1; m2] /\ h = h1 - 48)
     \/ exists h2, dig h2 = true /\ bytes s = [h1; h2; 58; m1; m2]
                   /\ h = (h1 - 48) * 10 + (h2 - 48)).
Proof.
  unfold ParseClock, skip, getnum, isDigit.
  destruct (bytes s) as [|h1 v0]; [discriminate|]. cbn [nth_error].
  destruct ((48 <=? h1) && (h1 <=? 57)) eqn:H1; [|discriminate]. cbn [negb].
  destruct v0 as [|h2 v1]; cbn [nth_error negb].
  - destruct (_ || _); discriminate.
  - destruct ((48 <=? h2) && (h2 <=? 57)) eqn:H2; cbn [negb].
    + destruct (_ || _); [discriminate|].
      destruct v1 as [|c v2]; [discriminate|].
      destruct (c =? 58) eqn:E; [|discriminate]. apply Z.eqb_eq in E. subst c.
      destruct v2 as [|m1 [|m2 v3]]; cbn [nth_error];
        try discriminate;
    try (destruct (negb _); discriminate).
      destruct ((48 <=? m1) && (m1 <=? 57)); [|discriminate].
      destruct ((48 <=? m2) && (m2 <=? 57)); [|discriminate].
      cbn [negb]. destruct (_ || _); [discriminate|].
      destruct v3; [|discriminate].
      intros H. injection H as <- <-.
      exists h1, m1, m2. split; [exact H1|]. right. exists h2. auto.
    + destruct (_ || _); [discriminate|].
      destruct (h2 =? 58) eqn:E; [|discriminate]. apply Z.eqb_eq in E. subst h2.
      destruct v1 as [|m1 [|m2 v3]]; cbn [nth_error];
        try discriminate;
    try (destruct (negb _); discriminate).
      destruct ((48 <=? m1) && (m1 <=? 57)); [|discriminate].
      destruct ((48 <=? m2) && (m2 <=? 57)); [|discriminate].
      cbn [negb]. destruct (_ || _); [discriminate|].
      destruct v3; [|discriminate].
      intros H. injection H as <- <-.
      exists h1, m1, m2. split; [exact H1|]. left. auto.
Qed.

Lemma bytes_substring (s : string) :
  forall n m, bytes (substring n m s) = firstn m (skipn n (bytes s)).
Proof.
  unfold bytes. induction s as [|c s IH]; intros n m.
  - destruct n, m; reflexivity.
  - destruct n as [|n].
    + destruct m as [|m]; [reflexivity|].
      simpl. f_equal. apply (IH 0%nat m).
    + simpl. apply IH.
Qed.

Lemma len_bytes (s : string) : len s = Z.of_nat (List.length (bytes s)).
Proof. unfold len. now rewrite bytes_length. Qed.

Lemma slice_in_range (s : string) (lo hi : Z) :
  0 <= lo <= hi -> hi <= len s ->
  slice s lo hi = Returns (substring (Z.to_nat lo) (Z.to_nat (hi - lo)) s).
Proof.
  intros [H1 H2] H3. unfold slice.
  apply Z.leb_le in H1, H2, H3. now rewrite H1, H2, H3.
Qed.

Lemma dig_range (c : Z) : dig c = true -> 48 <= c <= 57.
Proof. unfold dig. rewrite andb_true_iff, !Z.leb_le. auto. Qed.

(** [Atoi] on two digits. *)
Lemma Atoi_two_digits (t : string) (a b : Z) :
  bytes t = [a; b] -> dig a = true -> dig b = true ->
  Strconv.Atoi t = Strconv.Ok ((a - 48) * 10 + (b - 48)).
Proof.
  intros Ht Ha Hb. unfold Strconv.Atoi. rewrite Ht.
  pose proof (dig_range _ Ha) as Ra. pose proof (dig_range _ Hb) as Rb.
  change (Strconv.ch "-") with 45. change (Strconv.ch "+") with 43.
  destruct (a =? 45) eqn:E1; [apply Z.eqb_eq in E1; lia|].
  destruct (a =? 43) eqn:E2; [apply Z.eqb_eq in E2; lia|].
  cbn [forallb]. unfold Strconv.is_digit.
  change (Strconv.ch "0") with 48. change (Strconv.ch "9") with 57.
  fold (dig a). fold (dig b). rewrite Ha, Hb. cbn [andb Strconv.digits_value].
  change (Strconv.ch "0") with 48.
  replace (in_int64 _) with true.
  - reflexivity.
  - symmetry. unfold in_int64, min_int64, max_int64.
    apply andb_true_iff. rewrite !Z.leb_le. lia.
Qed.

(** [Atoi] on a digit and a colon. *)
Lemma Atoi_digit_colon (t : string) (a : Z) :
  bytes t = [a; 58] -> dig a = true ->
  Strconv.Atoi t = Strconv.Err Strconv.ErrSyntax.
Proof.
  intros Ht Ha. unfold Strconv.Atoi. rewrite Ht.
  pose proof (dig_range _ Ha) as Ra.
  change (Strconv.ch "-") with 45. change (Strconv.ch "+") with 43.
  destruct (a =? 45) eqn:E1; [apply Z.eqb_eq in E1; lia|].
  destruct (a =? 43) eqn:E2; [apply Z.eqb_eq in E2; lia|].
  cbn [forallb]. unfold Strconv.is_digit at 1.
  change (Strconv.ch "0") with 48. change (Strconv.ch "9") with 57.
  fold (dig a). rewrite Ha. reflexivity.
Qed.

(** On a date that parses, the slice is in range and the last two bytes
    are the day of the month. *)
Lemma GetDatePoints_parsed (s : string) (y m d : Z) :
  ParseDate s = Some (y, m, d) ->
  GetDatePoints s = Returns (if Z.rem d 2 =? 1 then 6 else 0).
Proof.
  intros H. apply ParseDate_shape in H.
  destruct H as (c0 & c1 & c2 & c3 & m1 & m2 & d1 & d2 & Hb & D1 & D2 & ->).
  assert (L : len s = 10) by (rewrite len_bytes, Hb; reflexivity).
  unfold GetDatePoints. rewrite L, slice_in_range by lia. cbn [bind].
  rewrite (Atoi_two_digits _ d1 d2); auto.
  rewrite bytes_substring, Hb. reflexivity.
Qed.

(** On a time that parses, the slice is in range; the first two bytes are
    the hour, or one digit of it and the colon, and then the hour is
    below 10. *)
Lemma GetTimePoints_parsed (s : string) (h mi : Z) :
  ParseClock s = Some (h, mi) ->
  GetTimePoints s = Returns (if (14 <=? h) && (h <? 16) then 10 else 0).
Proof.
  intros H. apply ParseClock_shape in H.
  destruct H as (h1 & m1 & m2 & H1 & [[Hb ->] | (h2 & H2 & Hb & ->)]).
  - assert (L : len s = 4) by (rewrite len_bytes, Hb; reflexivity).
    unfold GetTimePoints. rewrite slice_in_range by lia. cbn [bind].
    rewrite (Atoi_digit_colon _ h1); auto.
    + apply dig_range in H1.
      replace (14 <=? h1 - 48) with false by (symmetry; apply Z.leb_gt; lia).
      reflexivity.
    + rewrite bytes_substring, Hb. reflexivity.
  - assert (L : len s = 5) by (rewrite len_bytes, Hb; reflexivity).
    unfold GetTimePoints. rewrite slice_in_range by lia. cbn [bind].
    rewrite (Atoi_two_digits _ h1 h2); auto.
    rewrite bytes_substring, Hb. reflexivity.
Qed.

End TimeFacts.

(* ===================================================================== *)
(** * Bounds on float64 results *)
(* ===================================================================== *)


Module FloatFacts.

Import Go Float64 Notions.

(** ** The number of binary digits *)

Lemma digits2_pos_size (p : positive) : digits2_pos p = Pos.size p.
Proof. induction p; simpl; congruence. Qed.

Lemma Zdigits2_nonneg (m : Z) : 0 <= Zdigits2 m.
Proof. destruct m; simpl; lia. Qed.

Lemma Zdigits2_upper (m : Z) : 0 <= m -> m < 2 ^ Zdigits2 m.
Proof.
  destruct m as [|p|p]; intros H; [reflexivity| |lia].
  cbn [Zdigits2]. rewrite digits2_pos_size.
  pose proof (Pos.size_gt p) as G.
  apply Pos2Z.pos_lt_pos in G. now rewrite Pos2Z.inj_pow in G.
Qed.

Lemma Zdigits2_lower (m : Z) : 0 < m -> 2 ^ (Zdigits2 m - 1) <= m.
Proof.
  destruct m as [|p|p]; intros H; try lia.
  cbn [Zdigits2]. rewrite digits2_pos_size.
  pose proof (Pos.size_le p) as G.
  apply Pos2Z.pos_le_pos in G. rewrite Pos2Z.inj_pow in G.
  change (Z.pos p~0) with (2 * Z.pos p) in G.
  replace (Z.pos (Pos.size p)) with (Z.succ (Z.pos (Pos.size p) - 1)) in G by lia.
  rewrite Z.pow_succ_r in G by lia. lia.
Qed.

(** [m] has at most [k] digits when it is below [2^k]. *)
Lemma Zdigits2_le (m k : Z) : 0 <= m -> 0 <= k -> m < 2 ^ k -> Zdigits2 m <= k.
Proof.
  intros Hm Hk H.
  destruct (Z.eq_dec m 0) as [->|Hne]; [simpl; lia|].
  pose proof (Zdigits2_lower m ltac:(lia)) as L.
  destruct (Z_le_gt_dec (Zdigits2 m) k) as [|G]; [assumption|exfalso].
  assert (2 ^ k <= 2 ^ (Zdigits2 m - 1)) by (apply Z.pow_le_mono_r; lia).
  lia.
Qed.

Lemma Zdigits2_lt_pow (m k : Z) : 0 <= m -> Zdigits2 m <= k -> m < 2 ^ k.
Proof.
  intros Hm H. pose proof (Zdigits2_upper m Hm) as U.
  pose proof (Zdigits2_nonneg m).
  assert (2 ^ Zdigits2 m <= 2 ^ k) by (apply Z.pow_le_mono_r; lia).
  lia.
Qed.

Lemma Zdigits2_mono (a b : Z) : 0 <= a <= b -> Zdigits2 a <= Zdigits2 b.
Proof.
  intros [Ha Hab]. apply Zdigits2_le; [lia|apply Zdigits2_nonneg|].
  pose proof (Zdigits2_upper b ltac:(lia)). lia.
Qed.

Lemma Zdigits2_mul (a b : Z) :
  0 <= a -> 0 <= b -> Zdigits2 (a * b) <= Zdigits2 a + Zdigits2 b.
Proof.
  intros Ha Hb.
  pose proof (Zdigits2_nonneg a). pose proof (Zdigits2_nonneg b).
  apply Zdigits2_le; [nia|lia|].
  rewrite Z.pow_add_r by lia.
  pose proof (Zdigits2_upper a Ha). pose proof (Zdigits2_upper b Hb). nia.
Qed.

Lemma Zdigits2_shiftl (m s : Z) :
  0 <= m -> 0 <= s -> Zdigits2 (Z.shiftl m s) <= Zdigits2 m + s.
Proof.
  intros Hm Hs. pose proof (Zdigits2_nonneg m).
  rewrite Z.shiftl_mul_pow2 by lia.
  apply Zdigits2_le; [|lia|].
  - apply Z.mul_nonneg_nonneg; [lia|]. apply Z.pow_nonneg. lia.
  - rewrite Z.pow_add_r by lia.
    pose proof (Zdigits2_upper m Hm).
    apply Z.mul_lt_mono_pos_r; [|assumption]. apply Z.pow_pos_nonneg; lia.
Qed.

Lemma Zdigits2_shiftr (m n k : Z) :
  0 <= m -> 0 <= n -> Zdigits2 m <= k + n -> 0 <= k ->
  Zdigits2 (Z.shiftr m n) <= k.
Proof.
  intros Hm Hn H Hk.
  rewrite Z.shiftr_div_pow2 by lia.
  assert (P2 : 0 < 2 ^ n) by (apply Z.pow_pos_nonneg; lia).
  apply Zdigits2_le; [apply Z.div_pos; lia|lia|].
  apply Z.div_lt_upper_bound; [lia|].
  rewrite <- Z.pow_add_r by lia. apply Zdigits2_lt_pow; [lia|]. lia.
Qed.

(** ** Shifting right *)

Lemma shr_1_m (mrs : shr_record) :
  0 <= shr_m mrs -> shr_m (shr_1 mrs) = Z.shiftr (shr_m mrs) 1.
Proof.
  rewrite <- Z.div2_spec.
  destruct mrs as [m r s]. cbn [shr_m]. intros H.
  destruct m as [|[p|p|]|p]; try reflexivity; lia.
Qed.

Lemma iter_shr_1_m (p : positive) :
  forall mrs,
    0 <= shr_m mrs ->
    shr_m (iter_pos shr_1 p mrs) = Z.shiftr (shr_m mrs) (Z.pos p).
Proof.
  induction p as [p IH|p IH|]; intros mrs H; cbn [iter_pos].
  - assert (H1 : 0 <= shr_m (shr_1 mrs)).
    { rewrite shr_1_m by assumption. now apply Z.shiftr_nonneg. }
    assert (H2 : 0 <= shr_m (iter_pos shr_1 p (shr_1 mrs))).
    { rewrite IH by assumption. now apply Z.shiftr_nonneg. }
    rewrite IH, IH, shr_1_m by assumption.
    rewrite !Z.shiftr_shiftr by lia. f_equal. lia.
  - assert (H2 : 0 <= shr_m (iter_pos shr_1 p mrs)).
    { rewrite IH by assumption. now apply Z.shiftr_nonneg. }
    rewrite IH, IH by assumption.
    rewrite Z.shiftr_shiftr by lia. f_equal. lia.
  - now apply shr_1_m.
Qed.

Lemma shr_spec (mrs : shr_record) (e n : Z) :
  0 <= shr_m mrs ->
  shr_m (fst (shr mrs e n)) = Z.shiftr (shr_m mrs) (Z.max 0 n)
  /\ snd (shr mrs e n) = e + Z.max 0 n.
Proof.
  intros H. destruct n as [|p|p]; cbn [shr fst snd].
  - split; [now rewrite Z.shiftr_0_r | simpl; lia].
  - rewrite iter_shr_1_m by assumption.
    replace (Z.max 0 (Z.pos p)) with (Z.pos p) by lia. now split.
  - replace (Z.max 0 (Z.neg p)) with 0 by lia.
    split; [now rewrite Z.shiftr_0_r | lia].
Qed.

Lemma shr_record_of_loc_m (m : Z) (l : location) :
  shr_m (shr_record_of_loc m l) = m.
Proof. destruct l as [|[| |]]; reflexivity. Qed.

(** [shr_fexp] shifts [m] right until it has at most [prec] digits, and
    no less than down to the least exponent. *)
Lemma shr_fexp_spec (m e : Z) (l : location) :
  0 <= m ->
  let n := Z.max 0 (fexp prec emax (Zdigits2 m + e) - e) in
  shr_m (fst (shr_fexp prec emax m e l)) = Z.shiftr m n
  /\ snd (shr_fexp prec emax m e l) = e + n.
Proof.
  intros H n. unfold shr_fexp.
  pose proof (shr_spec (shr_record_of_loc m l) e
                (fexp prec emax (Zdigits2 m + e) - e)) as S.
  rewrite shr_record_of_loc_m in S. now apply S.
Qed.

Lemma round_nearest_even_range (m : Z) (l : location) :
  m <= round_nearest_even m l <= m + 1.
Proof.
  unfold round_nearest_even.
  destruct l as [|[| |]]; try destruct (Z.even m); lia.
Qed.

(** ** Rounding keeps the sign and, roughly, the magnitude *)

Lemma within_weaken (s : bool) (k k' : Z) (x : float64) :
  k <= k' -> within s k x -> within s k' x.
Proof. destruct x; simpl; intuition lia. Qed.

Lemma binary_round_aux_within (sx : bool) (mx ex : Z) (lx : location) (k : Z) :
  0 <= mx -> Zdigits2 mx + ex <= k -> -1074 <= k <= 1000 -> ex <= 900 ->
  within sx (k + 1) (binary_round_aux prec emax sx mx ex lx).
Proof.
  intros Hm Hk Hk' He. unfold binary_round_aux.
  pose proof (shr_fexp_spec mx ex lx Hm) as [M1 E1]. cbv zeta in M1, E1.
  destruct (shr_fexp prec emax mx ex lx) as [mrs1 e1]. cbn [fst snd] in M1, E1.
  set (n1 := Z.max 0 (fexp prec emax (Zdigits2 mx + ex) - ex)) in *.
  set (m1 := shr_m mrs1) in *.
  assert (Hm1 : 0 <= m1) by (rewrite M1; now apply Z.shiftr_nonneg).
  pose proof (Zdigits2_nonneg mx) as Dmx.
  assert (D1 : Zdigits2 m1 <= Z.max 0 (Zdigits2 mx - n1)).
  { rewrite M1. apply Zdigits2_shiftr; lia. }
  pose proof (round_nearest_even_range m1 (loc_of_shr_record mrs1)) as R.
  set (m2 := round_nearest_even m1 (loc_of_shr_record mrs1)) in *.
  assert (Hm2 : 0 <= m2) by lia.
  pose proof (Zdigits2_nonneg m1) as Dm1.
  assert (D2 : Zdigits2 m2 <= Zdigits2 m1 + 1).
  { apply Zdigits2_le; [lia|lia|].
    pose proof (Zdigits2_upper m1 Hm1) as U.
    rewrite Z.pow_add_r by lia. lia. }
  pose proof (shr_fexp_spec m2 e1 loc_Exact Hm2) as [M3 E3]. cbv zeta in M3, E3.
  destruct (shr_fexp prec emax m2 e1 loc_Exact) as [mrs3 e3].
  cbn [fst snd] in M3, E3.
  set (n2 := Z.max 0 (fexp prec emax (Zdigits2 m2 + e1) - e1)) in *.
  assert (Hm3 : 0 <= shr_m mrs3) by (rewrite M3; now apply Z.shiftr_nonneg).
  pose proof (Zdigits2_nonneg m2) as Dm2.
  assert (D3 : Zdigits2 (shr_m mrs3) <= Z.max 0 (Zdigits2 m2 - n2)).
  { rewrite M3. apply Zdigits2_shiftr; lia. }
  unfold fexp, SpecFloat.emin, prec, emax in n1, n2.
  destruct (shr_m mrs3) as [|m|m] eqn:Em; cbn [within].
  - reflexivity.
  - cbn [Zdigits2] in D3.
    replace (e3 <=? emax - prec) with true.
    + cbn [within]. split; [reflexivity|]. lia.
    + symmetry. apply Z.leb_le. unfold emax, prec. lia.
  - lia.
Qed.

(** The long division of [of_ratio] gives a quotient with no more
    digits, exponent counted, than the numerator. *)
Lemma SFdiv_core_binary_bound (num den : positive) :
  exists q e l,
    SFdiv_core_binary prec emax (Z.pos num) 0 (Z.pos den) 0 = (q, e, l)
    /\ 0 <= q /\ e <= 0 /\ Zdigits2 q + e <= Zdigits2 (Z.pos num).
Proof.
  unfold SFdiv_core_binary.
  set (d1 := Zdigits2 (Z.pos num)). set (d2 := Zdigits2 (Z.pos den)).
  set (e := Z.min (fexp prec emax (d1 + 0 - (d2 + 0))) (0 - 0)).
  set (s := 0 - 0 - e).
  assert (He : e <= 0) by (unfold e; lia).
  set (m := match s with
            | 0 => Z.pos num
            | Z.pos _ => Z.shiftl (Z.pos num) s
            | Z.neg _ => 0
            end).
  assert (Hm : m = Z.shiftl (Z.pos num) s).
  { unfold m. destruct s eqn:Es; [now rewrite Z.shiftl_0_r|reflexivity|lia]. }
  pose proof (Z_div_mod m (Z.pos den) ltac:(lia)) as DM.
  destruct (Z.div_eucl m (Z.pos den)) as [q r]. destruct DM as [DM R].
  exists q, e, (new_location (Z.pos den) r).
  split; [reflexivity|].
  assert (Hm0 : 0 <= m).
  { rewrite Hm. apply Z.shiftl_nonneg. lia. }
  assert (Hq : 0 <= q) by nia.
  split; [exact Hq|]. split; [exact He|].
  assert (Hqm : q <= m) by nia.
  pose proof (Zdigits2_mono q m ltac:(lia)) as Mo.
  pose proof (Zdigits2_shiftl (Z.pos num) s ltac:(lia) ltac:(lia)) as Sh.
  rewrite <- Hm in Sh. fold d1 in Sh. lia.
Qed.

Lemma of_ratio_within (num den : positive) (k : Z) :
  Zdigits2 (Z.pos num) <= k -> k <= 1000 ->
  within false (k + 1) (of_ratio false num den).
Proof.
  intros Hk Hk'. unfold of_ratio.
  destruct (SFdiv_core_binary_bound num den) as (q & e & l & E & Hq & He & D).
  rewrite E. pose proof (Zdigits2_nonneg (Z.pos num)).
  apply binary_round_aux_within; lia.
Qed.

Lemma mul_within (x : float64) (my : positive) (ey k j : Z) :
  within false k x ->
  Z.pos (digits2_pos my) + ey <= j ->
  -1074 <= k + j <= 1000 -> k + j <= 900 ->
  within false (k + j + 1) (mul x (S754_finite false my ey)).
Proof.
  intros Hx Hy B1 B2. unfold mul.
  destruct x as [s| | |s mx ex]; cbn [within] in Hx; try contradiction.
  - subst s. reflexivity.
  - destruct Hx as [-> Hx]. cbn [SFmul xorb].
    pose proof (Zdigits2_mul (Z.pos mx) (Z.pos my) ltac:(lia) ltac:(lia)) as M.
    cbn [Zdigits2] in M. rewrite <- Pos2Z.inj_mul in M. cbn [Zdigits2] in M.
    apply binary_round_aux_within; cbn [Zdigits2]; lia.
Qed.

Lemma pos_iter_xO (m d : positive) :
  Z.pos (Pos.iter xO m d) = Z.pos m * 2 ^ Z.pos d.
Proof.
  induction d as [|d IH] using Pos.peano_ind.
  - cbn [Pos.iter]. rewrite Z.pow_1_r. lia.
  - rewrite Pos.iter_succ, Pos2Z.inj_xO, IH, Pos2Z.inj_succ.
    rewrite Z.pow_succ_r by lia. ring.
Qed.

Lemma shl_align_bound (mx : positive) (ex ex' : Z) :
  Zdigits2 (Z.pos (fst (shl_align mx ex ex'))) + snd (shl_align mx ex ex')
  <= Zdigits2 (Z.pos mx) + ex
  /\ snd (shl_align mx ex ex') <= ex.
Proof.
  unfold shl_align. destruct (ex' - ex) as [|d|d] eqn:E; cbn [fst snd].
  - lia.
  - lia.
  - rewrite pos_iter_xO, <- Z.shiftl_mul_pow2 by lia.
    pose proof (Zdigits2_shiftl (Z.pos mx) (Z.pos d) ltac:(lia) ltac:(lia)).
    lia.
Qed.

(** The float64 of an integer of at most [k] digits. *)
Lemma binary_normalize_within (c k : Z) :
  0 <= c -> Zdigits2 c <= k -> k <= 900 ->
  within false (k + 1) (binary_normalize prec emax c 0 false).
Proof.
  intros Hc Hk Hk'. destruct c as [|c|c]; [reflexivity| |lia].
  cbn [binary_normalize]. unfold binary_round.
  pose proof (shl_align_bound c 0
                (fexp prec emax (Z.pos (digits2_pos c) + 0))) as [B1 B2].
  destruct (shl_align c 0 (fexp prec emax (Z.pos (digits2_pos c) + 0)))
    as [mz ez].
  cbn [fst snd] in B1, B2. pose proof (Zdigits2_nonneg (Z.pos c)).
  apply binary_round_aux_within; lia.
Qed.

Lemma Ceil_within (x : float64) (k : Z) :
  within false k x -> 0 <= k <= 800 -> within false (k + 2) (Ceil x).
Proof.
  intros Hx Hk.
  destruct x as [s| | |s m e]; cbn [within] in Hx; try contradiction.
  - subst s. reflexivity.
  - destruct Hx as [-> Hx]. cbn [Ceil].
    destruct (0 <=? e) eqn:E.
    + cbn [within]. split; [reflexivity|lia].
    + apply Z.leb_gt in E. unfold split_fraction.
      set (q := Z.shiftr (Z.pos m) (- e)).
      assert (Hq : 0 <= q) by (apply Z.shiftr_nonneg; lia).
      assert (Dq : Zdigits2 q <= k).
      { apply Zdigits2_shiftr; cbn [Zdigits2]; lia. }
      pose proof (Zdigits2_lt_pow q k Hq Dq) as U.
      assert (Dq1 : Zdigits2 (q + 1) <= k + 1).
      { apply Zdigits2_le; [lia|lia|]. rewrite Z.pow_add_r by lia. lia. }
      destruct (_ =? 0).
      * apply within_weaken with (k := k + 1); [lia|].
        apply binary_normalize_within; lia.
      * replace (k + 2) with (k + 1 + 1) by lia.
        apply binary_normalize_within; lia.
Qed.

(** The conversion to [int] of a value below [2^62] is its integer
    part. *)
Lemma to_int_within (P : Platform) (x : float64) (k : Z) :
  within false k x -> 0 <= k <= 62 -> 0 <= to_int P x < 2 ^ k.
Proof.
  intros Hx Hk. unfold to_int.
  assert (P2 : 2 ^ k <= 2 ^ 62) by (apply Z.pow_le_mono_r; lia).
  assert (In : forall z, 0 <= z < 2 ^ k -> in_int64 z = true).
  { intros z Hz. unfold in_int64, min_int64, max_int64.
    apply andb_true_iff. rewrite !Z.leb_le. lia. }
  destruct x as [s| | |s m e]; cbn [within] in Hx; try contradiction.
  - cbn [truncate]. rewrite In; lia.
  - destruct Hx as [-> Hx]. cbn [truncate].
    assert (A : 0 <= (if 0 <=? e then Z.pos m * 2 ^ e
                      else Z.shiftr (Z.pos m) (- e)) < 2 ^ k).
    { destruct (0 <=? e) eqn:E.
      - apply Z.leb_le in E.
        pose proof (Zdigits2_upper (Z.pos m) ltac:(lia)) as U.
        cbn [Zdigits2] in U.
        assert (0 < 2 ^ e) by (apply Z.pow_pos_nonneg; lia).
        assert (2 ^ (Z.pos (digits2_pos m)) * 2 ^ e <= 2 ^ k).
        { rewrite <- Z.pow_add_r by lia. apply Z.pow_le_mono_r; lia. }
        nia.
      - apply Z.leb_gt in E. split; [apply Z.shiftr_nonneg; lia|].
        apply Zdigits2_lt_pow; [apply Z.shiftr_nonneg; lia|].
        apply Zdigits2_shiftr; cbn [Zdigits2]; lia. }
    rewrite In; lia.
Qed.

End FloatFacts.

(* ===================================================================== *)
(** * Prices that are digits, a point and two digits *)
(* ===================================================================== *)

Module PriceFacts.

Import Main Notions Facts FloatFacts Strconv.

Lemma forallb_rev_eq (f : Z -> bool) (l : list Z) :
  forallb f (rev l) = forallb f l.
Proof.
  induction l as [|a l IH]; [reflexivity|].
  cbn [rev forallb]. rewrite forallb_app, IH. cbn [forallb].
  rewrite andb_true_r. apply andb_comm.
Qed.

Lemma plain_price_shape (s : string) :
  plain_price s = true ->
  exists ds d1 d2,
    bytes s = ds ++ [ch "."; d1; d2]
    /\ forallb is_digit ds = true /\ is_digit d1 = true /\ is_digit d2 = true
    /\ (1 <= List.length ds <= 13)%nat.
Proof.
  unfold plain_price. intros H.
  destruct (rev (bytes s)) as [|d2 [|d1 [|dot ds]]] eqn:E; try discriminate.
  apply andb_true_iff in H as [H L2]. apply andb_true_iff in H as [H L1].
  apply andb_true_iff in H as [H Hds]. apply andb_true_iff in H as [H Hdot].
  apply andb_true_iff in H as [H2 H1].
  apply Z.eqb_eq in Hdot. subst dot.
  apply Nat.leb_le in L1, L2.
  exists (rev ds), d1, d2.
  assert (Hb : bytes s = rev (d2 :: d1 :: ch "." :: ds)).
  { rewrite <- E. symmetry. apply rev_involutive. }
  split.
  - rewrite Hb. cbn [rev]. now rewrite <- !app_assoc.
  - rewrite forallb_rev_eq, length_rev. auto.
Qed.

(** ** The digit loop on decimal digits *)

Lemma is_digit_range (c : Z) : is_digit c = true -> 48 <= c <= 57.
Proof.
  unfold is_digit. change (ch "0") with 48. change (ch "9") with 57.
  rewrite andb_true_iff, !Z.leb_le. auto.
Qed.

Lemma read_digits_digit (st : digits_state) (c : Z) (t : list Z) :
  is_digit c = true ->
  read_digits false st (c :: t) = read_digits false (digit_step st c) t.
Proof.
  intros H. pose proof (is_digit_range c H) as R.
  cbn [read_digits]. change (ch "_") with 95. change (ch ".") with 46.
  destruct (c =? 95) eqn:E1; [apply Z.eqb_eq in E1; lia|].
  destruct (c =? 46) eqn:E2; [apply Z.eqb_eq in E2; lia|].
  rewrite H. unfold digit_step.
  destruct ((c =? ch "0") && (nd st =? 0)); reflexivity.
Qed.

Lemma read_digits_digits (ds : list Z) :
  forall st rest,
    forallb is_digit ds = true ->
    read_digits false st (ds ++ rest)
    = read_digits false (fold_left digit_step ds st) rest.
Proof.
  induction ds as [|c ds IH]; intros st rest H.
  - reflexivity.
  - cbn [forallb] in H. apply andb_true_iff in H as [Hc Hds].
    cbn [app fold_left]. rewrite read_digits_digit by assumption.
    now apply IH.
Qed.

Lemma digit_step_spec (st : digits_state) (c : Z) :
  is_digit c = true -> wf_state st ->
  let st' := digit_step st c in
  wf_state st'
  /\ mantissa st' = mantissa st * 10 + (c - 48)
  /\ dp st' - nd st' = dp st - nd st - 1
  /\ sawdot st' = sawdot st
  /\ underscores st' = underscores st
  /\ sawdigits st' = true.
Proof.
  intros H (W1 & W2 & W3). pose proof (is_digit_range c H) as R.
  unfold digit_step, wf_state. change (ch "0") with 48.
  destruct ((c =? 48) && (nd st =? 0)) eqn:E; cbn.
  - apply andb_true_iff in E as [E1 E2].
    apply Z.eqb_eq in E1, E2. specialize (W3 E2).
    repeat split; try lia; auto.
  - repeat split; try lia.
Qed.

Lemma fold_digit_step_spec (ds : list Z) :
  forall st,
    forallb is_digit ds = true -> wf_state st ->
    let st' := fold_left digit_step ds st in
    wf_state st'
    /\ mantissa st' = digits_value (mantissa st) ds
    /\ dp st' - nd st' = dp st - nd st - Z.of_nat (List.length ds)
    /\ sawdot st' = sawdot st
    /\ underscores st' = underscores st
    /\ (ds <> [] -> sawdigits st' = true).
Proof.
  induction ds as [|c ds IH]; intros st H W.
  - cbn. repeat split; try lia; try apply W. congruence.
  - cbn [forallb] in H. apply andb_true_iff in H as [Hc Hds].
    destruct (digit_step_spec st c Hc W) as (W' & M & D & S & U & G).
    destruct (IH (digit_step st c) Hds W') as (W'' & M' & D' & S' & U' & G').
    cbn [fold_left digits_value]. cbv zeta.
    split; [exact W''|]. split; [|split; [|split; [|split]]].
    + rewrite M', M. reflexivity.
    + rewrite D', D. cbn [List.length]. lia.
    + congruence.
    + congruence.
    + intros _. destruct ds as [|c' ds'].
      * exact G.
      * apply G'. discriminate.
Qed.

Lemma digits_value_bound (ds : list Z) :
  forall acc,
    forallb is_digit ds = true -> 0 <= acc ->
    0 <= digits_value acc ds < (acc + 1) * 10 ^ Z.of_nat (List.length ds).
Proof.
  induction ds as [|c ds IH]; intros acc H Ha.
  - cbn. lia.
  - cbn [forallb] in H. apply andb_true_iff in H as [Hc Hds].
    pose proof (is_digit_range c Hc) as R.
    cbn [digits_value List.length]. change (ch "0") with 48.
    specialize (IH (acc * 10 + (c - 48)) Hds ltac:(lia)).
    rewrite Nat2Z.inj_succ, Z.pow_succ_r by lia.
    assert (0 < 10 ^ Z.of_nat (List.length ds)) by (apply Z.pow_pos_nonneg; lia).
    nia.
Qed.

Lemma digits_value_app (a b : list Z) :
  forall acc, digits_value acc (a ++ b) = digits_value (digits_value acc a) b.
Proof.
  induction a as [|c a IH]; intros acc; [reflexivity|].
  cbn [app digits_value]. apply IH.
Qed.

Lemma lower_digit_or_point (c : Z) :
  is_digit c = true \/ c = 46 -> (lower c =? ch "x") = false.
Proof.
  intros [H | ->]; [|reflexivity].
  apply is_digit_range in H.
  assert (E : c = 48 \/ c = 49 \/ c = 50 \/ c = 51 \/ c = 52 \/ c = 53
              \/ c = 54 \/ c = 55 \/ c = 56 \/ c = 57) by lia.
  repeat (destruct E as [-> | E]; [reflexivity|]). now subst c.
Qed.

(** The state of the digit loop at the end of [d...d.dd]. *)
Lemma read_digits_plain (ds : list Z) (d1 d2 : Z) :
  forallb is_digit ds = true -> ds <> [] ->
  is_digit d1 = true -> is_digit d2 = true ->
  exists st,
    read_digits false digits_init (ds ++ [ch "."; d1; d2]) = (st, [])
    /\ sawdigits st = true /\ sawdot st = true /\ underscores st = false
    /\ mantissa st = digits_value 0 (ds ++ [d1; d2])
    /\ dp st - nd st = -2.
Proof.
  intros Hds Hne H1 H2.
  assert (W0 : wf_state digits_init) by (unfold wf_state; cbn; lia).
  destruct (fold_digit_step_spec ds digits_init Hds W0)
    as (W1 & M1 & D1 & S1 & U1 & G1).
  set (st1 := fold_left digit_step ds digits_init) in *.
  set (st2 := {| sawdot := true; sawdigits := sawdigits st1; nd := nd st1;
                 dp := nd st1; mantissa := mantissa st1;
                 underscores := underscores st1 |}).
  assert (W2 : wf_state st2) by exact W1.
  assert (H12 : forallb is_digit [d1; d2] = true).
  { cbn [forallb]. now rewrite H1, H2. }
  destruct (fold_digit_step_spec [d1; d2] st2 H12 W2)
    as (W3 & M3 & D3 & S3 & U3 & G3).
  exists (fold_left digit_step [d1; d2] st2).
  split.
  - rewrite read_digits_digits by assumption. fold st1.
    cbn [read_digits]. change (ch "." =? ch "_") with false.
    change (ch "." =? ch ".") with true. cbv iota.
    rewrite S1. cbn [sawdot digits_init]. fold st2.
    pose proof (read_digits_digits [d1; d2] st2 [] H12) as E2.
    rewrite app_nil_r in E2. exact E2.
  - split; [apply G3; discriminate|]. split; [exact S3|]. split.
    + rewrite U3. cbn [underscores st2]. rewrite U1. reflexivity.
    + split.
      * rewrite M3. cbn [mantissa st2]. rewrite M1. cbn [mantissa digits_init].
        symmetry. apply digits_value_app.
      * rewrite D3. cbn [dp nd st2 List.length]. lia.
Qed.

(** [ParseFloat] on [d...d.dd]: the nearest float64 of the amount, which
    is no less than zero and below [2^51]. *)
Lemma ParseFloat_plain (s : string) :
  plain_price s = true ->
  exists f, ParseFloat s = Ok f /\ within false 51 f.
Proof.
  intros H. apply plain_price_shape in H.
  destruct H as (ds & d1 & d2 & Hb & Hds & H1 & H2 & L).
  assert (Hne : ds <> []) by (destruct ds; [cbn in L; lia | discriminate]).
  destruct (read_digits_plain ds d1 d2 Hds Hne H1 H2)
    as (st & R & G & S & U & M & D).
  set (b := ds ++ [ch "."; d1; d2]) in *.
  (* the first byte is a digit *)
  assert (Hc : exists c t, b = c :: t /\ is_digit c = true).
  { unfold b. destruct ds as [|c ds']; [congruence|].
    cbn [forallb] in Hds. apply andb_true_iff in Hds as [Hc _].
    exists c, (ds' ++ [ch "."; d1; d2]). now split. }
  destruct Hc as (c & t & Eb & Hc). pose proof (is_digit_range c Hc) as Rc.
  assert (Sp : special b = None).
  { rewrite Eb. unfold special.
    change (ch "+") with 43. change (ch "-") with 45.
    change (ch "i") with 105. change (ch "I") with 73.
    change (ch "n") with 110. change (ch "N") with 78.
    repeat match goal with
           | |- context [c =? ?n] =>
             let E := fresh in
             destruct (c =? n) eqn:E; [apply Z.eqb_eq in E; lia|]
           end.
    reflexivity. }
  assert (Sg : read_sign b = (false, b)).
  { rewrite Eb. unfold read_sign.
    change (ch "+") with 43. change (ch "-") with 45.
    destruct (c =? 43) eqn:E1; [apply Z.eqb_eq in E1; lia|].
    destruct (c =? 45) eqn:E2; [apply Z.eqb_eq in E2; lia|]. reflexivity. }
  assert (Px : read_prefix b = (false, b)).
  { unfold b, read_prefix.
    destruct ds as [|c0 [|c1 ds']]; [congruence| |].
    - cbn [app]. rewrite (lower_digit_or_point (ch ".")) by now right.
      now rewrite andb_false_r.
    - cbn [forallb] in Hds. apply andb_true_iff in Hds as [_ Hds].
      apply andb_true_iff in Hds as [Hc1 _].
      cbn [app]. rewrite (lower_digit_or_point c1) by now left.
      rewrite andb_false_r. destruct (ds' ++ _); reflexivity. }
  assert (RF : readFloat b
               = Some {| num_mant := mantissa st;
                         num_exp := if mantissa st =? 0 then 0 else -2;
                         num_neg := false; num_hex := false;
                         num_unread := [] |}).
  { unfold readFloat. rewrite Sg, Px, R. rewrite Eb at 1.
    unfold read_tail. rewrite G, S, U. cbn [negb andb].
    rewrite <- D. reflexivity. }
  (* the mantissa is below 10^15 *)
  assert (Bm : 0 <= mantissa st < 2 ^ 50).
  { rewrite M.
    assert (Hall : forallb is_digit (ds ++ [d1; d2]) = true).
    { rewrite forallb_app, Hds. cbn [forallb]. now rewrite H1, H2. }
    pose proof (digits_value_bound (ds ++ [d1; d2]) 0 Hall ltac:(lia)) as B.
    rewrite length_app in B. cbn [List.length] in B.
    assert (10 ^ Z.of_nat (List.length ds + 2) <= 10 ^ 15)
      by (apply Z.pow_le_mono_r; lia).
    change (10 ^ 15) with 1000000000000000 in *.
    change (2 ^ 50) with 1125899906842624. lia. }
  unfold ParseFloat. rewrite Hb. fold b. rewrite Sp, RF. cbn [num_unread].
  unfold numeral_value. cbn [num_mant num_neg num_hex num_exp].
  destruct (mantissa st) as [|m|m] eqn:Em.
  - exists (S754_zero false). split; reflexivity.
  - change (Z.pos m =? 0) with false. cbv iota.
    change (0 <=? -2) with false. cbv iota.
    assert (W : within false 51
                  (Float64.of_ratio false m (Z.to_pos (10 ^ (- -2))))).
    { apply (of_ratio_within m _ 50); [|lia].
      apply Zdigits2_le; lia. }
    destruct (Float64.of_ratio false m (Z.to_pos (10 ^ (- -2)))) as [z| | |z mz ez];
      cbn [within] in W; try contradiction.
    + eexists. split; [reflexivity|exact W].
    + eexists. split; [reflexivity|exact W].
  - lia.
Qed.

End PriceFacts.

(* ===================================================================== *)
(** * The rules of the specification, on the code *)
(* ===================================================================== *)

Module Scorer.

Import Main Notions Facts ItemFacts TimeFacts.

Lemma to_int_range (P : Platform) (x : Float64.float64) :
  min_int64 <= Float64.to_int P x <= max_int64.
Proof.
  unfold Float64.to_int.
  destruct (Float64.truncate x) as [z|]; [|apply wrap64_range].
  destruct (in_int64 z) eqn:E; [|apply wrap64_range].
  unfold in_int64 in E. apply andb_true_iff in E.
  now rewrite !Z.leb_le in E.
Qed.



(** C1. The receipt of the end-to-end scenario (retailer "Target", five
    items, total "35.35", bought on 2022-01-01 at 13:01) scores exactly 28
    points: 6 for the retailer, 0 for the total, 10 for the two pairs of
    items, 3 each for the two descriptions whose trimmed length is a
    multiple of 3, 6 for the odd day, 0 for the time. *)
Theorem target_receipt_scores_28 (P : Platform) :
  GetReceiptPoints P target_receipt = Returns 28.
Proof. vm_compute. reflexivity. Qed.







(** The total "NaN" parses, and no [int] holds its cents: the rule then
    gives what the conversion of the platform gives, 0 points on amd64 and
    75 on arm64. *)
Lemma nan_total_by_platform :
  Strconv.ParseFloat "NaN" = Strconv.Ok S754_nan
  /\ GetTotalCostPoints amd64_latin1 "NaN" = 0
  /\ GetTotalCostPoints arm64_latin1 "NaN" = 75.
Proof. vm_compute. repeat split; reflexivity. Qed.

(** C9. The item-pair rule adds 5 points at every second item, which is
    [5 * floor(n / 2)] over the [n] items of a receipt, beside what the
    description rule adds: with descriptions that earn nothing, one item
    earns 0, two items earn 5 and four items earn 10. *)
Theorem item_pair_rule (P : Platform) :
  (forall receipt,
      GetItemPoints P receipt
      = wrap64 (5 * (Z.of_nat (List.length (Items receipt)) / 2)
                + desc_total P (Items receipt)))
  /\ (forall numItems points it,
         wrap64 points = points ->
         item_step P (numItems, points) it
         = (wrap64 (numItems + 1),
            wrap64 (points + (if Z.even (numItems + 1) then 5 else 0)
                    + desc_points P it)))
  /\ (forall a,
         desc_points P a = 0 -> GetItemPoints P (with_items [a]) = 0)
  /\ (forall a b,
         desc_points P a = 0 -> desc_points P b = 0 ->
         GetItemPoints P (with_items [a; b]) = 5)
  /\ (forall a b c d,
         desc_points P a = 0 -> desc_points P b = 0 ->
         desc_points P c = 0 -> desc_points P d = 0 ->
         GetItemPoints P (with_items [a; b; c; d]) = 10).
Proof.
  split; [|split; [|split; [|split]]].
  - apply GetItemPoints_sum.
  - intros. now apply item_step_points.
  - intros a Ha. rewrite GetItemPoints_sum.
    cbn [Items with_items List.length desc_total fold_right]. rewrite Ha.
    reflexivity.
  - intros a b Ha Hb. rewrite GetItemPoints_sum.
    cbn [Items with_items List.length desc_total fold_right]. rewrite Ha, Hb.
    reflexivity.
  - intros a b c d Ha Hb Hc Hd. rewrite GetItemPoints_sum.
    cbn [Items with_items List.length desc_total fold_right].
    rewrite Ha, Hb, Hc, Hd. reflexivity.
Qed.

Lemma item_pair_rule_witness :
  desc_points amd64_latin1 (item "Gatorade" "2.25") = 0
  /\ GetItemPoints amd64_latin1 (with_items [item "Gatorade" "2.25"]) = 0
  /\ GetItemPoints amd64_latin1
       (with_items [item "Gatorade" "2.25"; item "Gatorade" "2.25"]) = 5
  /\ GetItemPoints amd64_latin1
       (with_items [item "Gatorade" "2.25"; item "Gatorade" "2.25";
                    item "Gatorade" "2.25"; item "Gatorade" "2.25"]) = 10.
Proof.
  pose proof (item_pair_rule amd64_latin1) as (_ & _ & H1 & H2 & H4).
  assert (G : desc_points amd64_latin1 (item "Gatorade" "2.25") = 0)
    by (vm_compute; reflexivity).
  split; [exact G|]. split; [|split].
  - exact (H1 _ G).
  - exact (H2 _ _ G G).
  - exact (H4 _ _ _ _ G G G G).
Defined.

End Scorer.

(* ===================================================================== *)
(** * The validator and the handler *)
(* ===================================================================== *)

Module Validator.

Import Main Notions Facts RegexpFacts PatternFacts ItemFacts TimeFacts Scorer.

Lemma ne_bytes (s : string) : s <> ""%string -> bytes s <> [].
Proof. destruct s; [congruence | discriminate]. Qed.

(** C5. The price check, the one of the total and the one of the items,
    is anchored at the end of the string only: the strings that pass are
    those that end with one or more digits, a point and two digits, with
    any bytes before. "abc1.00" and "-5.00" pass. *)
Theorem price_check_anchored_at_end_only :
  (forall price,
      CheckPriceValidity price = true
      <-> exists pre w, bytes price = pre ++ w /\ price_word w)
  /\ (forall (pre ds : string) (d1 d2 : ascii),
         ds <> ""%string ->
         forallb Regexp.digit (bytes ds) = true ->
         Regexp.digit (code d1) = true ->
         Regexp.digit (code d2) = true ->
         let price := (pre ++ ds ++ "." ++ String d1 (String d2 ""))%string in
         CheckPriceValidity price = true
         /\ forall description,
             Regexp.MatchString descPattern description = true ->
             CheckItemsValidity (with_items [item description price]) = true)
  /\ CheckPriceValidity "abc1.00" = true
  /\ CheckPriceValidity "-5.00" = true.
Proof.
  split; [exact price_pattern_accepts|]. split; [|split; reflexivity].
  intros pre ds d1 d2 Hne Hds H1 H2 price.
  assert (Hp : Regexp.MatchString pricePattern price = true).
  { apply price_pattern_accepts.
    exists (bytes pre), (bytes ds ++ [code "."; code d1; code d2]).
    split.
    - unfold price. rewrite !bytes_app. reflexivity.
    - exists (bytes ds), (code d1), (code d2).
      repeat split; auto using ne_bytes. }
  split; [exact Hp|].
  intros description Hd. unfold CheckItemsValidity.
  cbn [Items with_items List.length check_items Price ShortDescription item].
  rewrite Hp, Hd. reflexivity.
Qed.

Lemma price_check_anchored_at_end_only_witness :
  CheckPriceValidity ("-" ++ "5" ++ "." ++ String "0" (String "0" "")) = true.
Proof.
  pose proof price_check_anchored_at_end_only as (_ & H & _).
  refine (proj1 (H "-"%string "5"%string "0"%char "0"%char _ _ _ _));
    [discriminate | reflexivity | reflexivity | reflexivity].
Defined.

(** The handler answers 400 and leaves the state alone when a check
    fails. *)
Lemma CreateReceipt_invalid (w : World) (b : Body) :
  Validate (fst (Decode b)) = false -> CreateReceipt w b = (invalid, w).
Proof.
  unfold CreateReceipt, Validate.
  destruct (Decode b) as [receipt err]. cbn [fst].
  destruct (CheckValidDescription _); [|reflexivity].
  destruct (CheckValidTime _ _); [|reflexivity].
  destruct (CheckItemsValidity _); [|reflexivity].
  destruct (CheckPriceValidity _); [discriminate|reflexivity].
Qed.

(** The handler stores the receipt under a new identifier when every
    check passes. *)
Lemma CreateReceipt_valid (w : World) (b : Body) :
  Validate (fst (Decode b)) = true ->
  let id := uuids w (drawn w) in
  let r := fst (Decode b) in
  CreateReceipt w b
  = (StatusOK id,
     {| receipts :=
          receipts w
          ++ [{| ID := id; Retailer := Retailer r;
                 PurchaseDate := PurchaseDate r;
                 PurchaseTime := PurchaseTime r;
                 Items := Items r; Total := Total r |}];
        uuids := uuids w;
        drawn := S (drawn w) |}).
Proof.
  unfold CreateReceipt, Validate.
  destruct (Decode b) as [receipt err]. cbn [fst].
  destruct (CheckValidDescription _); [|discriminate].
  destruct (CheckValidTime _ _); [|discriminate].
  destruct (CheckItemsValidity _); [|discriminate].
  destruct (CheckPriceValidity _); [reflexivity|discriminate].
Qed.

(** C6. Validation rejects a receipt with no item, a receipt whose total
    is "10.0", a receipt whose date is "2022-13-01", and a receipt whose
    time is "25:00", whatever its other fields; the handler answers each
    with 400 and stores nothing. *)
Theorem validation_rejects (r : Receipt) :
  (Items r = [] \/ Total r = "10.0"%string
   \/ PurchaseDate r = "2022-13-01"%string
   \/ PurchaseTime r = "25:00"%string) ->
  Validate r = false
  /\ forall w, CreateReceipt w (Decoded r) = (invalid, w).
Proof.
  intros H.
  assert (V : Validate r = false).
  { unfold Validate. destruct H as [H | [H | [H | H]]].
    - unfold CheckItemsValidity. rewrite H. cbn [List.length].
      change (Z.of_nat 0 <? 1) with true. cbv iota.
      now rewrite andb_false_r.
    - rewrite H. change (CheckPriceValidity "10.0") with false.
      now rewrite andb_false_r.
    - unfold CheckValidTime. rewrite H.
      change (GoTime.ParseDate "2022-13-01") with (@None (Z * Z * Z)).
      cbv iota. now rewrite andb_false_r.
    - unfold CheckValidTime. rewrite H.
      change (GoTime.ParseClock "25:00") with (@None (Z * Z)).
      destruct (GoTime.ParseDate _); cbv iota; now rewrite andb_false_r. }
  split; [exact V|].
  intros w. now apply CreateReceipt_invalid.
Qed.

Lemma validation_rejects_witness :
  Validate (with_items []) = false
  /\ forall w, CreateReceipt w (Decoded (with_items [])) = (invalid, w).
Proof. apply validation_rejects. left. reflexivity. Defined.

(** C8, the claim as the specification states it, refuted: a body whose
    members make the receipt of the end-to-end scenario, with one more
    member of the wrong type for its field (["ID": 5], say), fails to
    decode, and the handler, which drops the error of [Decode], answers
    200 and stores the receipt. *)
Lemma mistyped_body_is_stored :
  snd (Decode (Mistyped target_receipt)) = true
  /\ fst (CreateReceipt empty_world (Mistyped target_receipt))
     = StatusOK "7fb1377b-b223-49d9-a31a-5a02701dd310"
  /\ List.length (receipts (snd (CreateReceipt empty_world
                                   (Mistyped target_receipt)))) = 1%nat
  /\ drawn (snd (CreateReceipt empty_world (Mistyped target_receipt))) = 1%nat.
Proof. vm_compute. repeat split; reflexivity. Qed.

(** C8, amended. Whenever the receipt that [Decode] leaves fails a
    validation check, the handler answers 400 and leaves the state as it
    was: no identifier is drawn and no receipt is appended. A body that is
    no JSON value leaves the zero receipt, which fails the first check.
    The error of [Decode] itself is dropped: when the receipt it leaves
    passes the four checks, the receipt is stored under a new
    identifier. *)
Theorem CreateReceipt_rejects_invalid (w : World) (b : Body) :
  Validate (fst (Decode b)) = false ->
  CreateReceipt w b = (invalid, w)
  /\ receipts (snd (CreateReceipt w b)) = receipts w
  /\ drawn (snd (CreateReceipt w b)) = drawn w
  /\ CreateReceipt w Malformed = (invalid, w)
  /\ (forall b', Validate (fst (Decode b')) = true ->
                 fst (CreateReceipt w b') = StatusOK (uuids w (drawn w))
                 /\ List.length (receipts (snd (CreateReceipt w b')))
                    = S (List.length (receipts w))
                 /\ drawn (snd (CreateReceipt w b')) = S (drawn w)).
Proof.
  intros H. rewrite (CreateReceipt_invalid w b H). cbn [snd].
  split; [reflexivity|]. split; [reflexivity|]. split; [reflexivity|].
  split; [apply CreateReceipt_invalid; reflexivity|].
  intros b' H'. rewrite (CreateReceipt_valid w b' H'). cbn [fst snd receipts drawn].
  split; [reflexivity|]. split; [|reflexivity].
  rewrite length_app. cbn [List.length]. lia.
Qed.

Lemma CreateReceipt_rejects_invalid_witness :
  CreateReceipt empty_world (Decoded (with_items []))
  = (invalid, empty_world).
Proof.
  refine (proj1 (CreateReceipt_rejects_invalid empty_world
                   (Decoded (with_items [])) _)).
  reflexivity.
Defined.

(** C2, the claim as the specification states it, refuted: this receipt
    passes the four checks, its one item has a description of three bytes
    and the price "-500.00", which the price check lets through, and it
    scores -100. *)
Lemma refund_receipt_scores_below_zero :
  Validate refund_receipt = true
  /\ forall P, GetReceiptPoints P refund_receipt = Returns (-100).
Proof. split; [|intros P]; vm_compute; reflexivity. Qed.

(** On a receipt that passed validation the two slices are in range, and
    the score is the sum of the five rules. *)
Lemma GetReceiptPoints_validated (P : Platform) (r : Receipt) :
  Validate r = true ->
  exists y m d h mi,
    GoTime.ParseDate (PurchaseDate r) = Some (y, m, d)
    /\ GoTime.ParseClock (PurchaseTime r) = Some (h, mi)
    /\ GetDatePoints (PurchaseDate r)
       = Returns (if Z.rem d 2 =? 1 then 6 else 0)
    /\ GetTimePoints (PurchaseTime r)
       = Returns (if (14 <=? h) && (h <? 16) then 10 else 0)
    /\ GetReceiptPoints P r
       = Returns (wrap64 (GetAlphanumeric P (Retailer r)
                          + GetTotalCostPoints P (Total r)
                          + GetItemPoints P r
                          + (if Z.rem d 2 =? 1 then 6 else 0)
                          + (if (14 <=? h) && (h <? 16) then 10 else 0))).
Proof.
  intros V. unfold Validate in V. apply andb_true_iff in V as [V _].
  apply andb_true_iff in V as [V _]. apply andb_true_iff in V as [_ V].
  unfold CheckValidTime in V.
  destruct (GoTime.ParseDate (PurchaseDate r)) as [[[y m] d]|] eqn:D;
    [|discriminate].
  destruct (GoTime.ParseClock (PurchaseTime r)) as [[h mi]|] eqn:C;
    [|discriminate].
  exists y, m, d, h, mi.
  pose proof (GetDatePoints_parsed _ _ _ _ D) as GD.
  pose proof (GetTimePoints_parsed _ _ _ C) as GT.
  split; [reflexivity|]. split; [reflexivity|].
  split; [exact GD|]. split; [exact GT|].
  unfold GetReceiptPoints. rewrite GD, GT. cbn [bind].
  generalize (GetAlphanumeric P (Retailer r)) as a.
  generalize (GetTotalCostPoints P (Total r)) as t.
  generalize (GetItemPoints P r) as i.
  generalize (if Z.rem d 2 =? 1 then 6 else 0) as dd.
  generalize (if (14 <=? h) && (h <? 16) then 10 else 0) as tt.
  intros tt dd i t a.
  now rewrite (wrap64_add_l (a + t) i), (wrap64_add_l (a + t + i) dd),
    (wrap64_add_l (a + t + i + dd) tt).
Qed.

(** The score reads every field of a receipt but its identifier. *)
Lemma GetReceiptPoints_ignores_ID (P : Platform) (r : Receipt) (id : string) :
  GetReceiptPoints P
    {| ID := id; Retailer := Retailer r; PurchaseDate := PurchaseDate r;
       PurchaseTime := PurchaseTime r; Items := Items r; Total := Total r |}
  = GetReceiptPoints P r.
Proof. destruct r. reflexivity. Qed.

Lemma find_last (A : Type) (f : A -> bool) (l : list A) (x : A) :
  (forall y, In y l -> f y = false) -> f x = true ->
  find f (l ++ [x]) = Some x.
Proof.
  intros Hl Hx. induction l as [|y l IH]; cbn [app find].
  - now rewrite Hx.
  - rewrite (Hl y (or_introl eq_refl)). apply IH.
    intros z Hz. apply Hl. now right.
Qed.

(** A receipt that the handler stored is found under its identifier, when
    no older receipt bears it, and its score is computed without a
    panic. *)
Lemma stored_receipt_is_scored (P : Platform) (w : World) (b : Body) :
  Validate (fst (Decode b)) = true ->
  (forall r, In r (receipts w) -> ID r <> uuids w (drawn w)) ->
  exists n,
    GetReceiptPoints P (fst (Decode b)) = Returns n
    /\ GetReceiptByID P (snd (CreateReceipt w b)) (uuids w (drawn w))
       = Returns (PointsOK n).
Proof.
  intros V Hnew.
  destruct (GetReceiptPoints_validated P _ V)
    as (y & m & d & h & mi & _ & _ & _ & _ & G).
  eexists. split; [exact G|].
  rewrite (CreateReceipt_valid w b V). cbn [snd receipts].
  unfold GetReceiptByID. cbn [receipts]. rewrite find_last.
  - rewrite GetReceiptPoints_ignores_ID, G. reflexivity.
  - intros r Hr. apply String.eqb_neq. now apply Hnew.
  - cbn [ID]. apply String.eqb_refl.
Qed.

(** An identifier that no receipt bears is answered with 404. *)
Lemma unknown_id_not_found (P : Platform) (w : World) (id : string) :
  (forall r, In r (receipts w) -> ID r <> id) ->
  GetReceiptByID P w id = Returns (StatusNotFound "No receipt found for that ID.").
Proof.
  intros H. unfold GetReceiptByID.
  destruct (find _ (receipts w)) as [r|] eqn:F; [|reflexivity].
  apply find_some in F as [Hin E]. apply String.eqb_eq in E.
  now destruct (H r Hin).
Qed.

(** C7. On a receipt that passed validation the computation of the score
    returns: the date is ten bytes and the time four or five, so the two
    slices are in range; the odd-day rule reads the day of the month and
    the afternoon rule the hour; the score is the sum of the five rules.
    A failure to parse a number makes its rule add 0 and no more: the
    total, the price of an item, the day of the month, the hour. *)
Theorem score_returns (P : Platform) (r : Receipt) :
  Validate r = true ->
  (exists y m d h mi,
      GoTime.ParseDate (PurchaseDate r) = Some (y, m, d)
      /\ GoTime.ParseClock (PurchaseTime r) = Some (h, mi)
      /\ len (PurchaseDate r) = 10
      /\ 4 <= len (PurchaseTime r) <= 5
      /\ GetDatePoints (PurchaseDate r)
         = Returns (if Z.rem d 2 =? 1 then 6 else 0)
      /\ GetTimePoints (PurchaseTime r)
         = Returns (if (14 <=? h) && (h <? 16) then 10 else 0)
      /\ GetReceiptPoints P r
         = Returns (wrap64 (GetAlphanumeric P (Retailer r)
                            + GetTotalCostPoints P (Total r)
                            + GetItemPoints P r
                            + (if Z.rem d 2 =? 1 then 6 else 0)
                            + (if (14 <=? h) && (h <? 16) then 10 else 0))))
  /\ (forall total e,
         Strconv.ParseFloat total = Strconv.Err e ->
         GetTotalCostPoints P total = 0)
  /\ (forall it e numItems points,
         Strconv.ParseFloat (Price it) = Strconv.Err e ->
         wrap64 points = points ->
         desc_points P it = 0
         /\ item_step P (numItems, points) it
            = (wrap64 (numItems + 1),
               wrap64 (points + (if Z.even (numItems + 1) then 5 else 0))))
  /\ (forall dateString tail e,
         slice dateString (len dateString - 2) (len dateString) = Returns tail ->
         Strconv.Atoi tail = Strconv.Err e ->
         GetDatePoints dateString = Returns 0)
  /\ (forall timeString head e,
         slice timeString 0 2 = Returns head ->
         Strconv.Atoi head = Strconv.Err e ->
         GetTimePoints timeString = Returns 0).
Proof.
  intros V. split; [|split; [|split; [|split]]].
  - destruct (GetReceiptPoints_validated P r V)
      as (y & m & d & h & mi & D & C & GD & GT & G).
    exists y, m, d, h, mi.
    split; [exact D|]. split; [exact C|].
    split; [|split; [|split; [|split]]]; auto.
    + apply ParseDate_shape in D.
      destruct D as (c0 & c1 & c2 & c3 & m1 & m2 & d1 & d2 & Hb & _).
      rewrite len_bytes, Hb. reflexivity.
    + apply ParseClock_shape in C.
      destruct C as (h1 & m1 & m2 & _ & [[Hb _] | (h2 & _ & Hb & _)]);
        rewrite len_bytes, Hb; cbn [List.length]; lia.
  - intros total e H. unfold GetTotalCostPoints. now rewrite H.
  - intros it e n pts H Hp.
    assert (D0 : desc_points P it = 0).
    { unfold desc_points. rewrite H. now destruct (_ =? 0). }
    split; [exact D0|].
    rewrite item_step_points by exact Hp. unfold pair_points.
    now rewrite D0, Z.add_0_r.
  - intros s tail e Hs H. unfold GetDatePoints. rewrite Hs. cbn [bind].
    now rewrite H.
  - intros s head e Hs H. unfold GetTimePoints. rewrite Hs. cbn [bind].
    now rewrite H.
Qed.

Lemma score_returns_witness :
  GetReceiptPoints amd64_latin1 target_receipt
  = Returns (wrap64 (GetAlphanumeric amd64_latin1 "Target"
                     + GetTotalCostPoints amd64_latin1 "35.35"
                     + GetItemPoints amd64_latin1 target_receipt
                     + 6 + 0)).
Proof.
  assert (V : Validate target_receipt = true) by (vm_compute; reflexivity).
  destruct (score_returns amd64_latin1 target_receipt V)
    as [(y & m & d & h & mi & D & C & _ & _ & _ & _ & G) _].
  vm_compute in D. vm_compute in C.
  injection D as <- <- <-. injection C as <- <-.
  exact G.
Defined.

End Validator.

(* ===================================================================== *)
(** * The sign of the score *)
(* ===================================================================== *)

Module ScoreBounds.

Import Main Notions Facts ItemFacts FloatFacts PriceFacts Scorer Validator.

Lemma f0_2_value : f0_2 = S754_finite false 7205759403792794 (-55).
Proof. vm_compute. reflexivity. Qed.

(** A fifth of an amount below [2^51], rounded up, is below [2^52]. *)
Lemma price_share_small (P : Platform) (f : Float64.float64) :
  within false 51 f -> 0 <= price_share P f < 2 ^ 52.
Proof.
  intros W. unfold price_share. rewrite f0_2_value.
  apply to_int_within; [|lia].
  replace 52 with (50 + 2) by reflexivity. apply Ceil_within; [|lia].
  replace 50 with (51 + -2 + 1) by reflexivity.
  apply mul_within; [exact W| |lia|lia].
  vm_compute. discriminate.
Qed.

Lemma desc_points_plain (P : Platform) (it : Item) :
  plain_price (Price it) = true -> 0 <= desc_points P it < 2 ^ 52.
Proof.
  intros H. unfold desc_points.
  destruct (_ =? 0); [|lia].
  destruct (ParseFloat_plain (Price it) H) as (f & -> & W).
  now apply price_share_small.
Qed.

Lemma desc_total_plain (P : Platform) (items : list Item) :
  (forall it, In it items -> plain_price (Price it) = true) ->
  0 <= desc_total P items <= 2 ^ 52 * Z.of_nat (List.length items).
Proof.
  induction items as [|it items IH]; intros H.
  - cbn. lia.
  - cbn [desc_total fold_right List.length]. fold (desc_total P items).
    pose proof (desc_points_plain P it (H it (or_introl eq_refl))).
    specialize (IH (fun i Hi => H i (or_intror Hi))).
    rewrite Nat2Z.inj_succ. lia.
Qed.

Lemma runes_fuel_length (fuel : nat) :
  forall s, (List.length (Utf8.runes_fuel fuel s) <= fuel)%nat.
Proof.
  induction fuel as [|fuel IH]; intros s; cbn [Utf8.runes_fuel].
  - cbn. lia.
  - destruct s as [|b s]; [cbn; lia|].
    destruct (Utf8.DecodeRune (b :: s)) as [r w]. cbn [List.length].
    specialize (IH (skipn w (b :: s))). lia.
Qed.

Lemma count_fold_range (f : Z -> bool) (l : list Z) :
  forall total,
    0 <= total -> total + Z.of_nat (List.length l) <= max_int64 ->
    0 <= fold_left (fun t r => if f r then wrap64 (t + 1) else t) l total
      <= total + Z.of_nat (List.length l).
Proof.
  induction l as [|r l IH]; intros total H0 H1.
  - cbn. lia.
  - cbn [fold_left List.length] in *. rewrite Nat2Z.inj_succ in *.
    destruct (f r).
    + rewrite wrap64_small by (unfold min_int64, max_int64 in *; lia).
      specialize (IH (total + 1) ltac:(lia) ltac:(lia)). lia.
    + specialize (IH total ltac:(lia) ltac:(lia)). lia.
Qed.

(** The alphanumeric rule counts, and counts no more than the bytes. *)
Lemma GetAlphanumeric_range (P : Platform) (s : string) :
  len s <= max_int64 -> 0 <= GetAlphanumeric P s <= len s.
Proof.
  intros H. unfold GetAlphanumeric.
  pose proof (runes_fuel_length (List.length (bytes s)) (bytes s)) as L.
  fold (Utf8.runes (bytes s)) in L. rewrite bytes_length in L.
  unfold len in *.
  pose proof (count_fold_range
                (fun r => Unicode.IsLetter P r || Unicode.IsDigit P r)
                (Utf8.runes (bytes s)) 0 ltac:(lia) ltac:(lia)) as C.
  lia.
Qed.

Lemma GetTotalCostPoints_range (P : Platform) (s : string) :
  0 <= GetTotalCostPoints P s <= 75.
Proof.
  unfold GetTotalCostPoints.
  destruct (Strconv.ParseFloat s); [|lia].
  destruct (_ =? 0); destruct (_ =? 0); vm_compute; split; discriminate.
Qed.

(** Prices with nothing before the digits do not keep the score above
    zero by themselves: on [bulk_receipt] the sum wraps around, on every
    platform. *)
Lemma bulk_receipt_wraps_around :
  Validate bulk_receipt = true
  /\ forall P, GetReceiptPoints P bulk_receipt = Returns (-6446744073709551611).
Proof. split; [|intros P]; vm_compute; reflexivity. Qed.

(** C2, amended. A receipt that passes the four checks scores zero or
    more when the price of each item is digits, a point and two digits
    with nothing before them, below ten trillion (at most thirteen digits
    before the point), the items are at most a thousand and the retailer
    is shorter than [2^32] bytes. The score is then the plain sum of the
    five rules, each of which is zero or more. *)
Theorem score_nonneg_plain_prices (P : Platform) (r : Receipt) :
  Validate r = true ->
  forallb (fun it => plain_price (Price it)) (Items r) = true ->
  len (Retailer r) < 2 ^ 32 ->
  (List.length (Items r) <= 1000)%nat ->
  exists n,
    GetReceiptPoints P r = Returns n
    /\ 0 <= n
    /\ n = GetAlphanumeric P (Retailer r) + GetTotalCostPoints P (Total r)
           + GetItemPoints P r
           + match GetDatePoints (PurchaseDate r) with
             | Returns d => d | Panic => 0 end
           + match GetTimePoints (PurchaseTime r) with
             | Returns t => t | Panic => 0 end
    /\ 0 <= GetItemPoints P r.
Proof.
  intros V Hp Hr Hn.
  destruct (GetReceiptPoints_validated P r V)
    as (y & m & d & h & mi & _ & _ & GD & GT & G).
  rewrite GD, GT.
  assert (Hp' : forall it, In it (Items r) -> plain_price (Price it) = true).
  { intros it Hi. now apply (proj1 (forallb_forall _ _) Hp it). }
  pose proof (desc_total_plain P (Items r) Hp') as Bd.
  assert (B32 : 2 ^ 32 = 4294967296) by reflexivity.
  assert (B52 : 2 ^ 52 = 4503599627370496) by reflexivity.
  assert (Bmax : max_int64 = 9223372036854775807) by reflexivity.
  assert (Bmin : min_int64 = -9223372036854775808) by reflexivity.
  pose proof (GetAlphanumeric_range P (Retailer r) ltac:(lia)) as Ba.
  pose proof (GetTotalCostPoints_range P (Total r)) as Bt.
  assert (Bn : 0 <= Z.of_nat (List.length (Items r)) / 2 <= 500).
  { split; [apply Z.div_pos; lia|].
    apply Z.div_le_upper_bound; lia. }
  assert (Ei : GetItemPoints P r
               = 5 * (Z.of_nat (List.length (Items r)) / 2)
                 + desc_total P (Items r)).
  { rewrite GetItemPoints_sum. apply wrap64_small. lia. }
  assert (Bdd : 0 <= (if Z.rem d 2 =? 1 then 6 else 0) <= 6)
    by (destruct (_ =? 1); lia).
  assert (Btt : 0 <= (if (14 <=? h) && (h <? 16) then 10 else 0) <= 10)
    by (destruct (_ && _); lia).
  eexists. split; [exact G|].
  rewrite wrap64_small by lia.
  split; [lia|]. split; [reflexivity|lia].
Qed.

Lemma score_nonneg_plain_prices_witness :
  exists n,
    GetReceiptPoints amd64_latin1 target_receipt = Returns n
    /\ 0 <= n
    /\ n = GetAlphanumeric amd64_latin1 (Retailer target_receipt)
           + GetTotalCostPoints amd64_latin1 (Total target_receipt)
           + GetItemPoints amd64_latin1 target_receipt
           + match GetDatePoints (PurchaseDate target_receipt) with
             | Returns d => d | Panic => 0 end
           + match GetTimePoints (PurchaseTime target_receipt) with
             | Returns t => t | Panic => 0 end
    /\ 0 <= GetItemPoints amd64_latin1 target_receipt.
Proof.
  apply score_nonneg_plain_prices.
  - vm_compute. reflexivity.
  - vm_compute. reflexivity.
  - vm_compute. reflexivity.
  - cbn [Items target_receipt List.length]. lia.
Defined.

End ScoreBounds.

(* ===================================================================== *)
(** * The handlers, request after request *)
(* ===================================================================== *)

Module Store.

Import Main Notions Requests Facts ItemFacts TimeFacts Scorer Validator.

Lemma Validate_ignores_ID (r : Receipt) (id : string) :
  Validate
    {| ID := id; Retailer := Retailer r; PurchaseDate := PurchaseDate r;
       PurchaseTime := PurchaseTime r; Items := Items r; Total := Total r |}
  = Validate r.
Proof. destruct r. reflexivity. Qed.

Lemma store_ok_start (ids : nat -> string) : store_ok (start ids).
Proof. split; [constructor|reflexivity]. Qed.

Lemma CreateReceipt_cases (w : World) (b : Body) :
  (Validate (fst (Decode b)) = false /\ CreateReceipt w b = (invalid, w))
  \/ (Validate (fst (Decode b)) = true
      /\ CreateReceipt w b
         = (StatusOK (uuids w (drawn w)),
            {| receipts :=
                 receipts w
                 ++ [{| ID := uuids w (drawn w);
                        Retailer := Retailer (fst (Decode b));
                        PurchaseDate := PurchaseDate (fst (Decode b));
                        PurchaseTime := PurchaseTime (fst (Decode b));
                        Items := Items (fst (Decode b));
                        Total := Total (fst (Decode b)) |}];
               uuids := uuids w;
               drawn := S (drawn w) |})).
Proof.
  destruct (Validate (fst (Decode b))) eqn:V.
  - right. split; [reflexivity|]. now apply CreateReceipt_valid.
  - left. split; [reflexivity|]. now apply CreateReceipt_invalid.
Qed.

Lemma CreateReceipt_keeps_store_ok (w : World) (b : Body) :
  store_ok w -> store_ok (snd (CreateReceipt w b)).
Proof.
  intros [HV HI].
  destruct (CreateReceipt_cases w b) as [[_ E] | [V E]]; rewrite E; cbn [snd].
  - now split.
  - split; cbn [receipts uuids drawn].
    + apply Forall_app. split; [exact HV|].
      constructor; [|constructor]. now rewrite Validate_ignores_ID.
    + rewrite map_app, HI, seq_S, map_app. reflexivity.
Qed.

Lemma CreateReceipt_appends (w : World) (b : Body) :
  exists more,
    receipts (snd (CreateReceipt w b)) = receipts w ++ more
    /\ uuids (snd (CreateReceipt w b)) = uuids w.
Proof.
  destruct (CreateReceipt_cases w b) as [[_ E] | [V E]]; rewrite E; cbn [snd].
  - exists []. now rewrite app_nil_r.
  - eexists. cbn [receipts uuids]. split; reflexivity.
Qed.

Lemma serve_cons (w : World) (b : Body) (rest : list Body) :
  serve w (b :: rest)
  = (fst (CreateReceipt w b) :: fst (serve (snd (CreateReceipt w b)) rest),
     snd (serve (snd (CreateReceipt w b)) rest)).
Proof.
  cbn [serve]. destruct (CreateReceipt w b) as [a w1]. cbn [fst snd].
  destruct (serve w1 rest) as [answers w2]. reflexivity.
Qed.

Lemma serve_keeps_store_ok (bodies : list Body) :
  forall w, store_ok w -> store_ok (snd (serve w bodies)).
Proof.
  induction bodies as [|b rest IH]; intros w H.
  - exact H.
  - rewrite serve_cons. cbn [snd]. apply IH.
    now apply CreateReceipt_keeps_store_ok.
Qed.

Lemma serve_appends (bodies : list Body) :
  forall w, exists more,
    receipts (snd (serve w bodies)) = receipts w ++ more
    /\ uuids (snd (serve w bodies)) = uuids w.
Proof.
  induction bodies as [|b rest IH]; intros w.
  - exists []. cbn. now rewrite app_nil_r.
  - rewrite serve_cons. cbn [snd].
    destruct (CreateReceipt_appends w b) as (m1 & E1 & U1).
    destruct (IH (snd (CreateReceipt w b))) as (m2 & E2 & U2).
    exists (m1 ++ m2). rewrite E2, E1, U2, U1, app_assoc. now split.
Qed.

Lemma find_app_found (A : Type) (f : A -> bool) (l more : list A) (x : A) :
  find f l = Some x -> find f (l ++ more) = Some x.
Proof.
  induction l as [|y l IH]; cbn [app find]; [discriminate|].
  destruct (f y); [auto|exact IH].
Qed.

(** A receipt found in a store is found in every store that extends
    it. *)
Lemma lookup_stable (P : Platform) (w w' : World) (id : string)
    (reply : PointsReply) (more : list Receipt) :
  receipts w' = receipts w ++ more ->
  (forall message, reply <> StatusNotFound message) ->
  GetReceiptByID P w id = Returns reply ->
  GetReceiptByID P w' id = Returns reply.
Proof.
  intros E Hr. unfold GetReceiptByID. rewrite E.
  destruct (find _ (receipts w)) as [r|] eqn:F.
  - rewrite (find_app_found _ _ _ more _ F). auto.
  - intros H. injection H as <-. now destruct (Hr _ eq_refl).
Qed.


Lemma NoDup_ids_prefix (ids : nat -> string) (n k : nat) :
  NoDup (map ids (seq 0 (n + k))) -> NoDup (map ids (seq 0 n)).
Proof.
  rewrite seq_app, map_app. apply NoDup_app_remove_r.
Qed.

Lemma fresh_id (w : World) (k : nat) :
  store_ok w ->
  NoDup (map (uuids w) (seq 0 (drawn w + S k))) ->
  forall r, In r (receipts w) -> ID r <> uuids w (drawn w).
Proof.
  intros [_ HI] ND r Hr E.
  replace (drawn w + S k)%nat with (S (drawn w) + k)%nat in ND by lia.
  apply NoDup_ids_prefix in ND. rewrite seq_S, map_app in ND.
  cbn [map Nat.add] in ND. apply NoDup_remove_2 in ND.
  rewrite app_nil_r in ND. apply ND. rewrite <- HI, <- E.
  now apply in_map.
Qed.

Lemma serve_round_trip (P : Platform) (bodies : list Body) :
  forall w,
    store_ok w ->
    NoDup (map (uuids w) (seq 0 (drawn w + List.length bodies))) ->
    forall b id,
      In (b, StatusOK id) (combine bodies (fst (serve w bodies))) ->
      exists n,
        GetReceiptPoints P (fst (Decode b)) = Returns n
        /\ GetReceiptByID P (snd (serve w bodies)) id = Returns (PointsOK n).
Proof.
  induction bodies as [|b0 rest IH]; intros w OK ND b id Hin.
  - destruct Hin.
  - rewrite serve_cons in Hin |- *. cbn [fst snd combine] in Hin |- *.
    cbn [List.length] in ND.
    destruct Hin as [E | Hin].
    + injection E as -> E.
      destruct (CreateReceipt_cases w b) as [[_ C] | [V C]];
        [rewrite C in E; discriminate|].
      assert (id = uuids w (drawn w)) as ->
          by (rewrite C in E; cbn [fst] in E; now injection E).
      destruct (stored_receipt_is_scored P w b V (fresh_id w _ OK ND))
        as (n & G & L).
      exists n. split; [exact G|].
      destruct (serve_appends rest (snd (CreateReceipt w b)))
        as (more & A & _).
      apply (lookup_stable P _ _ _ _ more A); [discriminate|exact L].
    + apply IH; [now apply CreateReceipt_keeps_store_ok| |exact Hin].
      destruct (CreateReceipt_cases w b0) as [[_ C] | [V C]]; rewrite C;
        cbn [snd uuids drawn].
      * replace (drawn w + S (List.length rest))%nat
          with (drawn w + List.length rest + 1)%nat in ND by lia.
        now apply NoDup_ids_prefix in ND.
      * now replace (S (drawn w) + List.length rest)%nat
          with (drawn w + S (List.length rest))%nat by lia.
Qed.

Lemma stamped_app (ids : nat -> string) (l1 l2 : list Receipt) :
  forall n,
    stamped ids n (l1 ++ l2)
    = stamped ids n l1 ++ stamped ids (n + List.length l1) l2.
Proof.
  induction l1 as [|r l1 IH]; intros n; cbn [app stamped List.length].
  - now rewrite Nat.add_0_r.
  - rewrite IH. do 3 f_equal. lia.
Qed.

Lemma stamped_ids (ids : nat -> string) (l : list Receipt) :
  forall n, map ID (stamped ids n l) = map ids (seq n (List.length l)).
Proof.
  induction l as [|r l IH]; intros n; cbn [stamped map List.length seq].
  - reflexivity.
  - now rewrite IH.
Qed.

Lemma serve_contents (bodies : list Body) :
  forall w,
    receipts (snd (serve w bodies))
    = receipts w ++ stamped (uuids w) (drawn w) (accepted bodies)
    /\ drawn (snd (serve w bodies))
       = (drawn w + List.length (accepted bodies))%nat
    /\ uuids (snd (serve w bodies)) = uuids w
    /\ answered_ids (fst (serve w bodies))
       = map (uuids w) (seq (drawn w) (List.length (accepted bodies)))
    /\ List.length (fst (serve w bodies)) = List.length bodies.
Proof.
  induction bodies as [|b rest IH]; intros w.
  - cbn. rewrite app_nil_r, Nat.add_0_r. repeat split.
  - rewrite serve_cons. cbn [fst snd List.length].
    destruct (IH (snd (CreateReceipt w b))) as (R & D & U & A & L).
    rewrite R, D, U, L. unfold accepted in *. cbn [map filter].
    unfold answered_ids in *. cbn [flat_map]. rewrite A.
    destruct (CreateReceipt_cases w b) as [[V C] | [V C]]; rewrite C, V;
      cbn [fst snd receipts uuids drawn app].
    + repeat split.
    + cbn [stamped List.length seq map]. rewrite <- app_assoc.
      cbn [app]. split; [reflexivity|].
      split; [lia|]. split; [reflexivity|]. split; reflexivity.
Qed.

End Store.

Module Handlers.

Import Main Notions Requests Facts Validator Store.

(** X1. [GetReceiptByID] answers 404 exactly when no stored receipt bears
    the identifier; and whatever the message, an answer 404 means that no
    stored receipt bears it: the identifier of a stored receipt is never
    answered with 404. *)
Theorem not_found_iff_unknown (P : Platform) (w : World) (id : string) :
  (GetReceiptByID P w id
   = Returns (StatusNotFound "No receipt found for that ID.")
   <-> forall r, In r (receipts w) -> ID r <> id)
  /\ (forall message,
        GetReceiptByID P w id = Returns (StatusNotFound message) ->
        forall r, In r (receipts w) -> ID r <> id).
Proof.
  assert (H : forall message,
             GetReceiptByID P w id = Returns (StatusNotFound message) ->
             forall r, In r (receipts w) -> ID r <> id).
  { unfold GetReceiptByID. intros message G r Hr E.
    destruct (find _ (receipts w)) as [r0|] eqn:F.
    - destruct (GetReceiptPoints P r0); discriminate.
    - apply (find_none _ _ F) in Hr. apply String.eqb_neq in Hr. auto. }
  split; [|exact H].
  split; [apply H|apply unknown_id_not_found].
Qed.

(** X2. Create, then look up. From the empty store, after any sequence of
    requests to [CreateReceipt] during which [uuid.New] repeats no
    identifier, every identifier that was answered with status 200 is
    answered by [GetReceiptByID] with the score of the receipt of that
    request, without a panic: later requests do not disturb it. *)
Theorem created_receipt_is_retrievable
    (P : Platform) (ids : nat -> string) (bodies : list Body)
    (b : Body) (id : string) :
  NoDup (map ids (seq 0 (List.length bodies))) ->
  In (b, StatusOK id) (combine bodies (fst (serve (start ids) bodies))) ->
  exists n,
    GetReceiptPoints P (fst (Decode b)) = Returns n
    /\ GetReceiptByID P (snd (serve (start ids) bodies)) id
       = Returns (PointsOK n).
Proof.
  intros ND Hin.
  apply (serve_round_trip P bodies (start ids) (store_ok_start ids) ND b id Hin).
Qed.

Lemma created_receipt_is_retrievable_witness :
  exists n,
    GetReceiptPoints amd64_latin1 (fst (Decode (Decoded target_receipt)))
    = Returns n
    /\ GetReceiptByID amd64_latin1
         (snd (serve (start (fun i => match i with O => "a" | S O => "b" | _ => "c" end))
                 [Decoded target_receipt; Malformed; Mistyped refund_receipt]))
         "a"
       = Returns (PointsOK n).
Proof.
  apply (created_receipt_is_retrievable amd64_latin1
           (fun i => match i with O => "a" | S O => "b" | _ => "c" end)
           [Decoded target_receipt; Malformed; Mistyped refund_receipt]
           (Decoded target_receipt) "a"%string).
  - cbn [List.length seq map].
    repeat constructor; cbn [In]; intuition discriminate.
  - vm_compute. left. reflexivity.
Defined.

(** X3. No store that [CreateReceipt] built from the empty one makes
    [GetReceiptByID] panic, whatever the bodies of the requests, the
    identifier asked for and the platform: every stored receipt passed
    the four checks, so the two slices of its score are in range. *)
Theorem lookup_never_panics
    (P : Platform) (ids : nat -> string) (bodies : list Body) (id : string) :
  exists reply,
    GetReceiptByID P (snd (serve (start ids) bodies)) id = Returns reply.
Proof.
  destruct (serve_keeps_store_ok bodies (start ids) (store_ok_start ids))
    as [HV _].
  unfold GetReceiptByID.
  destruct (find _ _) as [r|] eqn:F; [|eexists; reflexivity].
  apply find_some in F as [Hr _].
  rewrite Forall_forall in HV. specialize (HV r Hr).
  destruct (GetReceiptPoints_validated P r HV)
    as (y & m & d & h & mi & _ & _ & _ & _ & G).
  rewrite G. eexists. reflexivity.
Qed.

(** X4. What the store holds after a sequence of requests from the empty
    store: the receipts of the bodies that pass the four checks, in the
    order of the requests, under the first identifiers drawn; a rejected
    body stores nothing and draws no identifier; the identifiers answered
    with status 200 are those of the stored receipts; and every request
    is answered. *)
Theorem store_holds_the_accepted_receipts
    (ids : nat -> string) (bodies : list Body) :
  receipts (snd (serve (start ids) bodies))
  = stamped ids 0 (accepted bodies)
  /\ drawn (snd (serve (start ids) bodies)) = List.length (accepted bodies)
  /\ answered_ids (fst (serve (start ids) bodies))
     = map ID (receipts (snd (serve (start ids) bodies)))
  /\ List.length (fst (serve (start ids) bodies)) = List.length bodies
  /\ Forall (fun r => Validate r = true)
       (receipts (snd (serve (start ids) bodies))).
Proof.
  destruct (serve_contents bodies (start ids)) as (R & D & _ & A & L).
  cbn [start receipts drawn uuids app Nat.add] in R, D, A.
  split; [exact R|]. split; [exact D|].
  split; [rewrite A, R, stamped_ids; reflexivity|].
  split; [exact L|].
  apply (serve_keeps_store_ok bodies (start ids) (store_ok_start ids)).
Qed.

End Handlers.

(* ===================================================================== *)
(** * The rules and the checks, one by one *)
(* ===================================================================== *)

Module RuleFacts.

Import Main Notions Requests Facts RegexpFacts PatternFacts ItemFacts TimeFacts.

(** ** Bytes *)

Lemma code_range (c : ascii) : 0 <= code c < 256.
Proof.
  unfold code. pose proof (N_ascii_bounded c). lia.
Qed.

Lemma bytes_range (s : string) : Forall (fun c => 0 <= c < 256) (bytes s).
Proof.
  unfold bytes. apply Forall_forall. intros c Hc.
  apply in_map_iff in Hc as (a & <- & _). apply code_range.
Qed.

Lemma bytes_of_bytes (l : list Z) :
  Forall (fun c => 0 <= c < 256) l -> bytes (Strings.of_bytes l) = l.
Proof.
  unfold bytes, Strings.of_bytes. rewrite list_ascii_of_string_of_list_ascii.
  induction 1 as [|c l Hc _ IH]; cbn [map]; [reflexivity|].
  rewrite IH. f_equal. unfold code, Strings.byte_to_ascii.
  rewrite N_ascii_embedding by lia. lia.
Qed.

Lemma len_of_bytes (l : list Z) :
  len (Strings.of_bytes l) = Z.of_nat (List.length l).
Proof.
  unfold len, Strings.of_bytes. f_equal.
  induction l as [|c l IH]; cbn; congruence.
Qed.

(** ** The alphanumeric rule on ASCII text *)

Lemma runes_fuel_ascii (l : list Z) :
  forall fuel,
    (List.length l <= fuel)%nat ->
    forallb (fun c => c <? 128) l = true ->
    Utf8.runes_fuel fuel l = l.
Proof.
  induction l as [|c l IH]; intros fuel Hf Ha.
  - destruct fuel; reflexivity.
  - destruct fuel as [|fuel]; [cbn in Hf; lia|].
    cbn [forallb] in Ha. apply andb_true_iff in Ha as [Hc Ha].
    cbn [Utf8.runes_fuel Utf8.DecodeRune]. rewrite Hc. cbn [skipn].
    rewrite IH; [reflexivity|cbn in Hf; lia|exact Ha].
Qed.

Lemma alnum_ascii (P : Platform) (c : Z) :
  0 <= c < 128 ->
  Unicode.IsLetter P c || Unicode.IsDigit P c = ascii_alnum c.
Proof.
  intros H. unfold Unicode.IsLetter, Unicode.IsDigit, Unicode.MaxLatin1,
    Unicode.latin1_letter, ascii_alnum.
  replace (0 <=? c) with true by (symmetry; apply Z.leb_le; lia).
  replace (c <=? 255) with true by (symmetry; apply Z.leb_le; lia).
  cbn [andb].
  replace (c =? 170) with false by (symmetry; apply Z.eqb_neq; lia).
  replace (c =? 181) with false by (symmetry; apply Z.eqb_neq; lia).
  replace (c =? 186) with false by (symmetry; apply Z.eqb_neq; lia).
  replace (192 <=? c) with false by (symmetry; apply Z.leb_gt; lia).
  replace (216 <=? c) with false by (symmetry; apply Z.leb_gt; lia).
  replace (248 <=? c) with false by (symmetry; apply Z.leb_gt; lia).
  cbn [andb]. rewrite !orb_false_r.
  destruct ((48 <=? c) && (c <=? 57)), ((65 <=? c) && (c <=? 90)),
    ((97 <=? c) && (c <=? 122)); reflexivity.
Qed.

Lemma count_fold (f : Z -> bool) (l : list Z) :
  forall total,
    fold_left (fun t r => if f r then wrap64 (t + 1) else t) l (wrap64 total)
    = wrap64 (total + Z.of_nat (List.length (filter f l))).
Proof.
  induction l as [|r l IH]; intros total; cbn [fold_left filter].
  - cbn. now rewrite Z.add_0_r.
  - destruct (f r).
    + rewrite wrap64_add_l, IH. cbn [List.length]. f_equal. lia.
    + apply IH.
Qed.

Lemma fold_left_ext_in (A B : Type) (f g : A -> B -> A) (l : list B) :
  (forall a b, In b l -> f a b = g a b) ->
  forall a, fold_left f l a = fold_left g l a.
Proof.
  induction l as [|b l IH]; intros H a; cbn [fold_left]; [reflexivity|].
  rewrite (H a b (or_introl eq_refl)). apply IH.
  intros a' b' Hb. apply H. now right.
Qed.

Lemma GetAlphanumeric_ascii (P : Platform) (s : string) :
  forallb (fun c => c <? 128) (bytes s) = true ->
  GetAlphanumeric P s
  = wrap64 (Z.of_nat (List.length (filter ascii_alnum (bytes s)))).
Proof.
  intros Ha. unfold GetAlphanumeric, Utf8.runes.
  rewrite runes_fuel_ascii by (auto; lia).
  rewrite (fold_left_ext_in _ _ _
             (fun t r => if ascii_alnum r then wrap64 (t + 1) else t)).
  - change 0 with (wrap64 0) at 1. now rewrite count_fold.
  - intros a b Hb.
    rewrite alnum_ascii; [reflexivity|].
    pose proof (bytes_range s) as R. rewrite Forall_forall in R.
    specialize (R b Hb). rewrite forallb_forall in Ha.
    specialize (Ha b Hb). apply Z.ltb_lt in Ha. lia.
Qed.

Lemma retailer_byte_ascii (c : Z) : retailer_byte c = true -> (c <? 128) = true.
Proof.
  unfold retailer_byte, Regexp.word, Regexp.digit, Regexp.space, Regexp.lit.
  change (code "-") with 45. change (code "&") with 38.
  intros H. apply Z.ltb_lt.
  repeat (apply orb_true_iff in H as [H | H]);
    repeat (apply andb_true_iff in H as [? H]);
    rewrite ?Z.leb_le, ?Z.eqb_eq in *; lia.
Qed.

Lemma description_byte_ascii (c : Z) :
  description_byte c = true -> (c <? 128) = true.
Proof.
  intros H. apply retailer_byte_ascii. unfold retailer_byte.
  unfold description_byte in H. now rewrite H.
Qed.

Lemma forallb_impl (A : Type) (f g : A -> bool) (l : list A) :
  (forall a, f a = true -> g a = true) ->
  forallb f l = true -> forallb g l = true.
Proof.
  intros H. rewrite !forallb_forall. auto.
Qed.

Lemma CheckValidDescription_spec (s : string) :
  CheckValidDescription s = true
  <-> bytes s <> [] /\ forallb retailer_byte (bytes s) = true.
Proof. apply anchored_plus_class. Qed.

Lemma descPattern_spec (s : string) :
  Regexp.MatchString descPattern s = true
  <-> bytes s <> [] /\ forallb description_byte (bytes s) = true.
Proof. apply anchored_plus_class. Qed.


(** ** [strings.TrimSpace] on ASCII text *)

Lemma trim_start_ascii (l : list Z) :
  forallb (fun c => c <? 128) l = true ->
  Strings.trim_start l = (drop_spaces l, false).
Proof.
  induction l as [|c l IH]; intros Ha; cbn [Strings.trim_start drop_spaces].
  - reflexivity.
  - cbn [forallb] in Ha. apply andb_true_iff in Ha as [Hc Ha].
    apply Z.ltb_lt in Hc. unfold Utf8.RuneSelf.
    replace (128 <=? c) with false by (symmetry; apply Z.leb_gt; lia).
    destruct (Strings.asciiSpace c); [auto|reflexivity].
Qed.

Lemma drop_spaces_ascii (l : list Z) :
  forallb (fun c => c <? 128) l = true ->
  forallb (fun c => c <? 128) (drop_spaces l) = true.
Proof.
  induction l as [|c l IH]; intros Ha; cbn [drop_spaces]; [reflexivity|].
  destruct (Strings.asciiSpace c); [|exact Ha].
  cbn [forallb] in Ha. apply andb_true_iff in Ha as [_ Ha]. auto.
Qed.

Lemma forallb_rev (A : Type) (f : A -> bool) (l : list A) :
  forallb f l = true -> forallb f (rev l) = true.
Proof.
  rewrite !forallb_forall. intros H a Ha. apply H. now apply in_rev.
Qed.

Lemma TrimSpace_bytes_ascii (l : list Z) :
  forallb (fun c => c <? 128) l = true ->
  Strings.TrimSpace_bytes l = rev (drop_spaces (rev (drop_spaces l))).
Proof.
  intros Ha. unfold Strings.TrimSpace_bytes.
  rewrite (trim_start_ascii l Ha).
  rewrite trim_start_ascii; [reflexivity|].
  now apply forallb_rev, drop_spaces_ascii.
Qed.

Lemma drop_spaces_app (pre l : list Z) :
  forallb Strings.asciiSpace pre = true ->
  drop_spaces (pre ++ l) = drop_spaces l.
Proof.
  induction pre as [|c pre IH]; intros H; cbn [app drop_spaces forallb] in *.
  - reflexivity.
  - apply andb_true_iff in H as [Hc H]. rewrite Hc. auto.
Qed.

Lemma drop_spaces_none (l : list Z) :
  Strings.asciiSpace (hd 0 l) = false -> drop_spaces l = l.
Proof.
  destruct l as [|c l]; cbn [hd drop_spaces]; [reflexivity|].
  now intros ->.
Qed.

Lemma hd_rev_last (l : list Z) (d : Z) : hd d (rev l) = last l d.
Proof.
  induction l as [|c l IH]; [reflexivity|].
  cbn [rev]. destruct l as [|c' l]; [reflexivity|].
  change (last (c :: c' :: l) d) with (last (c' :: l) d). rewrite <- IH.
  cbn [rev]. destruct (rev l ++ [c']) eqn:E; [|reflexivity].
  now destruct (rev l).
Qed.

(** What [TrimSpace] leaves of ASCII text: the bytes from the first to
    the last that is no white space. *)
Lemma TrimSpace_bytes_core (pre core post : list Z) :
  forallb Strings.asciiSpace pre = true ->
  forallb Strings.asciiSpace post = true ->
  forallb (fun c => c <? 128) core = true ->
  Strings.asciiSpace (hd 0 core) = false ->
  Strings.asciiSpace (last core 0) = false ->
  Strings.TrimSpace_bytes (pre ++ core ++ post) = core.
Proof.
  intros Hpre Hpost Ha Hh Hl.
  assert (S : forall c, Strings.asciiSpace c = true -> (c <? 128) = true).
  { intros c H. unfold Strings.asciiSpace in H. apply Z.ltb_lt.
    repeat (apply orb_true_iff in H as [H | H]);
      apply Z.eqb_eq in H; lia. }
  rewrite TrimSpace_bytes_ascii.
  - rewrite drop_spaces_app by exact Hpre.
    destruct core as [|c core].
    + cbn [app]. rewrite <- (app_nil_r post) at 1.
      rewrite drop_spaces_app by exact Hpost. reflexivity.
    + rewrite (drop_spaces_none ((c :: core) ++ post)) by exact Hh.
      rewrite rev_app_distr, drop_spaces_app by now apply forallb_rev.
      rewrite (drop_spaces_none (rev (c :: core)))
        by now rewrite hd_rev_last.
      apply rev_involutive.
  - rewrite !forallb_app. rewrite Ha.
    rewrite (forallb_impl _ _ _ pre S Hpre), (forallb_impl _ _ _ post S Hpost).
    reflexivity.
Qed.


Lemma TrimSpace_bytes_blank (l : list Z) :
  forallb Strings.asciiSpace l = true -> Strings.TrimSpace_bytes l = [].
Proof.
  intros H.
  rewrite <- (app_nil_r l) at 1.
  apply (TrimSpace_bytes_core l [] [] H); reflexivity.
Qed.

Lemma space_asciiSpace (c : Z) :
  Regexp.space c = true -> Strings.asciiSpace c = true.
Proof.
  unfold Regexp.space, Strings.asciiSpace. intros H.
  repeat (apply orb_true_iff in H as [H | H]); rewrite H;
    rewrite ?orb_true_r; reflexivity.
Qed.

Lemma space_description_byte (c : Z) :
  Regexp.space c = true -> description_byte c = true.
Proof.
  unfold description_byte. intros ->. now rewrite orb_true_r.
Qed.

End RuleFacts.

(* ===================================================================== *)
(** * Dates and times *)
(* ===================================================================== *)

Module CalendarFacts.

Import Main Notions Requests Facts TimeFacts GoTime RuleFacts.

Lemma of_bytes_bytes (s : string) : Strings.of_bytes (bytes s) = s.
Proof.
  unfold Strings.of_bytes, bytes. rewrite map_map.
  rewrite <- (string_of_list_ascii_of_string s) at 2. f_equal.
  rewrite <- (map_id (list_ascii_of_string s)) at 2.
  apply map_ext. intros a. unfold Strings.byte_to_ascii, code.
  rewrite N2Z.id. apply ascii_N_embedding.
Qed.

Lemma digit_byte (c : Z) :
  (48 <=? c) && (c <=? 57) = true -> exists a, c = 48 + a /\ 0 <= a <= 9.
Proof.
  intros H. apply andb_true_iff in H as [H1 H2].
  apply Z.leb_le in H1, H2. exists (c - 48). lia.
Qed.

Lemma digit_byte_true (a : Z) :
  0 <= a <= 9 -> (48 <=? 48 + a) && (48 + a <=? 57) = true.
Proof.
  intros H. apply andb_true_iff. rewrite !Z.leb_le. lia.
Qed.

Lemma getyear_digits (a b c e : Z) (t : list Z) :
  0 <= a <= 9 -> 0 <= b <= 9 -> 0 <= c <= 9 -> 0 <= e <= 9 ->
  getyear (48 + a :: 48 + b :: 48 + c :: 48 + e :: t)
  = Some (a * 1000 + b * 100 + c * 10 + e, t).
Proof.
  intros Ha Hb Hc He. unfold getyear. cbn [forallb].
  rewrite !digit_byte_true by assumption. cbn [andb].
  do 2 f_equal. lia.
Qed.

Lemma getyear_inv (s : list Z) (y : Z) (t : list Z) :
  getyear s = Some (y, t) ->
  exists a b c e,
    s = 48 + a :: 48 + b :: 48 + c :: 48 + e :: t
    /\ 0 <= a <= 9 /\ 0 <= b <= 9 /\ 0 <= c <= 9 /\ 0 <= e <= 9
    /\ y = a * 1000 + b * 100 + c * 10 + e.
Proof.
  unfold getyear.
  destruct s as [|c0 [|c1 [|c2 [|c3 v]]]]; try discriminate.
  cbn [forallb].
  destruct ((48 <=? c0) && (c0 <=? 57)) eqn:E0; [|discriminate].
  destruct ((48 <=? c1) && (c1 <=? 57)) eqn:E1; [|discriminate].
  destruct ((48 <=? c2) && (c2 <=? 57)) eqn:E2; [|discriminate].
  destruct ((48 <=? c3) && (c3 <=? 57)) eqn:E3; [|discriminate].
  cbn [andb]. intros H. injection H as <- <-.
  apply digit_byte in E0 as (a & -> & Ha), E1 as (b & -> & Hb),
    E2 as (c & -> & Hc), E3 as (e & -> & He).
  exists a, b, c, e. repeat (split; [assumption||reflexivity|]). lia.
Qed.

Lemma getnum_two_digits (a b : Z) (t : list Z) (fixed : bool) :
  0 <= a <= 9 -> 0 <= b <= 9 ->
  getnum (48 + a :: 48 + b :: t) fixed = Some (a * 10 + b, t).
Proof.
  intros Ha Hb. unfold getnum, isDigit. cbn [nth_error].
  rewrite !digit_byte_true by assumption. cbn [negb].
  do 2 f_equal. lia.
Qed.

Lemma getnum_one_digit (a c : Z) (t : list Z) :
  0 <= a <= 9 -> (48 <=? c) && (c <=? 57) = false ->
  getnum (48 + a :: c :: t) false = Some (a, c :: t).
Proof.
  intros Ha Hc. unfold getnum, isDigit. cbn [nth_error].
  rewrite digit_byte_true by assumption. rewrite Hc. cbn [negb].
  do 2 f_equal. lia.
Qed.

Lemma getnum_inv (s : list Z) (fixed : bool) (n : Z) (t : list Z) :
  getnum s fixed = Some (n, t) ->
  (exists a b,
      s = 48 + a :: 48 + b :: t /\ 0 <= a <= 9 /\ 0 <= b <= 9
      /\ n = a * 10 + b)
  \/ (fixed = false /\ isDigit t 0 = false
      /\ s = 48 + n :: t /\ 0 <= n <= 9).
Proof.
  unfold getnum, isDigit.
  destruct s as [|c0 s]; cbn [nth_error negb]; [discriminate|].
  destruct ((48 <=? c0) && (c0 <=? 57)) eqn:E0; cbn [negb]; [|discriminate].
  apply digit_byte in E0 as (a & -> & Ha).
  destruct s as [|c1 s]; cbn [nth_error negb].
  - destruct fixed; [discriminate|]. intros H.
    assert (Hn : 48 + a - 48 = n) by congruence.
    assert (Ht : [] = t) by congruence. subst t. right. split; [reflexivity|]. split; [reflexivity|].
    split; [f_equal; lia|lia].
  - destruct ((48 <=? c1) && (c1 <=? 57)) eqn:E1; cbn [negb].
    + apply digit_byte in E1 as (b & -> & Hb).
      intros H.
      assert (Hn : (48 + a - 48) * 10 + (48 + b - 48) = n) by congruence.
      assert (Ht : s = t) by congruence. subst t. left. exists a, b.
      split; [reflexivity|]. split; [exact Ha|]. split; [exact Hb|]. lia.
    + destruct fixed; [discriminate|]. intros H.
      assert (Hn : 48 + a - 48 = n) by congruence.
      assert (Ht : c1 :: s = t) by congruence. subst t. right. cbn [nth_error]. rewrite E1.
      split; [reflexivity|]. split; [reflexivity|].
      split; [f_equal; lia|lia].
Qed.

Lemma skip_inv (v : list Z) (p : Z) (t : list Z) :
  skip v p = Some t -> v = p :: t.
Proof.
  unfold skip. destruct v as [|c v]; [discriminate|].
  destruct (c =? p) eqn:E; [|discriminate].
  apply Z.eqb_eq in E. subst c. intros H. now injection H as ->.
Qed.

Lemma skip_cons (p : Z) (t : list Z) : skip (p :: t) p = Some t.
Proof. unfold skip. now rewrite Z.eqb_refl. Qed.

Lemma two_digits_spec (a b : Z) :
  0 <= a <= 9 -> 0 <= b <= 9 -> two_digits (a * 10 + b) = [48 + a; 48 + b].
Proof.
  intros Ha Hb. unfold two_digits.
  replace ((a * 10 + b) / 10) with a
    by (Z.to_euclidean_division_equations; lia).
  replace ((a * 10 + b) mod 10) with b
    by (Z.to_euclidean_division_equations; lia).
  reflexivity.
Qed.

Lemma four_digits_spec (a b c e : Z) :
  0 <= a <= 9 -> 0 <= b <= 9 -> 0 <= c <= 9 -> 0 <= e <= 9 ->
  four_digits (a * 1000 + b * 100 + c * 10 + e)
  = [48 + a; 48 + b; 48 + c; 48 + e].
Proof.
  intros Ha Hb Hc He. unfold four_digits.
  replace ((a * 1000 + b * 100 + c * 10 + e) / 1000) with a
    by (Z.to_euclidean_division_equations; lia).
  replace ((a * 1000 + b * 100 + c * 10 + e) / 100) with (a * 10 + b)
    by (Z.to_euclidean_division_equations; lia).
  replace ((a * 1000 + b * 100 + c * 10 + e) / 10) with (a * 100 + b * 10 + c)
    by (Z.to_euclidean_division_equations; lia).
  replace ((a * 10 + b) mod 10) with b
    by (Z.to_euclidean_division_equations; lia).
  replace ((a * 100 + b * 10 + c) mod 10) with c
    by (Z.to_euclidean_division_equations; lia).
  replace ((a * 1000 + b * 100 + c * 10 + e) mod 10) with e
    by (Z.to_euclidean_division_equations; lia).
  reflexivity.
Qed.

(** A number below 100 is its two digits. *)
Lemma two_digits_split (n : Z) :
  0 <= n <= 99 ->
  exists a b, 0 <= a <= 9 /\ 0 <= b <= 9 /\ n = a * 10 + b.
Proof.
  intros H. exists (n / 10), (n mod 10).
  Z.to_euclidean_division_equations. lia.
Qed.

Lemma four_digits_split (n : Z) :
  0 <= n <= 9999 ->
  exists a b c e,
    0 <= a <= 9 /\ 0 <= b <= 9 /\ 0 <= c <= 9 /\ 0 <= e <= 9
    /\ n = a * 1000 + b * 100 + c * 10 + e.
Proof.
  intros H. exists (n / 1000), ((n / 100) mod 10), ((n / 10) mod 10), (n mod 10).
  Z.to_euclidean_division_equations. lia.
Qed.

Lemma daysIn_range (m y : Z) : 28 <= daysIn m y <= 31.
Proof.
  unfold daysIn. destruct (m =? 2); [destruct (isLeap y); lia|].
  destruct (_ || _); lia.
Qed.

Lemma digits_in_range (l : list Z) :
  Forall (fun c => 0 <= c < 256) l -> bytes (Strings.of_bytes l) = l.
Proof. apply bytes_of_bytes. Qed.

Lemma ParseDate_format (y m d : Z) :
  calendar_date y m d -> ParseDate (format_date y m d) = Some (y, m, d).
Proof.
  intros (Hy & Hm & Hd).
  pose proof (daysIn_range m y) as R.
  destruct (four_digits_split y Hy) as (a & b & c & e & Ha & Hb & Hc & He & Ey).
  destruct (two_digits_split m ltac:(lia)) as (m1 & m2 & Hm1 & Hm2 & Em).
  destruct (two_digits_split d ltac:(lia)) as (d1 & d2 & Hd1 & Hd2 & Ed).
  unfold ParseDate, format_date.
  rewrite Ey at 1. rewrite Em at 1. rewrite Ed at 1.
  rewrite four_digits_spec, !two_digits_spec by assumption.
  rewrite bytes_of_bytes
    by (cbn [app]; repeat constructor; lia).
  cbn [app]. rewrite getyear_digits by assumption.
  rewrite skip_cons.
  rewrite getnum_two_digits by assumption.
  rewrite <- Em, <- Ey.
  replace ((m <=? 0) || (12 <? m)) with false
    by (symmetry; apply orb_false_iff; rewrite Z.leb_gt, Z.ltb_ge; lia).
  rewrite skip_cons.
  rewrite getnum_two_digits by assumption.
  rewrite <- Ed.
  replace ((d <? 1) || (daysIn m y <? d)) with false
    by (symmetry; apply orb_false_iff; rewrite !Z.ltb_ge; lia).
  reflexivity.
Qed.

Lemma ParseDate_inv (s : string) (y m d : Z) :
  ParseDate s = Some (y, m, d) ->
  calendar_date y m d /\ s = format_date y m d.
Proof.
  unfold ParseDate.
  destruct (getyear (bytes s)) as [[year v1]|] eqn:E1; [|discriminate].
  destruct (skip v1 45) as [v2|] eqn:E2; [|discriminate].
  destruct (getnum v2 true) as [[month v3]|] eqn:E3; [|discriminate].
  destruct ((month <=? 0) || (12 <? month)) eqn:Bm; [discriminate|].
  destruct (skip v3 45) as [v4|] eqn:E4; [|discriminate].
  destruct (getnum v4 true) as [[day v5]|] eqn:E5; [|discriminate].
  destruct v5; [|discriminate].
  destruct ((day <? 1) || (daysIn month year <? day)) eqn:Bd; [discriminate|].
  intros H. injection H as <- <- <-.
  apply orb_false_iff in Bm as [Bm1 Bm2], Bd as [Bd1 Bd2].
  apply Z.leb_gt in Bm1. apply Z.ltb_ge in Bm2, Bd1, Bd2.
  apply getyear_inv in E1
    as (a & b & c & e & Es & Ha & Hb & Hc & He & Ey).
  apply skip_inv in E2, E4.
  apply getnum_inv in E3 as [(m1 & m2 & E3 & Hm1 & Hm2 & Em) | (F & _)];
    [|discriminate].
  apply getnum_inv in E5 as [(d1 & d2 & E5 & Hd1 & Hd2 & Ed) | (F & _)];
    [|discriminate].
  split; [unfold calendar_date; lia|].
  unfold format_date. rewrite Ey at 1. rewrite Em at 1. rewrite Ed at 1.
  rewrite four_digits_spec, !two_digits_spec by assumption.
  cbn [app]. rewrite <- (of_bytes_bytes s). f_equal.
  rewrite Es, E2, E3, E4, E5. reflexivity.
Qed.

Lemma ParseClock_format (h mi : Z) :
  clock_time h mi -> ParseClock (format_clock h mi) = Some (h, mi).
Proof.
  intros (Hh & Hmi).
  destruct (two_digits_split h ltac:(lia)) as (h1 & h2 & Hh1 & Hh2 & Eh).
  destruct (two_digits_split mi ltac:(lia)) as (m1 & m2 & Hm1 & Hm2 & Em).
  unfold ParseClock, format_clock.
  rewrite Eh at 1. rewrite Em at 1.
  rewrite !two_digits_spec by assumption.
  rewrite bytes_of_bytes by (cbn [app]; repeat constructor; lia).
  cbn [app]. rewrite getnum_two_digits by assumption. rewrite <- Eh.
  replace ((h <? 0) || (24 <=? h)) with false
    by (symmetry; apply orb_false_iff; rewrite Z.ltb_ge, Z.leb_gt; lia).
  rewrite skip_cons.
  rewrite getnum_two_digits by assumption. rewrite <- Em.
  replace ((mi <? 0) || (60 <=? mi)) with false
    by (symmetry; apply orb_false_iff; rewrite Z.ltb_ge, Z.leb_gt; lia).
  reflexivity.
Qed.

Lemma ParseClock_format_short (h mi : Z) :
  0 <= h <= 9 -> 0 <= mi <= 59 ->
  ParseClock (format_clock_short h mi) = Some (h, mi).
Proof.
  intros Hh Hmi.
  destruct (two_digits_split mi ltac:(lia)) as (m1 & m2 & Hm1 & Hm2 & Em).
  unfold ParseClock, format_clock_short.
  rewrite Em at 1. rewrite two_digits_spec by assumption.
  rewrite bytes_of_bytes by (cbn [app]; repeat constructor; lia).
  cbn [app]. rewrite getnum_one_digit by (auto; reflexivity).
  replace ((h <? 0) || (24 <=? h)) with false
    by (symmetry; apply orb_false_iff; rewrite Z.ltb_ge, Z.leb_gt; lia).
  rewrite skip_cons.
  rewrite getnum_two_digits by assumption. rewrite <- Em.
  replace ((mi <? 0) || (60 <=? mi)) with false
    by (symmetry; apply orb_false_iff; rewrite Z.ltb_ge, Z.leb_gt; lia).
  reflexivity.
Qed.

Lemma ParseClock_inv (s : string) (h mi : Z) :
  ParseClock s = Some (h, mi) ->
  clock_time h mi
  /\ (s = format_clock h mi \/ (h <= 9 /\ s = format_clock_short h mi)).
Proof.
  unfold ParseClock.
  destruct (getnum (bytes s) false) as [[hour v1]|] eqn:E1; [|discriminate].
  destruct ((hour <? 0) || (24 <=? hour)) eqn:Bh; [discriminate|].
  destruct (skip v1 58) as [v2|] eqn:E2; [|discriminate].
  destruct (getnum v2 true) as [[min v3]|] eqn:E3; [|discriminate].
  destruct ((min <? 0) || (60 <=? min)) eqn:Bm; [discriminate|].
  destruct v3; [|discriminate].
  intros H. injection H as <- <-.
  apply orb_false_iff in Bh as [Bh1 Bh2], Bm as [Bm1 Bm2].
  apply Z.ltb_ge in Bh1, Bm1. apply Z.leb_gt in Bh2, Bm2.
  apply skip_inv in E2.
  apply getnum_inv in E3 as [(m1 & m2 & E3 & Hm1 & Hm2 & Em) | (F & _)];
    [|discriminate].
  split; [unfold clock_time; lia|].
  apply getnum_inv in E1
    as [(h1 & h2 & E1 & Hh1 & Hh2 & Eh) | (_ & _ & E1 & Hh)].
  - left. unfold format_clock. rewrite Eh at 1. rewrite Em at 1.
    rewrite !two_digits_spec by assumption.
    cbn [app]. rewrite <- (of_bytes_bytes s). f_equal.
    rewrite E1, E2, E3. reflexivity.
  - right. split; [lia|]. unfold format_clock_short. rewrite Em at 1.
    rewrite two_digits_spec by assumption.
    cbn [app]. rewrite <- (of_bytes_bytes s). f_equal.
    rewrite E1, E2, E3. reflexivity.
Qed.

End CalendarFacts.

(* ===================================================================== *)
(** * Properties of the rules and of the checks *)
(* ===================================================================== *)

Module Rules.

Import Main Notions Requests Facts RegexpFacts PatternFacts ItemFacts
  TimeFacts Scorer Validator RuleFacts CalendarFacts.

(** X5. The total rule gives 0, 25 or 75 points and never 50 alone,
    whatever the text of the total and the platform: cents that are a
    multiple of 100 are a multiple of 25. *)
Theorem total_rule_gives_0_25_or_75 (P : Platform) (costStr : string) :
  GetTotalCostPoints P costStr = 0
  \/ GetTotalCostPoints P costStr = 25
  \/ GetTotalCostPoints P costStr = 75.
Proof.
  unfold GetTotalCostPoints.
  destruct (Strconv.ParseFloat costStr) as [f|]; [|now left].
  destruct (Z.rem (cents P f) 100 =? 0) eqn:E100.
  - apply Z.eqb_eq in E100. apply Z.rem_divide in E100; [|lia].
    assert (E25 : Z.rem (cents P f) 25 = 0).
    { apply Z.rem_divide; [lia|]. destruct E100 as [k ->].
      exists (k * 4). ring. }
    rewrite E25. right. right. reflexivity.
  - destruct (Z.rem (cents P f) 25 =? 0); [right; left|left]; reflexivity.
Qed.

Lemma desc_total_Permutation (P : Platform) (l l' : list Item) :
  Permutation l l' -> desc_total P l = desc_total P l'.
Proof.
  induction 1 as [|x l l' _ IH|x y l|l l' l'' _ IH1 _ IH2].
  - reflexivity.
  - change (desc_points P x + desc_total P l
            = desc_points P x + desc_total P l').
    now rewrite IH.
  - change (desc_points P y + (desc_points P x + desc_total P l)
            = desc_points P x + (desc_points P y + desc_total P l)).
    lia.
  - now rewrite IH1.
Qed.

(** X6. The points of the items do not depend on the order of the items,
    although the loop keeps a running count: two receipts whose items are
    a permutation of each other earn the same item points. *)
Theorem item_points_ignore_the_order (P : Platform) (r r' : Receipt) :
  Permutation (Items r) (Items r') ->
  GetItemPoints P r = GetItemPoints P r'.
Proof.
  intros H. rewrite !GetItemPoints_sum.
  now rewrite (Permutation_length H), (desc_total_Permutation P _ _ H).
Qed.

Lemma item_points_ignore_the_order_witness :
  GetItemPoints amd64_latin1
    (with_items [item "Gatorade" "2.25"; item "Pepsi 12PK" "5.75"])
  = GetItemPoints amd64_latin1
      (with_items [item "Pepsi 12PK" "5.75"; item "Gatorade" "2.25"]).
Proof.
  apply (item_points_ignore_the_order amd64_latin1
           (with_items [item "Gatorade" "2.25"; item "Pepsi 12PK" "5.75"])
           (with_items [item "Pepsi 12PK" "5.75"; item "Gatorade" "2.25"])).
  cbn [Items with_items]. apply perm_swap.
Defined.

Lemma slice_panics (s : string) (lo hi : Z) :
  slice s lo hi = Panic <-> ~ (0 <= lo <= hi /\ hi <= len s).
Proof.
  unfold slice.
  destruct ((0 <=? lo) && (lo <=? hi) && (hi <=? len s)) eqn:E.
  - apply andb_true_iff in E as [E E3]. apply andb_true_iff in E as [E1 E2].
    apply Z.leb_le in E1, E2, E3. split; [discriminate|]. intros H. lia.
  - split; [intros _|reflexivity]. intros [[H1 H2] H3].
    apply Z.leb_le in H1, H2, H3. now rewrite H1, H2, H3 in E.
Qed.

Lemma len_nonneg (s : string) : 0 <= len s.
Proof. unfold len. lia. Qed.

Lemma GetDatePoints_panics (s : string) :
  GetDatePoints s = Panic <-> len s < 2.
Proof.
  unfold GetDatePoints. pose proof (len_nonneg s) as L.
  destruct (slice s (len s - 2) (len s)) as [tail|] eqn:E; cbn [bind].
  - split; [destruct (Strconv.Atoi tail) as [day|]; discriminate|].
    intros H. assert (S : slice s (len s - 2) (len s) = Panic)
      by (apply slice_panics; lia).
    congruence.
  - split; [intros _|reflexivity]. apply slice_panics in E. lia.
Qed.

Lemma GetTimePoints_panics (s : string) :
  GetTimePoints s = Panic <-> len s < 2.
Proof.
  unfold GetTimePoints.
  destruct (slice s 0 2) as [head|] eqn:E; cbn [bind].
  - split; [destruct (Strconv.Atoi head) as [time|]; discriminate|].
    intros H. assert (S : slice s 0 2 = Panic)
      by (apply slice_panics; lia).
    congruence.
  - split; [intros _|reflexivity]. apply slice_panics in E. lia.
Qed.

(** X7. The odd-day rule panics exactly on a text shorter than two
    bytes: the slice [dateString[len(dateString)-2:]] is then out of
    range. On every other text it returns 0 or 6. *)
Theorem date_rule_panics_iff_short (dateString : string) :
  (GetDatePoints dateString = Panic <-> len dateString < 2)
  /\ (GetDatePoints dateString = Panic
      \/ GetDatePoints dateString = Returns 0
      \/ GetDatePoints dateString = Returns 6).
Proof.
  split; [apply GetDatePoints_panics|].
  unfold GetDatePoints.
  destruct (slice dateString (len dateString - 2) (len dateString))
    as [tail|]; cbn [bind]; [right|now left].
  destruct (Strconv.Atoi tail) as [day|]; [|now left].
  destruct (Z.rem day 2 =? 1); [right|left]; reflexivity.
Qed.

(** X8. The afternoon rule panics exactly on a text shorter than two
    bytes: the slice [timeString[:2]] is then out of range. On every
    other text it returns 0 or 10. *)
Theorem time_rule_panics_iff_short (timeString : string) :
  (GetTimePoints timeString = Panic <-> len timeString < 2)
  /\ (GetTimePoints timeString = Panic
      \/ GetTimePoints timeString = Returns 0
      \/ GetTimePoints timeString = Returns 10).
Proof.
  split; [apply GetTimePoints_panics|].
  unfold GetTimePoints.
  destruct (slice timeString 0 2) as [head|]; cbn [bind]; [right|now left].
  destruct (Strconv.Atoi head) as [time|]; [|now left].
  destruct ((14 <=? time) && (time <? 16)); [right|left]; reflexivity.
Qed.

(** X9. The score of a receipt, validated or not, panics exactly when
    the date or the time is shorter than two bytes; nothing else in the
    five rules can fail. The zero receipt, which a malformed body leaves,
    is such a receipt. *)
Theorem score_panics_iff_short_date_or_time (P : Platform) (r : Receipt) :
  (GetReceiptPoints P r = Panic
   <-> len (PurchaseDate r) < 2 \/ len (PurchaseTime r) < 2)
  /\ GetReceiptPoints P zeroReceipt = Panic.
Proof.
  split; [|reflexivity].
  unfold GetReceiptPoints.
  pose proof (GetDatePoints_panics (PurchaseDate r)) as D.
  pose proof (GetTimePoints_panics (PurchaseTime r)) as T.
  destruct (GetDatePoints (PurchaseDate r)) as [d|]; cbn [bind].
  - destruct (GetTimePoints (PurchaseTime r)) as [t|]; cbn [bind].
    + split; [discriminate|]. intros [H | H].
      * apply D in H. discriminate.
      * apply T in H. discriminate.
    + split; [intros _; right; now apply T|reflexivity].
  - split; [intros _; left; now apply D|reflexivity].
Qed.

Lemma rem2_odd (d : Z) : 0 <= d -> (Z.rem d 2 =? 1) = Z.odd d.
Proof.
  intros H. rewrite Z.rem_mod_nonneg by lia.
  rewrite Zmod_odd. destruct (Z.odd d); reflexivity.
Qed.

(** X10. The odd-day rule on the dates of the calendar: for every date
    written in the layout "2006-01-02", it gives 6 points when the day of
    the month is odd and 0 when it is even. *)
Theorem odd_day_rule_on_calendar_dates (y m d : Z) :
  calendar_date y m d ->
  GetDatePoints (format_date y m d) = Returns (if Z.odd d then 6 else 0).
Proof.
  intros H. rewrite (GetDatePoints_parsed _ y m d (ParseDate_format y m d H)).
  destruct H as (_ & _ & Hd). now rewrite rem2_odd by lia.
Qed.

Lemma odd_day_rule_on_calendar_dates_witness :
  GetDatePoints (format_date 2024 2 29)
  = Returns (if Z.odd 29 then 6 else 0).
Proof.
  apply (odd_day_rule_on_calendar_dates 2024 2 29).
  unfold calendar_date. vm_compute. intuition discriminate.
Defined.

(** X11. The afternoon rule on the times of the clock: for every time
    written in the layout "15:04", it gives 10 points when the hour is 14
    or 15 and 0 otherwise; written with the hour in one digit, which the
    validation accepts, it gives 0. *)
Theorem afternoon_rule_on_clock_times (h mi : Z) :
  clock_time h mi ->
  GetTimePoints (format_clock h mi)
  = Returns (if (14 <=? h) && (h <? 16) then 10 else 0)
  /\ (h <= 9 -> GetTimePoints (format_clock_short h mi) = Returns 0).
Proof.
  intros H. split.
  - apply (GetTimePoints_parsed _ h mi (ParseClock_format h mi H)).
  - intros H9. destruct H as (Hh & Hmi).
    rewrite (GetTimePoints_parsed _ h mi
               (ParseClock_format_short h mi ltac:(lia) Hmi)).
    replace (14 <=? h) with false by (symmetry; apply Z.leb_gt; lia).
    reflexivity.
Qed.

Lemma afternoon_rule_on_clock_times_witness :
  GetTimePoints (format_clock 15 59)
  = Returns (if (14 <=? 15) && (15 <? 16) then 10 else 0)
  /\ (15 <= 9 -> GetTimePoints (format_clock_short 15 59) = Returns 0).
Proof.
  apply (afternoon_rule_on_clock_times 15 59).
  unfold clock_time. lia.
Defined.

(** X12. What [CheckValidTime] accepts: exactly the dates of the calendar
    written as four digits of year, two of month and two of day with
    hyphens between (the day must exist in the month, 29 February in leap
    years only), together with the times of hour 0 to 23 and minute 0 to
    59 written [hh:mm] or, below ten o'clock, [h:mm]. *)
Theorem time_check_accepts_calendar_dates (dateString timeString : string) :
  CheckValidTime dateString timeString = true
  <-> exists y m d h mi,
        calendar_date y m d /\ clock_time h mi
        /\ dateString = format_date y m d
        /\ (timeString = format_clock h mi
            \/ (h <= 9 /\ timeString = format_clock_short h mi)).
Proof.
  unfold CheckValidTime. split.
  - destruct (GoTime.ParseDate dateString) as [[[y m] d]|] eqn:D;
      [|discriminate].
    destruct (GoTime.ParseClock timeString) as [[h mi]|] eqn:T;
      [|discriminate].
    intros _. apply ParseDate_inv in D as [D1 D2].
    apply ParseClock_inv in T as [T1 T2].
    exists y, m, d, h, mi. auto.
  - intros (y & m & d & h & mi & D & T & -> & [-> | [H9 ->]]).
    + now rewrite (ParseDate_format y m d D), (ParseClock_format h mi T).
    + destruct T as [Hh Hmi].
      rewrite (ParseDate_format y m d D).
      now rewrite (ParseClock_format_short h mi ltac:(lia) Hmi).
Qed.

(** X13. What [CheckValidDescription] accepts: the retailers of one or
    more bytes that are all a letter of ASCII, a digit, an underscore, a
    tab, a line feed, a form feed, a carriage return, a space, a hyphen
    or an ampersand. No byte above 127 passes, so no letter with an
    accent. *)
Theorem retailer_check_accepts (str : string) :
  (CheckValidDescription str = true
   <-> bytes str <> [] /\ forallb retailer_byte (bytes str) = true)
  /\ (CheckValidDescription str = true ->
      forallb (fun c => c <? 128) (bytes str) = true).
Proof.
  split; [apply CheckValidDescription_spec|].
  intros H. apply CheckValidDescription_spec in H as [_ H].
  apply (forallb_impl _ _ _ _ retailer_byte_ascii H).
Qed.

(** X14. On a retailer that passed [CheckValidDescription], the
    alphanumeric rule counts the bytes 0-9, A-Z and a-z, on every
    platform: the tables of [unicode] above U+00FF are never consulted.
    The count is that number as an [int64], and the number itself for
    every retailer that fits in memory. *)
Theorem alphanumeric_rule_on_checked_retailer (P : Platform) (str : string) :
  CheckValidDescription str = true ->
  GetAlphanumeric P str
  = wrap64 (Z.of_nat (List.length (filter ascii_alnum (bytes str))))
  /\ (len str <= max_int64 ->
      GetAlphanumeric P str
      = Z.of_nat (List.length (filter ascii_alnum (bytes str)))).
Proof.
  intros H. apply CheckValidDescription_spec in H as [_ H].
  pose proof (forallb_impl _ _ _ _ retailer_byte_ascii H) as Ha.
  rewrite (GetAlphanumeric_ascii P str Ha). split; [reflexivity|].
  intros L. apply wrap64_small.
  pose proof (filter_length_le ascii_alnum (bytes str)) as F.
  rewrite bytes_length in F. unfold len, min_int64, max_int64 in *. lia.
Qed.

Lemma alphanumeric_rule_on_checked_retailer_witness :
  GetAlphanumeric arm64_latin1 "M&M Corner Market"
  = wrap64 (Z.of_nat (List.length
                        (filter ascii_alnum (bytes "M&M Corner Market"))))
  /\ (len "M&M Corner Market" <= max_int64 ->
      GetAlphanumeric arm64_latin1 "M&M Corner Market"
      = Z.of_nat (List.length
                    (filter ascii_alnum (bytes "M&M Corner Market")))).
Proof.
  apply (alphanumeric_rule_on_checked_retailer arm64_latin1
           "M&M Corner Market"%string).
  vm_compute. reflexivity.
Defined.

Lemma check_items_spec (items : list Item) :
  check_items items = true
  <-> forall it, In it items ->
        Regexp.MatchString pricePattern (Price it) = true
        /\ Regexp.MatchString descPattern (ShortDescription it) = true.
Proof.
  induction items as [|it items IH]; cbn [check_items].
  - split; [intros _ it []|reflexivity].
  - destruct (Regexp.MatchString pricePattern (Price it)) eqn:Ep; cbn [negb].
    + destruct (Regexp.MatchString descPattern (ShortDescription it)) eqn:Ed;
        cbn [negb].
      * rewrite IH. split.
        -- intros H it' [<- | Hi]; [now rewrite Ep, Ed|now apply H].
        -- intros H it' Hi. apply H. now right.
      * split; [discriminate|]. intros H.
        destruct (H it (or_introl eq_refl)) as [_ H2]. congruence.
    + split; [discriminate|]. intros H.
      destruct (H it (or_introl eq_refl)) as [H1 _]. congruence.
Qed.

(** X15. What [CheckItemsValidity] accepts: the receipts with one item or
    more in which every price ends with digits, a point and two digits,
    and every description is one or more bytes that are all a letter of
    ASCII, a digit, an underscore, white space or a hyphen. *)
Theorem items_check_accepts (receipt : Receipt) :
  CheckItemsValidity receipt = true
  <-> Items receipt <> []
      /\ forall it, In it (Items receipt) ->
           price_suffix (Price it)
           /\ bytes (ShortDescription it) <> []
           /\ forallb description_byte (bytes (ShortDescription it)) = true.
Proof.
  unfold CheckItemsValidity, price_suffix.
  destruct (Items receipt) as [|it0 items] eqn:E.
  - cbn. split; [discriminate|]. now intros [H _].
  - replace (Z.of_nat (List.length (it0 :: items)) <? 1) with false
      by (symmetry; apply Z.ltb_ge; cbn [List.length]; lia).
    rewrite check_items_spec. split.
    + intros H. split; [discriminate|]. intros it Hi.
      destruct (H it Hi) as [H1 H2].
      apply price_pattern_accepts in H1. apply descPattern_spec in H2. auto.
    + intros [_ H] it Hi. destruct (H it Hi) as [H1 H2].
      split; [now apply price_pattern_accepts|now apply descPattern_spec].
Qed.

(** X16. What the description rule measures. When a description is white
    space, then a core of ASCII bytes that neither starts nor ends with
    white space, then white space, [strings.TrimSpace] returns the core,
    and the length the rule tests is the number of bytes of the core. *)
Theorem trimmed_description_is_the_core
    (desc : string) (pre core post : list Z) :
  bytes desc = pre ++ core ++ post ->
  forallb Strings.asciiSpace pre = true ->
  forallb Strings.asciiSpace post = true ->
  forallb (fun c => c <? 128) core = true ->
  Strings.asciiSpace (hd 0 core) = false ->
  Strings.asciiSpace (last core 0) = false ->
  Strings.TrimSpace desc = Strings.of_bytes core
  /\ len (Strings.TrimSpace desc) = Z.of_nat (List.length core).
Proof.
  intros E Hpre Hpost Ha Hh Hl. unfold Strings.TrimSpace.
  rewrite E, (TrimSpace_bytes_core pre core post Hpre Hpost Ha Hh Hl).
  split; [reflexivity|apply len_of_bytes].
Qed.

Lemma trimmed_description_is_the_core_witness :
  Strings.TrimSpace "   Klarbrunn 12-PK 12 FL OZ  "
  = Strings.of_bytes (bytes "Klarbrunn 12-PK 12 FL OZ")
  /\ len (Strings.TrimSpace "   Klarbrunn 12-PK 12 FL OZ  ")
     = Z.of_nat (List.length (bytes "Klarbrunn 12-PK 12 FL OZ")).
Proof.
  apply (trimmed_description_is_the_core
           "   Klarbrunn 12-PK 12 FL OZ  "
           (bytes "   ") (bytes "Klarbrunn 12-PK 12 FL OZ") (bytes "  "));
    vm_compute; reflexivity.
Defined.

(** X17. A description of white space only (tabs, line feeds, form
    feeds, carriage returns, spaces) passes the check of the
    descriptions, so that [CheckItemsValidity] on a receipt with that
    item alone is the check of its price; [strings.TrimSpace] leaves the
    empty string, whose length 0 is a multiple of 3; and [GetItemPoints]
    on that receipt is the share of the price whenever the price parses,
    0 otherwise. *)
Theorem blank_description_earns_the_share (P : Platform) (it : Item) :
  bytes (ShortDescription it) <> [] ->
  forallb Regexp.space (bytes (ShortDescription it)) = true ->
  CheckItemsValidity (with_items [it]) = CheckPriceValidity (Price it)
  /\ Strings.TrimSpace (ShortDescription it) = ""%string
  /\ GetItemPoints P (with_items [it])
     = match Strconv.ParseFloat (Price it) with
       | Strconv.Ok itemPriceFloat => price_share P itemPriceFloat
       | Strconv.Err _ => 0
       end.
Proof.
  intros Hne Hs.
  assert (Hsp : forallb Strings.asciiSpace (bytes (ShortDescription it)) = true).
  { apply (forallb_impl _ _ _ _ space_asciiSpace Hs). }
  assert (T : Strings.TrimSpace (ShortDescription it) = ""%string).
  { unfold Strings.TrimSpace.
    now rewrite (TrimSpace_bytes_blank _ Hsp). }
  assert (D : Regexp.MatchString descPattern (ShortDescription it) = true).
  { apply descPattern_spec. split; [exact Hne|].
    apply (forallb_impl _ _ _ _ space_description_byte Hs). }
  split; [|split; [exact T|]].
  - unfold CheckItemsValidity, CheckPriceValidity.
    cbn [Items with_items List.length check_items].
    change (Z.of_nat 1 <? 1) with false. cbv iota. rewrite D.
    destruct (Regexp.MatchString pricePattern (Price it)); reflexivity.
  - rewrite GetItemPoints_sum.
    cbn [Items with_items List.length desc_total fold_right].
    change (Z.of_nat 1 / 2) with 0. rewrite Z.mul_0_r, Z.add_0_l, Z.add_0_r.
    unfold desc_points. rewrite T.
    change (Z.rem (len "") 3 =? 0) with true. cbv iota.
    destruct (Strconv.ParseFloat (Price it)) as [f|e].
    + apply wrap64_small. unfold price_share. apply to_int_range.
    + reflexivity.
Qed.

Lemma blank_description_earns_the_share_witness :
  CheckItemsValidity (with_items [item "   " "12.25"])
  = CheckPriceValidity (Price (item "   " "12.25"))
  /\ Strings.TrimSpace (ShortDescription (item "   " "12.25")) = ""%string
  /\ GetItemPoints amd64_latin1 (with_items [item "   " "12.25"])
     = match Strconv.ParseFloat (Price (item "   " "12.25")) with
       | Strconv.Ok itemPriceFloat => price_share amd64_latin1 itemPriceFloat
       | Strconv.Err _ => 0
       end.
Proof.
  apply (blank_description_earns_the_share amd64_latin1 (item "   " "12.25")).
  - discriminate.
  - reflexivity.
Defined.

(** C10. A time with one digit for the hour, [h:mm] with [h] from 0 to
    9, such as "9:30", passes the check of the time format: [time.Parse]
    reads it as [h] hours [mm] minutes, so [CheckValidTime] accepts it
    with every date that parses. On a receipt that holds it, the
    afternoon rule takes the slice of the first two bytes, the digit and
    the colon, which [Atoi] refuses, and returns 0 without a panic: the
    score of a validated receipt with such a time is the sum of the
    other four rules. *)
Theorem single_digit_hour (h mi : Z) :
  0 <= h <= 9 -> 0 <= mi <= 59 ->
  GoTime.ParseClock (format_clock_short h mi) = Some (h, mi)
  /\ (forall dateString y m d,
         GoTime.ParseDate dateString = Some (y, m, d) ->
         CheckValidTime dateString (format_clock_short h mi) = true)
  /\ (exists head,
         slice (format_clock_short h mi) 0 2 = Returns head
         /\ bytes head = [48 + h; 58]
         /\ Strconv.Atoi head = Strconv.Err Strconv.ErrSyntax)
  /\ GetTimePoints (format_clock_short h mi) = Returns 0
  /\ (forall P r,
         Validate r = true ->
         PurchaseTime r = format_clock_short h mi ->
         exists y m d,
           GoTime.ParseDate (PurchaseDate r) = Some (y, m, d)
           /\ GetReceiptPoints P r
              = Returns (wrap64 (GetAlphanumeric P (Retailer r)
                                 + GetTotalCostPoints P (Total r)
                                 + GetItemPoints P r
                                 + (if Z.rem d 2 =? 1 then 6 else 0)
                                 + 0)))
  /\ format_clock_short 9 30 = "9:30"%string.
Proof.
  intros Hh Hmi.
  pose proof (ParseClock_format_short h mi Hh Hmi) as C.
  destruct (two_digits_split mi ltac:(lia)) as (m1 & m2 & Hm1 & Hm2 & Em).
  assert (Eb : bytes (format_clock_short h mi)
               = [48 + h; 58; 48 + m1; 48 + m2]).
  { unfold format_clock_short. rewrite Em at 1.
    rewrite two_digits_spec by assumption.
    apply bytes_of_bytes. cbn [app]. repeat constructor; lia. }
  assert (L : len (format_clock_short h mi) = 4).
  { rewrite len_bytes, Eb. reflexivity. }
  assert (Hd : dig (48 + h) = true).
  { unfold dig. apply andb_true_iff. rewrite !Z.leb_le. lia. }
  assert (G : GetTimePoints (format_clock_short h mi) = Returns 0).
  { rewrite (GetTimePoints_parsed _ h mi C).
    replace (14 <=? h) with false by (symmetry; apply Z.leb_gt; lia).
    reflexivity. }
  split; [exact C|]. split; [|split; [|split; [exact G|split]]].
  - intros dateString y m d D. unfold CheckValidTime. now rewrite D, C.
  - exists (substring 0 2 (format_clock_short h mi)).
    assert (Bh : bytes (substring 0 2 (format_clock_short h mi))
                 = [48 + h; 58]).
    { rewrite bytes_substring, Eb. reflexivity. }
    split; [|split; [exact Bh|]].
    + rewrite slice_in_range by lia. reflexivity.
    + apply (Atoi_digit_colon _ (48 + h) Bh Hd).
  - intros P r V Et.
    destruct (GetReceiptPoints_validated P r V)
      as (y & m & d & h' & mi' & D & C' & _ & _ & E).
    rewrite Et, C in C'.
    assert (Eh : h' = h) by congruence. subst h'.
    exists y, m, d. split; [exact D|].
    rewrite E.
    replace (14 <=? h) with false by (symmetry; apply Z.leb_gt; lia).
    reflexivity.
  - reflexivity.
Qed.

Lemma single_digit_hour_witness :
  GoTime.ParseClock (format_clock_short 9 30) = Some (9, 30)
  /\ (forall dateString y m d,
         GoTime.ParseDate dateString = Some (y, m, d) ->
         CheckValidTime dateString (format_clock_short 9 30) = true)
  /\ (exists head,
         slice (format_clock_short 9 30) 0 2 = Returns head
         /\ bytes head = [48 + 9; 58]
         /\ Strconv.Atoi head = Strconv.Err Strconv.ErrSyntax)
  /\ GetTimePoints (format_clock_short 9 30) = Returns 0
  /\ (forall P r,
         Validate r = true ->
         PurchaseTime r = format_clock_short 9 30 ->
         exists y m d,
           GoTime.ParseDate (PurchaseDate r) = Some (y, m, d)
           /\ GetReceiptPoints P r
              = Returns (wrap64 (GetAlphanumeric P (Retailer r)
                                 + GetTotalCostPoints P (Total r)
                                 + GetItemPoints P r
                                 + (if Z.rem d 2 =? 1 then 6 else 0)
                                 + 0)))
  /\ format_clock_short 9 30 = "9:30"%string.
Proof.
  apply (single_digit_hour 9 30); lia.
Defined.

End Rules.

(* ===================================================================== *)
(** * Rounding to the nearest float64 *)
(* ===================================================================== *)

Module RoundingFacts.

Import Go Float64 Notions Money FloatFacts.

(** ** Where the exact value lies after a shift *)

Lemma loc_of_shr_record_of_loc (m : Z) (l : location) :
  loc_of_shr_record (shr_record_of_loc m l) = l.
Proof. destruct l as [|[| |]]; reflexivity. Qed.

Lemma shr_1_located (mrs : shr_record) (A B : Z) :
  0 <= shr_m mrs -> 0 < B ->
  located (shr_m mrs) (loc_of_shr_record mrs) A B ->
  located (shr_m (shr_1 mrs)) (loc_of_shr_record (shr_1 mrs)) A (2 * B).
Proof.
  destruct mrs as [m r s]. cbn [shr_m]. intros Hm HB.
  destruct m as [|[p|p|]|p]; try lia;
    destruct r, s; cbn [shr_1 orb loc_of_shr_record located shr_m]; lia.
Qed.

Lemma shr_1_nonneg (mrs : shr_record) :
  0 <= shr_m mrs -> 0 <= shr_m (shr_1 mrs).
Proof.
  intros H. rewrite shr_1_m by assumption. now apply Z.shiftr_nonneg.
Qed.

Lemma iter_shr_1_nonneg (p : positive) (mrs : shr_record) :
  0 <= shr_m mrs -> 0 <= shr_m (iter_pos shr_1 p mrs).
Proof.
  intros H. rewrite iter_shr_1_m by assumption. now apply Z.shiftr_nonneg.
Qed.

Lemma iter_shr_1_located (p : positive) (A : Z) :
  forall mrs B,
    0 <= shr_m mrs -> 0 < B ->
    located (shr_m mrs) (loc_of_shr_record mrs) A B ->
    located (shr_m (iter_pos shr_1 p mrs))
      (loc_of_shr_record (iter_pos shr_1 p mrs)) A (2 ^ Z.pos p * B).
Proof.
  induction p as [p IH|p IH|]; intros mrs B Hm HB HL; cbn [iter_pos];
    try assert (P2 : 0 < 2 ^ Z.pos p) by (apply Z.pow_pos_nonneg; lia).
  - replace (2 ^ Z.pos p~1 * B) with (2 ^ Z.pos p * (2 ^ Z.pos p * (2 * B))).
    + apply IH; [apply iter_shr_1_nonneg; now apply shr_1_nonneg|nia|].
      apply IH; [now apply shr_1_nonneg|lia|]. now apply shr_1_located.
    + replace (Z.pos p~1) with (Z.pos p + Z.pos p + 1) by lia.
      rewrite !Z.pow_add_r by lia. change (2 ^ 1) with 2. ring.
  - replace (2 ^ Z.pos p~0 * B) with (2 ^ Z.pos p * (2 ^ Z.pos p * B)).
    + apply IH; [now apply iter_shr_1_nonneg|nia|]. now apply IH.
    + replace (Z.pos p~0) with (Z.pos p + Z.pos p) by lia.
      rewrite !Z.pow_add_r by lia. ring.
  - change (2 ^ 1) with 2. now apply shr_1_located.
Qed.

Lemma shr_fexp_located (m e : Z) (l : location) (A B : Z) :
  0 <= m -> 0 < B ->
  located m l A B ->
  let n := Z.max 0 (fexp prec emax (Zdigits2 m + e) - e) in
  located (shr_m (fst (shr_fexp prec emax m e l)))
    (loc_of_shr_record (fst (shr_fexp prec emax m e l))) A (2 ^ n * B).
Proof.
  intros Hm HB HL n. unfold shr_fexp. fold (fexp prec emax (Zdigits2 m + e) - e).
  subst n. set (k := fexp prec emax (Zdigits2 m + e) - e).
  assert (H0 : located (shr_m (shr_record_of_loc m l))
                 (loc_of_shr_record (shr_record_of_loc m l)) A B).
  { now rewrite shr_record_of_loc_m, loc_of_shr_record_of_loc. }
  assert (Hm0 : 0 <= shr_m (shr_record_of_loc m l))
    by now rewrite shr_record_of_loc_m.
  destruct k as [|p|p]; cbn [shr fst].
  - change (2 ^ Z.max 0 0 * B) with (1 * B). now rewrite Z.mul_1_l.
  - replace (Z.max 0 (Z.pos p)) with (Z.pos p) by lia.
    now apply iter_shr_1_located.
  - replace (Z.max 0 (Z.neg p)) with 0 by lia.
    change (2 ^ 0 * B) with (1 * B). now rewrite Z.mul_1_l.
Qed.

(** Rounding to nearest, ties to even, is off by half a unit at most. *)
Lemma round_nearest_even_located (m : Z) (l : location) (A B : Z) :
  0 < B ->
  located m l A B ->
  2 * (round_nearest_even m l * B - A) <= B
  /\ 2 * (A - round_nearest_even m l * B) <= B.
Proof.
  intros HB. unfold round_nearest_even.
  destruct l as [|[| |]]; cbn [located]; try destruct (Z.even m); lia.
Qed.

(** ** The number of binary digits, exactly *)

Lemma Zdigits2_unique (m k : Z) :
  0 < k -> 2 ^ (k - 1) <= m < 2 ^ k -> Zdigits2 m = k.
Proof.
  intros Hk [L U].
  assert (P0 : 0 < 2 ^ (k - 1)) by (apply Z.pow_pos_nonneg; lia).
  assert (Hle : Zdigits2 m <= k) by (apply Zdigits2_le; lia).
  destruct (Z_le_gt_dec (Zdigits2 m) (k - 1)) as [H|H]; [exfalso|lia].
  pose proof (Zdigits2_lt_pow m (k - 1) ltac:(lia) H). lia.
Qed.

Lemma Zdigits2_bounds (m : Z) :
  0 < m -> 2 ^ (Zdigits2 m - 1) <= m < 2 ^ Zdigits2 m.
Proof.
  intros H. split; [now apply Zdigits2_lower|apply Zdigits2_upper; lia].
Qed.


(** ** Rounding a mantissa of 53 digits or more *)

(** [binary_round_aux] on a mantissa of 53 digits or more, in the range
    of the normal numbers: the result has 53 digits and is off the exact
    value [A / B * 2^ex] by half a unit of its last place at most. *)
Lemma binary_round_aux_nearest
    (sx : bool) (mx ex : Z) (lx : location) (A B : Z) :
  0 < mx -> 0 < B -> located mx lx A B ->
  53 <= Zdigits2 mx ->
  -1074 <= Zdigits2 mx + ex - 53 ->
  Zdigits2 mx + ex <= 1023 ->
  exists m e,
    binary_round_aux prec emax sx mx ex lx = S754_finite sx m e
    /\ 2 ^ 52 <= Z.pos m < 2 ^ 53
    /\ Zdigits2 mx - 53 <= e - ex <= Zdigits2 mx - 52
    /\ 2 * (Z.pos m * 2 ^ (e - ex) * B - A) <= 2 ^ (e - ex) * B
    /\ 2 * (A - Z.pos m * 2 ^ (e - ex) * B) <= 2 ^ (e - ex) * B.
Proof.
  intros Hm HB HL Hd Hlo Hhi. unfold binary_round_aux.
  pose proof (shr_fexp_spec mx ex lx ltac:(lia)) as [M1 E1].
  cbv zeta in M1, E1.
  pose proof (shr_fexp_located mx ex lx A B ltac:(lia) HB HL) as L1.
  cbv zeta in L1.
  pose proof (Zdigits2_bounds mx Hm) as [Lo Up].
  set (d := Zdigits2 mx) in *.
  assert (N1 : Z.max 0 (fexp prec emax (d + ex) - ex) = d - 53).
  { unfold fexp, emin, prec, emax. lia. }
  rewrite N1 in M1, E1, L1.
  destruct (shr_fexp prec emax mx ex lx) as [mrs1 e1].
  cbn [fst snd] in M1, E1, L1.
  set (n1 := d - 53) in *. set (m1 := shr_m mrs1) in *.
  assert (P1 : 0 < 2 ^ n1) by (apply Z.pow_pos_nonneg; lia).
  assert (P52 : 2 ^ 52 = 4503599627370496) by reflexivity.
  assert (P53 : 2 ^ 53 = 9007199254740992) by reflexivity.
  assert (Hm1 : 2 ^ 52 <= m1 < 2 ^ 53).
  { rewrite M1, Z.shiftr_div_pow2 by lia.
    assert (Q1 : 2 ^ (d - 1) = 2 ^ 52 * 2 ^ n1).
    { rewrite <- Z.pow_add_r by lia. f_equal. lia. }
    assert (Q2 : 2 ^ d = 2 ^ 53 * 2 ^ n1).
    { rewrite <- Z.pow_add_r by lia. f_equal. lia. }
    split.
    - apply Z.div_le_lower_bound; lia.
    - apply Z.div_lt_upper_bound; lia. }
  pose proof (round_nearest_even_range m1 (loc_of_shr_record mrs1)) as R.
  pose proof (round_nearest_even_located m1 (loc_of_shr_record mrs1) A
                (2 ^ n1 * B) ltac:(nia) L1) as [Ac1 Ac2].
  set (m2 := round_nearest_even m1 (loc_of_shr_record mrs1)) in *.
  pose proof (shr_fexp_spec m2 e1 loc_Exact ltac:(lia)) as [M3 E3].
  cbv zeta in M3, E3.
  destruct (shr_fexp prec emax m2 e1 loc_Exact) as [mrs3 e3].
  cbn [fst snd] in M3, E3.
  destruct (Z_lt_le_dec m2 (2 ^ 53)) as [C|C].
  - (* the rounded mantissa still has 53 digits *)
    assert (D2 : Zdigits2 m2 = 53).
    { apply Zdigits2_unique; [lia|]. change (53 - 1) with 52. lia. }
    rewrite D2 in M3, E3.
    assert (N2 : Z.max 0 (fexp prec emax (53 + e1) - e1) = 0).
    { unfold fexp, emin, prec, emax. lia. }
    rewrite N2 in M3, E3. rewrite Z.shiftr_0_r in M3. rewrite M3.
    destruct m2 as [|p|p] eqn:Em2; try lia.
    replace (e3 <=? emax - prec) with true
      by (symmetry; apply Z.leb_le; unfold emax, prec; lia).
    exists p, e3. split; [reflexivity|]. split; [lia|]. split; [lia|].
    replace (e3 - ex) with n1 by lia.
    rewrite <- (Z.mul_assoc (Z.pos p)). split; assumption.
  - (* the rounding carried into a 54th digit *)
    assert (Em2 : m2 = 2 ^ 53) by lia.
    assert (D2 : Zdigits2 m2 = 54) by (rewrite Em2; reflexivity).
    rewrite D2 in M3, E3.
    assert (N2 : Z.max 0 (fexp prec emax (54 + e1) - e1) = 1).
    { unfold fexp, emin, prec, emax. lia. }
    rewrite N2 in M3, E3. rewrite Em2 in M3.
    change (Z.shiftr (2 ^ 53) 1) with 4503599627370496 in M3. rewrite M3.
    replace (e3 <=? emax - prec) with true
      by (symmetry; apply Z.leb_le; unfold emax, prec; lia).
    exists 4503599627370496%positive, e3.
    split; [reflexivity|]. split; [lia|]. split; [lia|].
    replace (e3 - ex) with (n1 + 1) by lia.
    rewrite Z.pow_add_r by lia. change (2 ^ 1) with 2.
    rewrite Em2 in Ac1, Ac2. split; lia.
Qed.

(** A mantissa of 53 digits with nothing to round stays as it is. *)
Lemma binary_round_aux_exact (sx : bool) (m : positive) (e : Z) :
  Zdigits2 (Z.pos m) = 53 -> -1074 <= e <= 971 ->
  binary_round_aux prec emax sx (Z.pos m) e loc_Exact = S754_finite sx m e.
Proof.
  intros D He. unfold binary_round_aux, shr_fexp. rewrite D.
  replace (fexp prec emax (53 + e) - e) with 0
    by (unfold fexp, emin, prec, emax; lia).
  cbn [shr shr_record_of_loc shr_m loc_of_shr_record round_nearest_even].
  rewrite D.
  replace (fexp prec emax (53 + e) - e) with 0
    by (unfold fexp, emin, prec, emax; lia).
  cbn [shr shr_record_of_loc shr_m].
  replace (e <=? emax - prec) with true
    by (symmetry; apply Z.leb_le; unfold emax, prec; lia).
  reflexivity.
Qed.

End RoundingFacts.

(* ===================================================================== *)
(** * The float arithmetic of the rules *)
(* ===================================================================== *)

Module ArithFacts.

Import Go Float64 Notions Money FloatFacts RoundingFacts.

(** ** Division by 100 *)

(** The float64 of [N] hundredths: a mantissa of 53 digits, off [N / 100]
    by half a unit of its last place at most. The exact value and the
    float are compared at the scale [2^s] of the long division. *)
Lemma of_ratio_100 (N : positive) :
  Z.pos N < 2 ^ 50 ->
  exists m e s,
    of_ratio false N 100 = S754_finite false m e
    /\ 2 ^ 52 <= Z.pos m < 2 ^ 53
    /\ 10 <= s <= 59 /\ 0 <= e + s <= 2
    /\ 2 * (100 * (Z.pos m * 2 ^ (e + s)) - Z.pos N * 2 ^ s) <= 100 * 2 ^ (e + s)
    /\ 2 * (Z.pos N * 2 ^ s - 100 * (Z.pos m * 2 ^ (e + s))) <= 100 * 2 ^ (e + s).
Proof.
  intros HN. unfold of_ratio, SFdiv_core_binary.
  pose proof (Zdigits2_bounds (Z.pos N) ltac:(lia)) as [Lo Up].
  assert (D50 : Zdigits2 (Z.pos N) <= 50) by (apply Zdigits2_le; lia).
  assert (D1 : 1 <= Zdigits2 (Z.pos N)) by (cbn [Zdigits2]; lia).
  set (d1 := Zdigits2 (Z.pos N)) in *.
  change (Zdigits2 100) with 7.
  set (e' := Z.min (fexp prec emax (d1 + 0 - (7 + 0))) (0 - 0)).
  assert (Ee : e' = d1 - 60).
  { unfold e', fexp, emin, prec, emax. lia. }
  set (s := 0 - 0 - e').
  assert (Es : s = 60 - d1) by (unfold s; lia).
  set (m' := match s with
             | 0 => Z.pos N
             | Z.pos _ => Z.shiftl (Z.pos N) s
             | Z.neg _ => 0
             end).
  assert (Em : m' = Z.pos N * 2 ^ s).
  { unfold m'. destruct s eqn:E; try lia.
    rewrite Z.shiftl_mul_pow2 by lia. reflexivity. }
  assert (Ps : 0 < 2 ^ s) by (apply Z.pow_pos_nonneg; lia).
  assert (B59 : 2 ^ 59 <= m' < 2 ^ 60).
  { rewrite Em.
    assert (Q1 : 2 ^ 59 = 2 ^ (d1 - 1) * 2 ^ s).
    { rewrite <- Z.pow_add_r by lia. f_equal. lia. }
    assert (Q2 : 2 ^ 60 = 2 ^ d1 * 2 ^ s).
    { rewrite <- Z.pow_add_r by lia. f_equal. lia. }
    rewrite Q1, Q2. split; nia. }
  pose proof (Z_div_mod m' 100 ltac:(lia)) as DM.
  destruct (Z.div_eucl m' 100) as [q r]. destruct DM as [DM R].
  assert (P59 : 2 ^ 59 = 576460752303423488) by reflexivity.
  assert (P60 : 2 ^ 60 = 1152921504606846976) by reflexivity.
  assert (P52 : 2 ^ 52 = 4503599627370496) by reflexivity.
  assert (P54 : 2 ^ 54 = 18014398509481984) by reflexivity.
  assert (Bq : 2 ^ 52 <= q < 2 ^ 54) by lia.
  assert (Dq1 : 53 <= Zdigits2 q).
  { destruct (Z_le_gt_dec 53 (Zdigits2 q)) as [H|H]; [exact H|exfalso].
    pose proof (Zdigits2_lt_pow q 52 ltac:(lia) ltac:(lia)). lia. }
  assert (Dq2 : Zdigits2 q <= 54) by (apply Zdigits2_le; lia).
  assert (HL : located q (new_location 100 r) m' 100).
  { unfold new_location. change (Z.even 100) with true. cbv iota.
    unfold new_location_even.
    destruct (r =? 0) eqn:Er.
    - apply Z.eqb_eq in Er. cbn [located]. lia.
    - apply Z.eqb_neq in Er.
      destruct (Z.compare_spec (2 * r) 100) as [C|C|C]; cbn [located]; lia. }
  destruct (binary_round_aux_nearest false q e' (new_location 100 r) m' 100
              ltac:(lia) ltac:(lia) HL Dq1 ltac:(lia) ltac:(lia))
    as (m & e & E & Bm & Be & A1 & A2).
  exists m, e, s. split; [exact E|]. split; [exact Bm|].
  split; [lia|]. split; [lia|].
  replace (e - e') with (e + s) in A1, A2 by lia.
  rewrite Em in A1, A2. split; lia.
Qed.

(** ** Multiplication *)

Lemma mul_nearest (mx : positive) (ex : Z) (my : positive) (ey : Z) :
  2 ^ 52 <= Z.pos mx < 2 ^ 53 ->
  2 ^ 52 <= Z.pos my < 2 ^ 53 ->
  -1000 <= ex + ey <= 900 ->
  exists m e,
    mul (S754_finite false mx ex) (S754_finite false my ey)
    = S754_finite false m e
    /\ 2 ^ 52 <= Z.pos m < 2 ^ 53
    /\ 52 <= e - (ex + ey) <= 54
    /\ 2 * (Z.pos m * 2 ^ (e - (ex + ey)) - Z.pos mx * Z.pos my)
       <= 2 ^ (e - (ex + ey))
    /\ 2 * (Z.pos mx * Z.pos my - Z.pos m * 2 ^ (e - (ex + ey)))
       <= 2 ^ (e - (ex + ey)).
Proof.
  intros Hx Hy He. unfold mul. cbn [SFmul xorb].
  assert (P52 : 2 ^ 52 = 4503599627370496) by reflexivity.
  assert (P53 : 2 ^ 53 = 9007199254740992) by reflexivity.
  assert (P104 : 2 ^ 104 = 4503599627370496 * 4503599627370496)
    by reflexivity.
  assert (P106 : 2 ^ 106 = 9007199254740992 * 9007199254740992)
    by reflexivity.
  assert (Bp : 2 ^ 104 <= Z.pos (mx * my) < 2 ^ 106).
  { rewrite Pos2Z.inj_mul. nia. }
  assert (D1 : 105 <= Zdigits2 (Z.pos (mx * my))).
  { destruct (Z_le_gt_dec 105 (Zdigits2 (Z.pos (mx * my)))) as [H|H];
      [exact H|exfalso].
    pose proof (Zdigits2_lt_pow (Z.pos (mx * my)) 104 ltac:(lia) ltac:(lia)).
    lia. }
  assert (D2 : Zdigits2 (Z.pos (mx * my)) <= 106)
    by (apply Zdigits2_le; lia).
  assert (HL : located (Z.pos (mx * my)) loc_Exact (Z.pos mx * Z.pos my) 1).
  { cbn [located]. rewrite Pos2Z.inj_mul. ring. }
  destruct (binary_round_aux_nearest false (Z.pos (mx * my)) (ex + ey)
              loc_Exact (Z.pos mx * Z.pos my) 1
              ltac:(lia) ltac:(lia) HL ltac:(lia) ltac:(lia) ltac:(lia))
    as (m & e & E & Bm & Be & A1 & A2).
  exists m, e. split; [exact E|]. split; [exact Bm|]. split; [lia|].
  rewrite !Z.mul_1_r in A1, A2. split; assumption.
Qed.

(** ** The sign goes through the rounding *)

Lemma binary_round_aux_sign
    (sx sy : bool) (mx ex : Z) (lx : location) (m : positive) (e : Z) :
  binary_round_aux prec emax sx mx ex lx = S754_finite sx m e ->
  binary_round_aux prec emax sy mx ex lx = S754_finite sy m e.
Proof.
  unfold binary_round_aux.
  destruct (shr_fexp prec emax mx ex lx) as [mrs1 e1].
  destruct (shr_fexp prec emax _ e1 loc_Exact) as [mrs3 e3].
  destruct (shr_m mrs3) as [|p|p]; try discriminate.
  destruct (e3 <=? emax - prec); [|discriminate].
  intros H. assert (p = m) by congruence. assert (e3 = e) by congruence.
  subst. reflexivity.
Qed.

Lemma of_ratio_sign (sg : bool) (num den m : positive) (e : Z) :
  of_ratio false num den = S754_finite false m e ->
  of_ratio sg num den = S754_finite sg m e.
Proof.
  unfold of_ratio.
  destruct (SFdiv_core_binary prec emax (Z.pos num) 0 (Z.pos den) 0)
    as [[mz ez] lz].
  apply binary_round_aux_sign.
Qed.

Lemma mul_sign (sg : bool) (mx : positive) (ex : Z) (my : positive) (ey : Z)
    (m : positive) (e : Z) :
  mul (S754_finite false mx ex) (S754_finite false my ey)
  = S754_finite false m e ->
  mul (S754_finite sg mx ex) (S754_finite false my ey) = S754_finite sg m e.
Proof.
  unfold mul. cbn [SFmul]. rewrite !xorb_false_r.
  apply binary_round_aux_sign.
Qed.

(** ** Integers below [2^53] *)

Lemma binary_round_int (sg : bool) (p : positive) :
  Z.pos p < 2 ^ 53 ->
  exists m e,
    binary_round prec emax sg p 0 = S754_finite sg m e
    /\ -52 <= e <= 0 /\ Z.pos m = Z.pos p * 2 ^ (- e).
Proof.
  intros H53. unfold binary_round.
  pose proof (Zdigits2_bounds (Z.pos p) ltac:(lia)) as [Lo Up].
  assert (D53 : Zdigits2 (Z.pos p) <= 53) by (apply Zdigits2_le; lia).
  cbn [Zdigits2] in Lo, Up, D53.
  set (d := Z.pos (digits2_pos p)) in *.
  assert (Hd : 1 <= d) by (unfold d; lia).
  assert (F : fexp prec emax (d + 0) = d - 53).
  { unfold fexp, emin, prec, emax. lia. }
  rewrite F. unfold shl_align.
  assert (P52 : 2 ^ 52 = 4503599627370496) by reflexivity.
  assert (P53 : 2 ^ 53 = 9007199254740992) by reflexivity.
  destruct (d - 53 - 0) as [|k|k] eqn:Ek; try lia.
  - assert (d = 53) by lia.
    rewrite binary_round_aux_exact.
    + exists p, 0. split; [reflexivity|]. split; [lia|].
      change (2 ^ (- 0)) with 1. lia.
    + cbn [Zdigits2]. fold d. lia.
    + lia.
  - assert (Pk : 0 < 2 ^ Z.pos k) by (apply Z.pow_pos_nonneg; lia).
    assert (Q1 : 2 ^ 52 = 2 ^ (d - 1) * 2 ^ Z.pos k).
    { rewrite <- Z.pow_add_r by lia. f_equal. lia. }
    assert (Q2 : 2 ^ 53 = 2 ^ d * 2 ^ Z.pos k).
    { rewrite <- Z.pow_add_r by lia. f_equal. lia. }
    rewrite binary_round_aux_exact.
    + exists (Pos.iter xO p k), (d - 53). split; [reflexivity|].
      split; [lia|]. rewrite pos_iter_xO. f_equal. f_equal. lia.
    + apply Zdigits2_unique; [lia|]. rewrite pos_iter_xO.
      change (53 - 1) with 52. rewrite Q1, Q2. split; nia.
    + lia.
Qed.

(** The conversion to [int] of the float64 of a whole number below
    [2^53], of either sign, gives the number back. *)
Lemma to_int_binary_normalize (P : Platform) (sg : bool) (c : Z) :
  0 <= c < 2 ^ 53 ->
  to_int P (binary_normalize prec emax (if sg then - c else c) 0 sg)
  = (if sg then - c else c).
Proof.
  intros [H0 H53]. destruct c as [|p|p]; try lia.
  - destruct sg; reflexivity.
  - assert (E : binary_normalize prec emax
                  (if sg then - Z.pos p else Z.pos p) 0 sg
                = binary_round prec emax sg p 0)
      by (destruct sg; reflexivity).
    rewrite E.
    destruct (binary_round_int sg p H53) as (m & e & -> & He & Em).
    unfold to_int. cbn [truncate].
    assert (T : (if 0 <=? e then Z.pos m * 2 ^ e
                 else Z.shiftr (Z.pos m) (- e)) = Z.pos p).
    { destruct (0 <=? e) eqn:C.
      - apply Z.leb_le in C. assert (e = 0) by lia. subst e.
        change (2 ^ (- 0)) with 1 in Em. change (2 ^ 0) with 1. lia.
      - rewrite Z.shiftr_div_pow2 by lia. rewrite Em.
        apply Z.div_mul. apply Z.pow_nonzero; lia. }
    rewrite T.
    replace (in_int64 (if sg then - Z.pos p else Z.pos p)) with true;
      [reflexivity|].
    symmetry. unfold in_int64, min_int64, max_int64.
    assert (P53 : 2 ^ 53 = 9007199254740992) by reflexivity.
    assert (P63 : 2 ^ 63 = 9223372036854775808) by reflexivity.
    apply andb_true_iff. rewrite !Z.leb_le. destruct sg; lia.
Qed.

(** ** [math.Round] and [math.Ceil] *)

(** [Round] gives the integer that is less than half a unit away, with
    the sign of its argument. *)
Lemma Round_nearest_int (sg : bool) (m : positive) (e N : Z) :
  e < 0 ->
  2 * (Z.pos m - N * 2 ^ (- e)) < 2 ^ (- e) ->
  2 * (N * 2 ^ (- e) - Z.pos m) < 2 ^ (- e) ->
  Round (S754_finite sg m e)
  = binary_normalize prec emax (if sg then - N else N) 0 sg.
Proof.
  intros He H1 H2. cbn [Round].
  replace (0 <=? e) with false by (symmetry; apply Z.leb_gt; lia).
  unfold split_fraction.
  rewrite Z.shiftr_div_pow2, Z.land_ones by lia.
  assert (EK : 2 ^ (- e) = 2 * 2 ^ (- e - 1)).
  { rewrite <- Z.pow_succ_r by lia. f_equal. lia. }
  assert (PK : 0 < 2 ^ (- e - 1)) by (apply Z.pow_pos_nonneg; lia).
  set (K := 2 ^ (- e)) in *. set (Kh := 2 ^ (- e - 1)) in *.
  pose proof (Z.div_mod (Z.pos m) K ltac:(lia)) as DM.
  pose proof (Z.mod_pos_bound (Z.pos m) K ltac:(lia)) as RB.
  set (q := Z.pos m / K) in *. set (r := Z.pos m mod K) in *.
  assert (En : (if Kh <=? r then q + 1 else q) = N).
  { destruct (Kh <=? r) eqn:C.
    - apply Z.leb_le in C.
      assert (q + 1 <= N) by nia. assert (N <= q + 1) by nia. lia.
    - apply Z.leb_gt in C.
      assert (q <= N) by nia. assert (N <= q) by nia. lia. }
  rewrite En. reflexivity.
Qed.

(** [Ceil] gives the integer [c] on the values in [(c - 1, c]]. *)
Lemma Ceil_int (m : positive) (e c : Z) :
  e < 0 ->
  (c - 1) * 2 ^ (- e) < Z.pos m <= c * 2 ^ (- e) ->
  Ceil (S754_finite false m e) = binary_normalize prec emax c 0 false.
Proof.
  intros He [H1 H2]. cbn [Ceil].
  replace (0 <=? e) with false by (symmetry; apply Z.leb_gt; lia).
  unfold split_fraction.
  rewrite Z.shiftr_div_pow2, Z.land_ones by lia.
  assert (PK : 0 < 2 ^ (- e)) by (apply Z.pow_pos_nonneg; lia).
  set (K := 2 ^ (- e)) in *.
  pose proof (Z.div_mod (Z.pos m) K ltac:(lia)) as DM.
  pose proof (Z.mod_pos_bound (Z.pos m) K ltac:(lia)) as RB.
  set (q := Z.pos m / K) in *. set (r := Z.pos m mod K) in *.
  f_equal.
  destruct (r =? 0) eqn:C.
  - apply Z.eqb_eq in C.
    assert (q <= c) by nia. assert (c <= q) by nia. lia.
  - apply Z.eqb_neq in C.
    assert (q + 1 <= c) by nia. assert (c <= q + 1) by nia. lia.
Qed.

(** Below zero, [Ceil] drops the fraction: it gives [- c] on the values
    in [(- c - 1, - c]]. *)
Lemma Ceil_neg (m : positive) (e c : Z) :
  e < 0 ->
  c * 2 ^ (- e) <= Z.pos m < (c + 1) * 2 ^ (- e) ->
  Ceil (S754_finite true m e) = binary_normalize prec emax (- c) 0 true.
Proof.
  intros He [H1 H2]. cbn [Ceil].
  replace (0 <=? e) with false by (symmetry; apply Z.leb_gt; lia).
  unfold split_fraction.
  rewrite Z.shiftr_div_pow2 by lia.
  assert (PK : 0 < 2 ^ (- e)) by (apply Z.pow_pos_nonneg; lia).
  set (K := 2 ^ (- e)) in *.
  pose proof (Z.div_mod (Z.pos m) K ltac:(lia)) as DM.
  pose proof (Z.mod_pos_bound (Z.pos m) K ltac:(lia)) as RB.
  set (q := Z.pos m / K) in *. set (r := Z.pos m mod K) in *.
  f_equal. f_equal.
  assert (q <= c) by nia. assert (c <= q) by nia. lia.
Qed.

(** ** The cents of the total rule *)

Lemma f100_value : Main.f100 = S754_finite false 7036874417766400 (-46).
Proof. vm_compute. reflexivity. Qed.





(** The product by 100 of the float64 of [N] hundredths is less than
    half a unit away from [N]: the two roundings, of the division and of
    the product, move the value by less than half a cent as long as [N]
    is below [2^50]. *)
Lemma cents_core (n : positive) :
  Z.pos n < 2 ^ 50 ->
  exists mg eg,
    (forall sg,
        mul (of_ratio sg n 100) Main.f100 = S754_finite sg mg eg)
    /\ eg < 0
    /\ 2 * (Z.pos mg - Z.pos n * 2 ^ (- eg)) < 2 ^ (- eg)
    /\ 2 * (Z.pos n * 2 ^ (- eg) - Z.pos mg) < 2 ^ (- eg).
Proof.
  intros HN. rewrite f100_value.
  destruct (of_ratio_100 n HN)
    as (mf & ef & s & Ef & Bf & Bs & Bes & F1 & F2).
  destruct (mul_nearest mf ef 7036874417766400 (-46) Bf
              ltac:(split; [apply Z.leb_le|apply Z.ltb_lt]; reflexivity)
              ltac:(lia))
    as (mg & eg & Eg & Bg & Beg & G1 & G2).
  exists mg, eg.
  split.
  { intros sg. rewrite (of_ratio_sign sg _ _ _ _ Ef).
    apply mul_sign. exact Eg. }
  assert (P50 : 2 ^ 50 = 1125899906842624) by reflexivity.
  assert (P52 : 2 ^ 52 = 4503599627370496) by reflexivity.
  assert (P53 : 2 ^ 53 = 9007199254740992) by reflexivity.
  assert (P46 : 2 ^ 46 = 70368744177664) by reflexivity.
  assert (HX : 0 < 2 ^ (ef + s)) by (apply Z.pow_pos_nonneg; lia).
  assert (HY : 0 < 2 ^ (eg - (ef + -46))) by (apply Z.pow_pos_nonneg; lia).
  assert (HS : 0 < 2 ^ s) by (apply Z.pow_pos_nonneg; lia).
  assert (HK : 0 < 2 ^ (- eg)) by (apply Z.pow_pos_nonneg; lia).
  assert (KXY : 2 ^ (- eg) * (2 ^ (ef + s) * 2 ^ (eg - (ef + -46)))
                = 2 ^ 46 * 2 ^ s).
  { rewrite <- !Z.pow_add_r by lia. f_equal. lia. }
  set (X := 2 ^ (ef + s)) in *. set (Y := 2 ^ (eg - (ef + -46))) in *.
  set (S := 2 ^ s) in *. set (K := 2 ^ (- eg)) in *.
  set (a := Z.pos mf) in *. set (b := Z.pos mg) in *.
  set (Np := Z.pos n) in *.
  (* the two accuracies, at the common scale [X * Y] *)
  assert (XY : 0 < X * Y) by (apply Z.mul_pos_pos; assumption).
  assert (T1 : Np * S < 2 ^ 50 * S)
    by (apply Z.mul_lt_mono_pos_r; assumption).
  assert (T2 : 2 ^ 52 * X <= a * X)
    by (apply Z.mul_le_mono_nonneg_r; lia).
  assert (T3 : 2 ^ 52 * (X * Y) <= b * Y * X).
  { replace (b * Y * X) with (b * (X * Y)) by ring.
    apply Z.mul_le_mono_nonneg_r; lia. }
  pose proof (Z.mul_le_mono_nonneg_r _ _ X ltac:(lia) G1) as M1.
  pose proof (Z.mul_le_mono_nonneg_r _ _ X ltac:(lia) G2) as M2.
  assert (C1 : 2 * (b * Y * X - Np * (2 ^ 46 * S)) < 2 ^ 46 * S) by lia.
  assert (C2 : 2 * (Np * (2 ^ 46 * S) - b * Y * X) < 2 ^ 46 * S) by lia.
  assert (R1 : 2 * (b - Np * K) < K).
  { apply (Z.mul_lt_mono_pos_r (X * Y)); [exact XY|].
    replace (K * (X * Y)) with (2 ^ 46 * S) by (rewrite <- KXY; ring).
    replace (2 * (b - Np * K) * (X * Y))
      with (2 * (b * Y * X - Np * (K * (X * Y)))) by ring.
    rewrite KXY. exact C1. }
  assert (R2 : 2 * (Np * K - b) < K).
  { apply (Z.mul_lt_mono_pos_r (X * Y)); [exact XY|].
    replace (K * (X * Y)) with (2 ^ 46 * S) by (rewrite <- KXY; ring).
    replace (2 * (Np * K - b) * (X * Y))
      with (2 * (Np * (K * (X * Y)) - b * Y * X)) by ring.
    rewrite KXY. exact C2. }
  assert (Heg : eg < 0).
  { destruct (Z_lt_le_dec eg 0) as [H|H]; [exact H|exfalso].
    assert (eg = 0) by lia. subst eg. subst K.
    change (2 ^ (- 0)) with 1 in R1. lia. }
  split; [exact Heg|]. split; assumption.
Qed.

(** [int(math.Round(f * 100))] on the float64 of [N] hundredths, of
    either sign, is [N] with that sign. *)
Lemma cents_signed (P : Platform) (sg : bool) (N : Z) :
  0 <= N < 2 ^ 50 ->
  Main.cents P (signed_hundredths sg N) = (if sg then - N else N).
Proof.
  intros [H0 HN]. destruct N as [|n|n]; try lia.
  - destruct sg; vm_compute; reflexivity.
  - cbn [signed_hundredths]. unfold Main.cents.
    destruct (cents_core n HN) as (mg & eg & E & Heg & R1 & R2).
    rewrite (E sg), (Round_nearest_int sg mg eg (Z.pos n) Heg R1 R2).
    apply to_int_binary_normalize.
    assert (P50 : 2 ^ 50 = 1125899906842624) by reflexivity.
    assert (P53 : 2 ^ 53 = 9007199254740992) by reflexivity.
    lia.
Qed.

Lemma cents_hundredths (P : Platform) (N : Z) :
  0 <= N < 2 ^ 50 -> Main.cents P (hundredths N) = N.
Proof. apply (cents_signed P false). Qed.

(** ** The share of the description rule *)

(** A multiple of [X] within half of [X] of zero is zero. *)
Lemma small_multiple (z X : Z) :
  0 < X -> 2 * (z * X) <= X -> 2 * (- z * X) <= X -> z = 0.
Proof. intros HX H1 H2. nia. Qed.

Lemma f0_2_finite : Main.f0_2 = S754_finite false 7205759403792794 (-55).
Proof. vm_compute. reflexivity. Qed.

(** The product by [.2] of the float64 of [N] hundredths, against the
    whole numbers. On a multiple of five units the product is the exact
    fifth plus less than half a unit of the last place, and rounds back
    to it; on any other amount the three roundings keep it strictly
    between the two whole numbers around the exact fifth. *)
Lemma fifth_core (n : positive) :
  Z.pos n < 2 ^ 50 ->
  exists mh eh,
    (forall sg,
        mul (of_ratio sg n 100) Main.f0_2 = S754_finite sg mh eh)
    /\ eh < 0
    /\ ((Z.pos n mod 500 = 0
         /\ Z.pos mh = Z.pos n / 500 * 2 ^ (- eh))
        \/ (Z.pos n mod 500 <> 0
            /\ Z.pos n / 500 * 2 ^ (- eh) < Z.pos mh
               < (Z.pos n / 500 + 1) * 2 ^ (- eh))).
Proof.
  intros HN. rewrite f0_2_finite.
  destruct (of_ratio_100 n HN)
    as (mf & ef & s & Ef & Bf & Bs & Bes & F1 & F2).
  destruct (mul_nearest mf ef 7205759403792794 (-55) Bf
              ltac:(split; [apply Z.leb_le|apply Z.ltb_lt]; reflexivity)
              ltac:(lia))
    as (mh & eh & Eh & Bh & Beh & G1 & G2).
  exists mh, eh.
  split.
  { intros sg. rewrite (of_ratio_sign sg _ _ _ _ Ef).
    apply mul_sign. exact Eh. }
  assert (P50 : 2 ^ 50 = 1125899906842624) by reflexivity.
  assert (P52 : 2 ^ 52 = 4503599627370496) by reflexivity.
  assert (P53 : 2 ^ 53 = 9007199254740992) by reflexivity.
  assert (P55 : 2 ^ 55 = 36028797018963968) by reflexivity.
  assert (Heh : eh < 0) by lia.
  split; [exact Heh|].
  assert (HX : 0 < 2 ^ (ef + s)) by (apply Z.pow_pos_nonneg; lia).
  assert (HY : 0 < 2 ^ (eh - (ef + -55))) by (apply Z.pow_pos_nonneg; lia).
  assert (HS : 0 < 2 ^ s) by (apply Z.pow_pos_nonneg; lia).
  assert (HK : 0 < 2 ^ (- eh)) by (apply Z.pow_pos_nonneg; lia).
  assert (HE : 0 < 2 ^ (- ef)) by (apply Z.pow_pos_nonneg; lia).
  assert (KXY : 2 ^ (- eh) * (2 ^ (ef + s) * 2 ^ (eh - (ef + -55)))
                = 2 ^ 55 * 2 ^ s).
  { rewrite <- !Z.pow_add_r by lia. f_equal. lia. }
  assert (XE : 2 ^ s = 2 ^ (ef + s) * 2 ^ (- ef)).
  { rewrite <- Z.pow_add_r by lia. f_equal. lia. }
  set (X := 2 ^ (ef + s)) in *. set (Y := 2 ^ (eh - (ef + -55))) in *.
  set (S := 2 ^ s) in *. set (K := 2 ^ (- eh)) in *.
  set (E := 2 ^ (- ef)) in *.
  set (a := Z.pos mf) in *. set (b := Z.pos mh) in *.
  set (Np := Z.pos n) in *.
  assert (XY : 0 < X * Y) by (apply Z.mul_pos_pos; assumption).
  assert (T1 : Np * S < 2 ^ 50 * S)
    by (apply Z.mul_lt_mono_pos_r; assumption).
  assert (T2 : 2 ^ 52 * X <= a * X)
    by (apply Z.mul_le_mono_nonneg_r; lia).
  assert (T3 : 2 ^ 52 * (X * Y) <= b * Y * X).
  { replace (b * Y * X) with (b * (X * Y)) by ring.
    apply Z.mul_le_mono_nonneg_r; lia. }
  assert (T4 : b * Y * X <= (2 ^ 53 - 1) * (X * Y)).
  { replace (b * Y * X) with (b * (X * Y)) by ring.
    apply Z.mul_le_mono_nonneg_r; lia. }
  pose proof (Z.mul_le_mono_nonneg_r _ _ X ltac:(lia) G1) as M1.
  pose proof (Z.mul_le_mono_nonneg_r _ _ X ltac:(lia) G2) as M2.
  (* from the common scale [X * Y] back to the unit [K] *)
  assert (Sc : forall c d : Z, c * (2 ^ 55 * S) < d * (X * Y) -> c * K < d).
  { intros c d L. rewrite <- KXY in L.
    apply (Z.mul_lt_mono_pos_r (X * Y)); [exact XY|].
    replace (c * K * (X * Y)) with (c * (K * (X * Y))) by ring. exact L. }
  assert (Sc' : forall c d : Z, d * (X * Y) < c * (2 ^ 55 * S) -> d < c * K).
  { intros c d L. rewrite <- KXY in L.
    apply (Z.mul_lt_mono_pos_r (X * Y)); [exact XY|].
    replace (c * K * (X * Y)) with (c * (K * (X * Y))) by ring. exact L. }
  assert (bXY : b * (X * Y) = b * Y * X) by ring.
  pose proof (Z.div_mod Np 500 ltac:(lia)) as DM.
  pose proof (Z.mod_pos_bound Np 500 ltac:(lia)) as RB.
  set (k0 := Np / 500) in *. set (rho := Np mod 500) in *.
  assert (Hk0 : 0 <= k0) by (apply Z.div_pos; lia).
  assert (NS : Np * S = 500 * (k0 * S) + rho * S) by (rewrite DM; ring).
  assert (RS : 0 <= rho * S <= 499 * S).
  { split; [apply Z.mul_nonneg_nonneg; lia|].
    apply Z.mul_le_mono_nonneg_r; lia. }
  assert (KS : 0 <= k0 * S) by (apply Z.mul_nonneg_nonneg; lia).
  destruct (Z.eq_dec rho 0) as [R0|R0]; [left|right]; split;
    try assumption.
  - (* a multiple of five units: the division is exact *)
    assert (K1 : 1 <= k0) by lia.
    assert (KS1 : 1 * S <= k0 * S)
      by (apply Z.mul_le_mono_nonneg_r; lia).
    assert (Ea : a = 5 * k0 * E).
    { assert (NS0 : Np * S = 500 * (k0 * E * X))
        by (rewrite NS, R0, XE; ring).
      assert (Z1 : 2 * ((a - 5 * k0 * E) * X) <= X) by lia.
      assert (Z2 : 2 * (- (a - 5 * k0 * E) * X) <= X) by lia.
      pose proof (small_multiple _ X HX Z1 Z2). lia. }
    assert (EaX : a * X = 5 * (k0 * S)).
    { rewrite Ea, XE. ring. }
    (* [b] and [k0 * K] are whole numbers, less than one apart *)
    assert (L1 : (k0 - 1) * K < b) by (apply Sc; rewrite bXY; lia).
    assert (L2 : b < (k0 + 1) * K) by (apply Sc'; rewrite bXY; lia).
    destruct (Z_lt_le_dec b (k0 * K)) as [U|U];
      [exfalso|destruct (Z_lt_le_dec (k0 * K) b) as [U'|U']; [exfalso|lia]].
    + assert (U1 : b + 1 <= k0 * K) by lia.
      assert (U2 : b * Y * X + X * Y <= k0 * (2 ^ 55 * S)).
      { rewrite <- KXY.
        replace (b * Y * X + X * Y) with ((b + 1) * (X * Y)) by ring.
        replace (k0 * (K * (X * Y))) with (k0 * K * (X * Y)) by ring.
        apply Z.mul_le_mono_nonneg_r; lia. }
      lia.
    + assert (U1 : k0 * K + 1 <= b) by lia.
      assert (U2 : k0 * (2 ^ 55 * S) + X * Y <= b * Y * X).
      { rewrite <- KXY.
        replace (k0 * (K * (X * Y)) + X * Y)
          with ((k0 * K + 1) * (X * Y)) by ring.
        replace (b * Y * X) with (b * (X * Y)) by ring.
        apply Z.mul_le_mono_nonneg_r; lia. }
      lia.
  - (* any other amount: the roundings stay between two whole numbers *)
    assert (RS1 : 1 * S <= rho * S)
      by (apply Z.mul_le_mono_nonneg_r; lia).
    split; [apply Sc|apply Sc']; rewrite bXY; lia.
Qed.

(** [int(math.Ceil(f * .2))] on the float64 of [N] hundredths is a fifth
    of the amount rounded up to a whole number; on the float64 of minus
    [N] hundredths, it is minus the whole fifths of the amount. *)
Lemma price_share_signed (P : Platform) (sg : bool) (N : Z) :
  0 <= N < 2 ^ 50 ->
  Main.price_share P (signed_hundredths sg N)
  = (if sg then - (N / 500) else fifth_up N).
Proof.
  intros [H0 HN]. destruct N as [|n|n]; try lia.
  - destruct sg; vm_compute; reflexivity.
  - cbn [signed_hundredths]. unfold Main.price_share.
    destruct (fifth_core n HN) as (mh & eh & E & Heh & C).
    rewrite (E sg).
    assert (PK : 0 < 2 ^ (- eh)) by (apply Z.pow_pos_nonneg; lia).
    pose proof (Z.div_mod (Z.pos n) 500 ltac:(lia)) as DM.
    pose proof (Z.mod_pos_bound (Z.pos n) 500 ltac:(lia)) as RB.
    assert (P50 : 2 ^ 50 = 1125899906842624) by reflexivity.
    assert (P53 : 2 ^ 53 = 9007199254740992) by reflexivity.
    assert (Bk : 0 <= Z.pos n / 500 < 2 ^ 42).
    { assert (P42 : 2 ^ 42 = 4398046511104) by reflexivity.
      split; [apply Z.div_pos; lia|apply Z.div_lt_upper_bound; lia]. }
    assert (P42 : 2 ^ 42 = 4398046511104) by reflexivity.
    set (k0 := Z.pos n / 500) in *. set (K := 2 ^ (- eh)) in *.
    destruct sg.
    + rewrite (Ceil_neg mh eh k0 Heh).
      * apply (to_int_binary_normalize P true k0). lia.
      * destruct C as [[_ C] | [_ C]]; lia.
    + assert (Ec : fifth_up (Z.pos n)
                   = if Z.pos n mod 500 =? 0 then k0 else k0 + 1).
      { unfold fifth_up. destruct (Z.pos n mod 500 =? 0) eqn:R.
        - apply Z.eqb_eq in R. subst k0.
          Z.to_euclidean_division_equations. lia.
        - apply Z.eqb_neq in R. subst k0.
          Z.to_euclidean_division_equations. lia. }
      rewrite (Ceil_int mh eh (fifth_up (Z.pos n)) Heh).
      * apply (to_int_binary_normalize P false (fifth_up (Z.pos n))).
        rewrite Ec. destruct (_ =? 0); lia.
      * rewrite Ec. destruct C as [[R C] | [R C]].
        -- rewrite R. cbn [Z.eqb]. lia.
        -- apply Z.eqb_neq in R. rewrite R.
           replace (k0 + 1 - 1) with k0 by lia. lia.
Qed.

Lemma price_share_hundredths (P : Platform) (N : Z) :
  0 <= N < 2 ^ 50 -> Main.price_share P (hundredths N) = fifth_up N.
Proof. apply (price_share_signed P false). Qed.

End ArithFacts.

(* ===================================================================== *)
(** * The rules on plain prices, in whole numbers *)
(* ===================================================================== *)

Module PlainFacts.

Import Main Notions Requests Money Facts ItemFacts FloatFacts PriceFacts
  Validator ScoreBounds RuleFacts ArithFacts Strconv.

Lemma filter_all (f : Z -> bool) (l : list Z) :
  forallb f l = true -> filter f l = l.
Proof.
  induction l as [|c l IH]; cbn [forallb filter]; [reflexivity|].
  intros H. apply andb_true_iff in H as [-> H]. now rewrite IH.
Qed.

(** The cents of [d...d.dd] are its digits. *)
Lemma decimal_cents_plain (s : string) (ds : list Z) (d1 d2 : Z) :
  bytes s = ds ++ [ch "."; d1; d2] ->
  forallb is_digit ds = true -> is_digit d1 = true -> is_digit d2 = true ->
  decimal_cents s = digits_value 0 (ds ++ [d1; d2]).
Proof.
  intros Hb Hds H1 H2. unfold decimal_cents. rewrite Hb, filter_app.
  rewrite (filter_all _ _ Hds). cbn [filter].
  change (is_digit (ch ".")) with false. now rewrite H1, H2.
Qed.

(** [ParseFloat] on [d...d.dd], with or without a sign before it,
    returns the float64 of its cents counted as hundredths, with the
    sign. *)
Lemma ParseFloat_sign_digits
    (s : string) (pre ds : list Z) (d1 d2 : Z) (neg : bool) :
  bytes s = pre ++ ds ++ [ch "."; d1; d2] ->
  (pre = [] /\ neg = false) \/ (pre = [43] /\ neg = false)
  \/ (pre = [45] /\ neg = true) ->
  forallb is_digit ds = true -> is_digit d1 = true -> is_digit d2 = true ->
  (1 <= List.length ds <= 13)%nat ->
  ParseFloat s
  = Ok (signed_hundredths neg (digits_value 0 (ds ++ [d1; d2])))
  /\ 0 <= digits_value 0 (ds ++ [d1; d2]) < 2 ^ 50.
Proof.
  intros Hb Hpre Hds H1 H2 L.
  assert (Hne : ds <> []) by (destruct ds; [cbn in L; lia | discriminate]).
  destruct (read_digits_plain ds d1 d2 Hds Hne H1 H2)
    as (st & R & G & S & U & M & D).
  set (b := ds ++ [ch "."; d1; d2]) in *.
  assert (Hc : exists c t, b = c :: t /\ is_digit c = true).
  { unfold b. destruct ds as [|c ds']; [congruence|].
    cbn [forallb] in Hds. apply andb_true_iff in Hds as [Hc _].
    exists c, (ds' ++ [ch "."; d1; d2]). now split. }
  destruct Hc as (c & t & Eb & Hc). pose proof (is_digit_range c Hc) as Rc.
  assert (Px : read_prefix b = (false, b)).
  { unfold b, read_prefix.
    destruct ds as [|c0 [|c1 ds']]; [congruence| |].
    - cbn [app]. rewrite (lower_digit_or_point (ch ".")) by now right.
      now rewrite andb_false_r.
    - cbn [forallb] in Hds. apply andb_true_iff in Hds as [_ Hds].
      apply andb_true_iff in Hds as [Hc1 _].
      cbn [app]. rewrite (lower_digit_or_point c1) by now left.
      rewrite andb_false_r. destruct (ds' ++ _); reflexivity. }
  assert (Tl : forall whole,
             read_tail whole neg false st []
             = Some {| num_mant := mantissa st;
                       num_exp := if mantissa st =? 0 then 0 else -2;
                       num_neg := neg; num_hex := false;
                       num_unread := [] |}).
  { intros whole. unfold read_tail. rewrite G, S, U. cbn [negb andb].
    rewrite <- D. reflexivity. }
  assert (Bm : 0 <= mantissa st < 2 ^ 50).
  { rewrite M.
    assert (Hall : forallb is_digit (ds ++ [d1; d2]) = true).
    { rewrite forallb_app, Hds. cbn [forallb]. now rewrite H1, H2. }
    pose proof (digits_value_bound (ds ++ [d1; d2]) 0 Hall ltac:(lia)) as B.
    rewrite length_app in B. cbn [List.length] in B.
    assert (10 ^ Z.of_nat (List.length ds + 2) <= 10 ^ 15)
      by (apply Z.pow_le_mono_r; lia).
    change (10 ^ 15) with 1000000000000000 in *.
    change (2 ^ 50) with 1125899906842624. lia. }
  assert (Inf : commonPrefixLenIgnoreCase b (bytes "infinity") = 0%nat).
  { rewrite Eb. cbn [bytes list_ascii_of_string map commonPrefixLenIgnoreCase].
    change (ch "A") with 65. change (ch "Z") with 90.
    change (code "i") with 105.
    replace ((65 <=? c) && (c <=? 90)) with false
      by (symmetry; apply andb_false_iff; left; apply Z.leb_gt; lia).
    replace (c =? 105) with false by (symmetry; apply Z.eqb_neq; lia).
    reflexivity. }
  assert (RF : special (pre ++ b) = None
               /\ readFloat (pre ++ b)
                  = Some {| num_mant := mantissa st;
                            num_exp := if mantissa st =? 0 then 0 else -2;
                            num_neg := neg; num_hex := false;
                            num_unread := [] |}).
  { destruct Hpre as [[-> ->] | [[-> ->] | [-> ->]]]; cbn [app].
    - split.
      + rewrite Eb. unfold special.
        change (ch "+") with 43. change (ch "-") with 45.
        change (ch "i") with 105. change (ch "I") with 73.
        change (ch "n") with 110. change (ch "N") with 78.
        repeat match goal with
               | |- context [c =? ?n] =>
                 let E := fresh in
                 destruct (c =? n) eqn:E; [apply Z.eqb_eq in E; lia|]
               end.
        reflexivity.
      + assert (Sg : read_sign b = (false, b)).
        { rewrite Eb. unfold read_sign.
          change (ch "+") with 43. change (ch "-") with 45.
          destruct (c =? 43) eqn:E1; [apply Z.eqb_eq in E1; lia|].
          destruct (c =? 45) eqn:E2; [apply Z.eqb_eq in E2; lia|].
          reflexivity. }
        unfold readFloat. rewrite Sg, Px, R. rewrite Eb at 1. apply Tl.
    - split.
      + unfold special. change (43 =? ch "+") with true. cbv iota.
        rewrite Inf. reflexivity.
      + unfold readFloat, read_sign. change (43 =? ch "+") with true.
        cbv iota. rewrite Px, R. apply Tl.
    - split.
      + unfold special. change (45 =? ch "+") with false.
        change (45 =? ch "-") with true. cbv iota.
        rewrite Inf. reflexivity.
      + unfold readFloat, read_sign. change (45 =? ch "+") with false.
        change (45 =? ch "-") with true. cbv iota.
        rewrite Px, R. apply Tl. }
  destruct RF as [Sp RF].
  rewrite <- M. split; [|exact Bm].
  unfold ParseFloat. rewrite Hb. fold b. rewrite Sp, RF. cbn [num_unread].
  unfold numeral_value. cbn [num_mant num_neg num_hex num_exp].
  destruct (mantissa st) as [|m|m] eqn:Em.
  - reflexivity.
  - change (Z.pos m =? 0) with false. cbv iota.
    change (0 <=? -2) with false. cbv iota.
    change (Z.to_pos (10 ^ (- -2))) with 100%positive.
    cbn [signed_hundredths].
    destruct (of_ratio_100 m ltac:(lia)) as (mf & ef & s' & Ef & _).
    rewrite (of_ratio_sign neg _ _ _ _ Ef). reflexivity.
  - lia.
Qed.

Lemma ParseFloat_plain_value (s : string) :
  plain_price s = true ->
  ParseFloat s = Ok (hundredths (decimal_cents s))
  /\ 0 <= decimal_cents s < 2 ^ 50.
Proof.
  intros H. apply plain_price_shape in H.
  destruct H as (ds & d1 & d2 & Hb & Hds & H1 & H2 & L).
  rewrite (decimal_cents_plain s ds d1 d2 Hb Hds H1 H2).
  apply (ParseFloat_sign_digits s [] ds d1 d2 false); auto.
Qed.

Lemma bytes_String (c : ascii) (t : string) :
  bytes (String c t) = code c :: bytes t.
Proof. reflexivity. Qed.

Lemma ParseFloat_signed_value (s : string) :
  signed_price s = true ->
  ParseFloat s = Ok (signed_hundredths (minus_sign s) (decimal_cents s))
  /\ 0 <= decimal_cents s < 2 ^ 50.
Proof.
  destruct s as [|c t]; [discriminate|]. cbn [signed_price minus_sign].
  intros H. apply andb_true_iff in H as [Hc H].
  apply plain_price_shape in H.
  destruct H as (ds & d1 & d2 & Hb & Hds & H1 & H2 & L).
  assert (Ec : decimal_cents (String c t) = digits_value 0 (ds ++ [d1; d2])).
  { rewrite <- (decimal_cents_plain t ds d1 d2 Hb Hds H1 H2).
    unfold decimal_cents. rewrite bytes_String. cbn [filter].
    replace (is_digit (code c)) with false; [reflexivity|].
    symmetry. unfold is_digit. change (ch "0") with 48.
    apply orb_true_iff in Hc as [E | E]; apply Z.eqb_eq in E; rewrite E;
      reflexivity. }
  rewrite Ec.
  apply (ParseFloat_sign_digits (String c t) [code c] ds d1 d2 (code c =? 45));
    auto.
  - rewrite bytes_String, Hb. reflexivity.
  - apply orb_true_iff in Hc as [E | E]; apply Z.eqb_eq in E; rewrite E;
      [right; left|right; right]; split; reflexivity.
Qed.

Lemma total_bonus_rem (c : Z) :
  0 <= c ->
  (if Z.rem c 25 =? 0
   then wrap64 ((if Z.rem c 100 =? 0 then wrap64 (0 + 50) else 0) + 25)
   else if Z.rem c 100 =? 0 then wrap64 (0 + 50) else 0)
  = total_bonus c.
Proof.
  intros H. unfold total_bonus. rewrite !Z.rem_mod_nonneg by lia.
  destruct (c mod 100 =? 0), (c mod 25 =? 0); reflexivity.
Qed.

Lemma desc_points_share_of (P : Platform) (it : Item) :
  plain_price (Price it) = true -> desc_points P it = share_of it.
Proof.
  intros H. destruct (ParseFloat_plain_value (Price it) H) as [E B].
  unfold desc_points, share_of. rewrite E.
  now rewrite (price_share_hundredths P _ B).
Qed.

Lemma desc_total_share_of (P : Platform) (items : list Item) :
  forallb (fun it => plain_price (Price it)) items = true ->
  desc_total P items = fold_right (fun it acc => share_of it + acc) 0 items.
Proof.
  induction items as [|it items IH]; cbn [forallb]; [reflexivity|].
  intros H. apply andb_true_iff in H as [Hp H].
  cbn [desc_total fold_right]. fold (desc_total P items).
  now rewrite (desc_points_share_of P it Hp), (IH H).
Qed.

Lemma fifth_up_range (c : Z) : 0 <= c < 2 ^ 50 -> 0 <= fifth_up c < 2 ^ 42.
Proof.
  intros H. unfold fifth_up.
  assert (P50 : 2 ^ 50 = 1125899906842624) by reflexivity.
  assert (P42 : 2 ^ 42 = 4398046511104) by reflexivity.
  split; [apply Z.div_pos; lia|apply Z.div_lt_upper_bound; lia].
Qed.

Lemma share_of_range (it : Item) :
  plain_price (Price it) = true -> 0 <= share_of it < 2 ^ 42.
Proof.
  intros H. destruct (ParseFloat_plain_value (Price it) H) as [_ B].
  unfold share_of. destruct (_ =? 0); [now apply fifth_up_range|].
  assert (P42 : 2 ^ 42 = 4398046511104) by reflexivity. lia.
Qed.

Lemma shares_range (items : list Item) :
  forallb (fun it => plain_price (Price it)) items = true ->
  0 <= fold_right (fun it acc => share_of it + acc) 0 items
    <= 2 ^ 42 * Z.of_nat (List.length items).
Proof.
  induction items as [|it items IH]; cbn [forallb]; intros H.
  - cbn. lia.
  - apply andb_true_iff in H as [Hp H].
    cbn [fold_right List.length]. rewrite Nat2Z.inj_succ.
    pose proof (share_of_range it Hp). specialize (IH H). lia.
Qed.


(** ** Signed amounts *)

Lemma total_bonus_rem_opp (c : Z) :
  0 <= c ->
  (if Z.rem (- c) 25 =? 0
   then wrap64 ((if Z.rem (- c) 100 =? 0 then wrap64 (0 + 50) else 0) + 25)
   else if Z.rem (- c) 100 =? 0 then wrap64 (0 + 50) else 0)
  = total_bonus c.
Proof.
  intros H. rewrite !Z.rem_opp_l by lia.
  assert (E : forall b, ((- Z.rem c b) =? 0) = (Z.rem c b =? 0)).
  { intros b. destruct (Z.rem c b =? 0) eqn:R.
    - apply Z.eqb_eq in R. rewrite R. reflexivity.
    - apply Z.eqb_neq in R. apply Z.eqb_neq. lia. }
  rewrite !E. now apply total_bonus_rem.
Qed.

(** The price check lets a signed plain price through. *)
Lemma signed_price_checked (s : string) :
  signed_price s = true -> CheckPriceValidity s = true.
Proof.
  destruct s as [|c t]; [discriminate|]. cbn [signed_price].
  intros H. apply andb_true_iff in H as [_ H].
  apply plain_price_shape in H.
  destruct H as (ds & d1 & d2 & Hb & Hds & H1 & H2 & L).
  apply PatternFacts.price_pattern_accepts.
  exists [code c], (ds ++ [ch "."; d1; d2]).
  split; [rewrite bytes_String, Hb; reflexivity|].
  exists ds, d1, d2. split; [reflexivity|].
  split; [destruct ds; [cbn in L; lia|discriminate]|].
  split; [exact Hds|]. split; assumption.
Qed.


(** The price check lets a plain price through. *)
Lemma plain_price_checked (s : string) :
  plain_price s = true -> CheckPriceValidity s = true.
Proof.
  intros H. apply plain_price_shape in H.
  destruct H as (ds & d1 & d2 & Hb & Hds & H1 & H2 & L).
  apply PatternFacts.price_pattern_accepts.
  exists [], (ds ++ [ch "."; d1; d2]).
  split; [exact Hb|].
  exists ds, d1, d2. split; [reflexivity|].
  split; [destruct ds; [cbn in L; lia|discriminate]|].
  split; [exact Hds|]. split; assumption.
Qed.

End PlainFacts.

(* ===================================================================== *)
(** * The total rule *)
(* ===================================================================== *)

Module TotalRule.

Import Main Notions Money Facts ArithFacts PlainFacts.



End TotalRule.

(* ===================================================================== *)
(** * The score in whole numbers *)
(* ===================================================================== *)

Module WholeNumbers.

Import Main Notions Requests Money Facts ItemFacts Validator RuleFacts
  CalendarFacts ArithFacts PlainFacts.

(** X18. The total rule is exact on plain totals. For a total written as
    one to thirteen digits, a point and two digits, the cents that
    [int(math.Round(costFloat * 100))] computes in binary floating point
    are the digits of the total read as a whole number, so the rule
    gives 50 points exactly when the last two digits are 00, and 25 more
    exactly when the amount in cents is a multiple of 25, on every
    platform. *)
Theorem total_rule_exact_on_plain_totals (P : Platform) (costStr : string) :
  plain_price costStr = true ->
  GetTotalCostPoints P costStr = total_bonus (decimal_cents costStr)
  /\ exists costFloat,
       Strconv.ParseFloat costStr = Strconv.Ok costFloat
       /\ cents P costFloat = decimal_cents costStr.
Proof.
  intros H. destruct (ParseFloat_plain_value costStr H) as [E B].
  pose proof (cents_hundredths P _ B) as C.
  split.
  - unfold GetTotalCostPoints. rewrite E, C. apply total_bonus_rem. lia.
  - eexists. split; [exact E|exact C].
Qed.

Lemma total_rule_exact_on_plain_totals_witness :
  GetTotalCostPoints arm64_latin1 "35.35" = total_bonus (decimal_cents "35.35")
  /\ exists costFloat,
       Strconv.ParseFloat "35.35" = Strconv.Ok costFloat
       /\ cents arm64_latin1 costFloat = decimal_cents "35.35".
Proof.
  apply (total_rule_exact_on_plain_totals arm64_latin1 "35.35"%string).
  reflexivity.
Defined.

(** X19. The item points are exact on plain prices. When the price of
    every item is one to thirteen digits, a point and two digits, and the
    items are a million at most, [GetItemPoints] is 5 points for every
    two items plus, for each item whose trimmed description has a length
    that is a multiple of 3, a fifth of its price rounded up to a whole
    number: [int(math.Ceil(price * .2))] in binary floating point never
    misses it, on any platform. *)
Theorem item_points_exact_on_plain_prices (P : Platform) (receipt : Receipt) :
  forallb (fun it => plain_price (Price it)) (Items receipt) = true ->
  Z.of_nat (List.length (Items receipt)) <= 1000000 ->
  GetItemPoints P receipt
  = 5 * (Z.of_nat (List.length (Items receipt)) / 2)
    + fold_right (fun it acc => share_of it + acc) 0 (Items receipt).
Proof.
  intros Hp Hn. rewrite GetItemPoints_sum.
  rewrite (desc_total_share_of P _ Hp).
  pose proof (shares_range _ Hp) as B.
  assert (P42 : 2 ^ 42 = 4398046511104) by reflexivity.
  assert (Bn : 0 <= Z.of_nat (List.length (Items receipt)) / 2 <= 500000).
  { split; [apply Z.div_pos; lia|apply Z.div_le_upper_bound; lia]. }
  apply wrap64_small. unfold min_int64, max_int64.
  assert (P63 : 2 ^ 63 = 9223372036854775808) by reflexivity.
  lia.
Qed.

Lemma item_points_exact_on_plain_prices_witness :
  GetItemPoints amd64_latin1 target_receipt
  = 5 * (Z.of_nat (List.length (Items target_receipt)) / 2)
    + fold_right (fun it acc => share_of it + acc) 0 (Items target_receipt).
Proof.
  apply (item_points_exact_on_plain_prices amd64_latin1 target_receipt).
  - reflexivity.
  - cbn [Items target_receipt List.length]. lia.
Defined.

(** X20. The score in whole numbers. For a receipt that passed the four
    checks, whose total and prices are one to thirteen digits, a point
    and two digits, with a million items at most and a retailer shorter
    than [2^32] bytes, the score is, on every platform: the number of
    bytes 0-9, A-Z, a-z of the retailer; 50 if the cents of the total are
    a multiple of 100 and 25 if they are a multiple of 25; 5 for every
    two items; a fifth of the price, rounded up, of each item whose
    trimmed description has a length that is a multiple of 3; 6 if the
    day of the month is odd; 10 if the hour is 14 or 15. Neither the
    floating point nor the 64-bit arithmetic shows. *)
Theorem score_in_whole_numbers (r : Receipt) :
  Validate r = true ->
  plain_price (Total r) = true ->
  forallb (fun it => plain_price (Price it)) (Items r) = true ->
  len (Retailer r) < 2 ^ 32 ->
  Z.of_nat (List.length (Items r)) <= 1000000 ->
  exists y m d h mi,
    GoTime.ParseDate (PurchaseDate r) = Some (y, m, d)
    /\ GoTime.ParseClock (PurchaseTime r) = Some (h, mi)
    /\ forall P, GetReceiptPoints P r = Returns (plain_score r d h).
Proof.
  intros V Ht Hp Hr Hn.
  destruct (GetReceiptPoints_validated amd64_latin1 r V)
    as (y & m & d & h & mi & D & C & _).
  exists y, m, d, h, mi. split; [exact D|]. split; [exact C|].
  intros P.
  destruct (GetReceiptPoints_validated P r V)
    as (y' & m' & d' & h' & mi' & D' & C' & _ & _ & G).
  rewrite D in D'. rewrite C in C'.
  assert (Ed : d' = d) by congruence. assert (Eh : h' = h) by congruence.
  subst d' h'. rewrite G. f_equal. unfold plain_score.
  (* the retailer *)
  assert (Vr : CheckValidDescription (Retailer r) = true).
  { unfold Validate in V. apply andb_true_iff in V as [V _].
    apply andb_true_iff in V as [V _]. now apply andb_true_iff in V as [V _]. }
  apply CheckValidDescription_spec in Vr as [_ Vr].
  rewrite (GetAlphanumeric_ascii P _
             (forallb_impl _ _ _ _ retailer_byte_ascii Vr)).
  pose proof (filter_length_le ascii_alnum (bytes (Retailer r))) as Fa.
  rewrite bytes_length in Fa. unfold len in Hr.
  set (na := List.length (filter ascii_alnum (bytes (Retailer r)))) in *.
  assert (P32 : 2 ^ 32 = 4294967296) by reflexivity.
  assert (P63 : 2 ^ 63 = 9223372036854775808) by reflexivity.
  rewrite (wrap64_small (Z.of_nat na))
    by (unfold min_int64, max_int64; lia).
  (* the total *)
  destruct (ParseFloat_plain_value (Total r) Ht) as [Et Bt].
  assert (Gt : GetTotalCostPoints P (Total r)
               = total_bonus (decimal_cents (Total r))).
  { unfold GetTotalCostPoints. rewrite Et, (cents_hundredths P _ Bt).
    apply total_bonus_rem. lia. }
  rewrite Gt.
  assert (Bb : 0 <= total_bonus (decimal_cents (Total r)) <= 75).
  { unfold total_bonus. destruct (_ =? 0), (_ =? 0); lia. }
  (* the items *)
  rewrite GetItemPoints_sum, (desc_total_share_of P _ Hp).
  pose proof (shares_range _ Hp) as Bs.
  assert (P42 : 2 ^ 42 = 4398046511104) by reflexivity.
  assert (Bn : 0 <= Z.of_nat (List.length (Items r)) / 2 <= 500000).
  { split; [apply Z.div_pos; lia|apply Z.div_le_upper_bound; lia]. }
  rewrite (wrap64_small
             (5 * (Z.of_nat (List.length (Items r)) / 2)
              + fold_right (fun it acc => share_of it + acc) 0 (Items r)))
    by (unfold min_int64, max_int64; lia).
  (* the day and the hour *)
  apply ParseDate_inv in D as [(_ & _ & Hd) _].
  assert (Ed : (Z.rem d 2 =? 1) = Z.odd d).
  { rewrite Z.rem_mod_nonneg by lia. rewrite Zmod_odd.
    destruct (Z.odd d); reflexivity. }
  rewrite Ed.
  assert (B6 : 0 <= (if Z.odd d then 6 else 0) <= 6)
    by (destruct (Z.odd d); lia).
  assert (B10 : 0 <= (if (14 <=? h) && (h <? 16) then 10 else 0) <= 10)
    by (destruct ((14 <=? h) && (h <? 16)); lia).
  rewrite wrap64_small by (unfold min_int64, max_int64; lia). ring.
Qed.

Lemma score_in_whole_numbers_witness :
  exists y m d h mi,
    GoTime.ParseDate (PurchaseDate target_receipt) = Some (y, m, d)
    /\ GoTime.ParseClock (PurchaseTime target_receipt) = Some (h, mi)
    /\ forall P, GetReceiptPoints P target_receipt
                 = Returns (plain_score target_receipt d h).
Proof.
  apply (score_in_whole_numbers target_receipt).
  - vm_compute. reflexivity.
  - reflexivity.
  - reflexivity.
  - vm_compute. reflexivity.
  - cbn [Items target_receipt List.length]. lia.
Defined.


(** X21. The total rule does not see the sign of the total. A total
    written as a sign, one to thirteen digits, a point and two digits
    passes the price check; its cents are computed exactly, below zero
    for a minus; and it earns the bonuses of the amount without the
    sign: "-9.00" earns 75 points. *)
Theorem total_rule_ignores_the_sign (P : Platform) (costStr : string) :
  signed_price costStr = true ->
  CheckPriceValidity costStr = true
  /\ GetTotalCostPoints P costStr = total_bonus (decimal_cents costStr)
  /\ exists costFloat,
       Strconv.ParseFloat costStr = Strconv.Ok costFloat
       /\ cents P costFloat
          = (if minus_sign costStr then - decimal_cents costStr
             else decimal_cents costStr).
Proof.
  intros H. split; [now apply signed_price_checked|].
  destruct (ParseFloat_signed_value costStr H) as [E B].
  pose proof (cents_signed P (minus_sign costStr) _ B) as C.
  split.
  - unfold GetTotalCostPoints. rewrite E, C.
    destruct (minus_sign costStr).
    + apply total_bonus_rem_opp. lia.
    + apply total_bonus_rem. lia.
  - eexists. split; [exact E|exact C].
Qed.

Lemma total_rule_ignores_the_sign_witness :
  CheckPriceValidity "-9.00" = true
  /\ GetTotalCostPoints amd64_latin1 "-9.00"
     = total_bonus (decimal_cents "-9.00")
  /\ exists costFloat,
       Strconv.ParseFloat "-9.00" = Strconv.Ok costFloat
       /\ cents amd64_latin1 costFloat
          = (if minus_sign "-9.00" then - decimal_cents "-9.00"
             else decimal_cents "-9.00").
Proof.
  apply (total_rule_ignores_the_sign amd64_latin1 "-9.00"%string).
  reflexivity.
Defined.

(** X22. A price with a minus sign takes points away. An item whose
    price is a sign, one to thirteen digits, a point and two digits
    passes the price check; when its trimmed description has a length
    that is a multiple of 3, a receipt with that item alone gets, for a
    minus sign, minus the whole fifths of the amount ([math.Ceil] rounds
    towards zero there), and for a plus sign the fifth rounded up; on
    every platform. *)
Theorem signed_price_share (P : Platform) (it : Item) :
  signed_price (Price it) = true ->
  CheckPriceValidity (Price it) = true
  /\ GetItemPoints P (with_items [it])
     = (if Z.rem (len (Strings.TrimSpace (ShortDescription it))) 3 =? 0
        then if minus_sign (Price it)
             then - (decimal_cents (Price it) / 500)
             else fifth_up (decimal_cents (Price it))
        else 0).
Proof.
  intros H. split; [now apply signed_price_checked|].
  destruct (ParseFloat_signed_value (Price it) H) as [E B].
  rewrite GetItemPoints_sum. cbn [Items with_items List.length desc_total
                                   fold_right].
  change (Z.of_nat 1 / 2) with 0. rewrite Z.mul_0_r, Z.add_0_l, Z.add_0_r.
  unfold desc_points. rewrite E.
  rewrite (price_share_signed P (minus_sign (Price it)) _ B).
  assert (P50 : 2 ^ 50 = 1125899906842624) by reflexivity.
  assert (P63 : 2 ^ 63 = 9223372036854775808) by reflexivity.
  pose proof (fifth_up_range _ B) as F.
  assert (P42 : 2 ^ 42 = 4398046511104) by reflexivity.
  assert (D : 0 <= decimal_cents (Price it) / 500 < 2 ^ 42).
  { split; [apply Z.div_pos; lia|apply Z.div_lt_upper_bound; lia]. }
  apply wrap64_small. unfold min_int64, max_int64.
  destruct (_ =? 0); [destruct (minus_sign (Price it))|]; lia.
Qed.

Lemma signed_price_share_witness :
  CheckPriceValidity (Price (item "abc" "-500.00")) = true
  /\ GetItemPoints amd64_latin1 (with_items [item "abc" "-500.00"])
     = (if Z.rem (len (Strings.TrimSpace
                         (ShortDescription (item "abc" "-500.00")))) 3 =? 0
        then if minus_sign (Price (item "abc" "-500.00"))
             then - (decimal_cents (Price (item "abc" "-500.00")) / 500)
             else fifth_up (decimal_cents (Price (item "abc" "-500.00")))
        else 0).
Proof.
  apply (signed_price_share amd64_latin1 (item "abc" "-500.00")).
  reflexivity.
Defined.


(** X23. A well-formed receipt is accepted. When the retailer is one or
    more bytes of the class of its pattern, the date is a date of the
    calendar written in the layout "2006-01-02", the time is a time of
    the clock written [hh:mm], there is an item, every item has a plain
    price and a description of one or more bytes of the class of its
    pattern, and the total is a plain price, then the four checks pass,
    and [CreateReceipt] answers 200 with the next identifier and stores
    the receipt under it. *)
Theorem well_formed_receipt_is_accepted
    (r : Receipt) (y m d h mi : Z) :
  bytes (Retailer r) <> [] ->
  forallb retailer_byte (bytes (Retailer r)) = true ->
  calendar_date y m d -> PurchaseDate r = format_date y m d ->
  clock_time h mi -> PurchaseTime r = format_clock h mi ->
  Items r <> [] ->
  (forall it, In it (Items r) ->
     plain_price (Price it) = true
     /\ bytes (ShortDescription it) <> []
     /\ forallb description_byte (bytes (ShortDescription it)) = true) ->
  plain_price (Total r) = true ->
  Validate r = true
  /\ forall w,
       CreateReceipt w (Decoded r)
       = (StatusOK (uuids w (drawn w)),
          {| receipts := receipts w ++ [stamp (uuids w (drawn w)) r];
             uuids := uuids w;
             drawn := S (drawn w) |}).
Proof.
  intros Rn Rc D Ed C Ec In0 Hit Ht.
  assert (V : Validate r = true).
  { unfold Validate.
    rewrite (proj2 (CheckValidDescription_spec (Retailer r)) (conj Rn Rc)).
    unfold CheckValidTime.
    rewrite Ed, (ParseDate_format y m d D), Ec, (ParseClock_format h mi C).
    rewrite (plain_price_checked _ Ht).
    assert (Vi : CheckItemsValidity r = true).
    { unfold CheckItemsValidity.
      destruct (Items r) as [|it0 items] eqn:E; [congruence|].
      replace (Z.of_nat (List.length (it0 :: items)) <? 1) with false
        by (symmetry; apply Z.ltb_ge; cbn [List.length]; lia).
      apply Rules.check_items_spec. intros it Hi.
      destruct (Hit it Hi) as (Hp & Hn & Hc).
      split; [exact (plain_price_checked _ Hp)|].
      apply descPattern_spec. now split. }
    rewrite Vi. reflexivity. }
  split; [exact V|].
  intros w. apply (CreateReceipt_valid w (Decoded r) V).
Qed.

Lemma well_formed_receipt_is_accepted_witness :
  Validate target_receipt = true
  /\ forall w,
       CreateReceipt w (Decoded target_receipt)
       = (StatusOK (uuids w (drawn w)),
          {| receipts :=
               receipts w ++ [stamp (uuids w (drawn w)) target_receipt];
             uuids := uuids w;
             drawn := S (drawn w) |}).
Proof.
  apply (well_formed_receipt_is_accepted target_receipt 2022 1 1 13 1).
  - discriminate.
  - reflexivity.
  - unfold calendar_date. vm_compute. intuition discriminate.
  - reflexivity.
  - unfold clock_time. lia.
  - reflexivity.
  - discriminate.
  - cbn [Items target_receipt In].
    intros it [<- | [<- | [<- | [<- | [<- | []]]]]];
      (split; [reflexivity|split; [discriminate|reflexivity]]).
  - reflexivity.
Defined.

End WholeNumbers.
